(** * tippspiel: scoring and ranking engine of [tipping/views.py]

    A shallow embedding of the point rules ([_outcome],
    [points_for_prediction], [bonus_points_for_user]) and of the
    computational core of the leaderboard view [tabelle] (pagination
    window, season totals, per-matchday points, ranks and rank deltas),
    followed by the properties the specification states about them.

    Conventions.  Python integers are [Z]; a nullable column is an
    [option]; a [dict] is a [gmap] and a [set] a [gset]; a [for] loop that
    updates local variables is a left fold of its body over the iterated
    list.  Timestamps are [Z] (any totally ordered clock will do). *)

From Stdlib Require Import ZArith Ascii String.
From stdpp Require Import gmap strings list sorting.

Local Open Scope Z_scope.

(** ** Rows of the tables the engine reads ([tipping/models.py]) *)

Record Tournament := {
  tournament_id : Z;
  season_start : option Z;
  autumn_champion : string;
  champion : string;
  first_coach_sacked : string;
  top_scorer : string;
  relegated_teams : string
}.

Record Match := {
  match_id : Z;
  match_tournament : Z;
  matchday : option Z;
  home_score : option Z;
  away_score : option Z
}.

Record Prediction := {
  pred_user_id : Z;
  pred_group : Z;
  pred_match_id : Z;
  pred_home : option Z;
  pred_away : option Z
}.

Record BonusPrediction := {
  bonus_user_id : Z;
  bonus_group : Z;
  bonus_tournament : Z;
  bonus_type : string;
  value : string
}.

Record User := {
  user_id : Z;
  username : string
}.

(** ** Scoring of one match *)

Module Scoring.

(** [(h > a) - (h < a)]: a Python [bool] is the integer 0 or 1. *)
Definition _outcome (h a : Z) : Z :=
  Z.b2z (h >? a) - Z.b2z (h <? a).

Definition points_for_prediction (m : Match) (pred : option Prediction) : Z :=
  match pred with
  | None => 0
  | Some p =>
    match home_score m, away_score m with
    | Some hs, Some as_ =>
      match pred_home p, pred_away p with
      | Some ph, Some pa =>
        if (ph =? hs) && (pa =? as_) then 4
        else if ph - pa =? hs - as_ then 3
        else if _outcome ph pa =? _outcome hs as_ then 2
        else 0
      | _, _ => 0
      end
    | _, _ => 0
    end
  end.

(** Relabelling home and away on a match and on a prediction. *)
Definition swap_match (m : Match) : Match :=
  {| match_id := match_id m; match_tournament := match_tournament m;
     matchday := matchday m;
     home_score := away_score m; away_score := home_score m |}.

Definition swap_pred (p : Prediction) : Prediction :=
  {| pred_user_id := pred_user_id p; pred_group := pred_group p;
     pred_match_id := pred_match_id p;
     pred_home := pred_away p; pred_away := pred_home p |}.

(** A match with result [hs:as_] and a prediction [ph:pa]; the other
    columns play no part in the score. *)
Definition played (hs as_ : Z) : Match :=
  {| match_id := 0; match_tournament := 0; matchday := None;
     home_score := Some hs; away_score := Some as_ |}.

Definition tip (ph pa : Z) : Prediction :=
  {| pred_user_id := 0; pred_group := 0; pred_match_id := 0;
     pred_home := Some ph; pred_away := Some pa |}.

End Scoring.

(** ** Season bonus predictions *)

Module Bonus.

(** Python strings are modelled as [string]s of 8-bit characters, which
    covers ASCII text: [str.strip()] removes the ASCII white space
    characters (code points 9-13 and 28-32) from both ends and
    [str.lower()] maps [A-Z] to [a-z]; characters above 127 are kept as
    they are. *)

Definition is_space (c : ascii) : bool :=
  let n := N_of_ascii c in
  (((9 <=? n) && (n <=? 13)) || ((28 <=? n) && (n <=? 32)))%N.

Definition lower_ascii (c : ascii) : ascii :=
  let n := N_of_ascii c in
  if ((65 <=? n) && (n <=? 90))%N then ascii_of_N (n + 32) else c.

Fixpoint lower (s : string) : string :=
  match s with
  | EmptyString => EmptyString
  | String c r => String (lower_ascii c) (lower r)
  end.

Fixpoint lstrip (s : string) : string :=
  match s with
  | EmptyString => EmptyString
  | String c r => if is_space c then lstrip r else s
  end.

Fixpoint rstrip (s : string) : string :=
  match s with
  | EmptyString => EmptyString
  | String c r =>
    match rstrip r with
    | EmptyString => if is_space c then EmptyString else String c EmptyString
    | r' => String c r'
    end
  end.

Definition strip (s : string) : string := rstrip (lstrip s).

(** [s.split(",")]: the pieces between the commas, the empty ones too. *)
Fixpoint split_comma (s : string) : list string :=
  match s with
  | EmptyString => [EmptyString]
  | String c r =>
    if Ascii.eqb c "," then EmptyString :: split_comma r
    else match split_comma r with
         | x :: xs => String c x :: xs
         | [] => [String c EmptyString]
         end
  end.

(** Truth value of a string: non-empty. *)
Definition truthy (s : string) : bool :=
  match s with EmptyString => false | _ => true end.

Definition _norm (s : string) : string := lower (strip s).

Definition real_herbst (t : Tournament) : string := _norm (autumn_champion t).
Definition real_meister (t : Tournament) : string := _norm (champion t).
Definition real_trainer (t : Tournament) : string := _norm (first_coach_sacked t).
Definition real_topscorer (t : Tournament) : string := _norm (top_scorer t).

Definition relegated_set (t : Tournament) : gset string :=
  list_to_set (filter (λ x, truthy x = true) (_norm <$> split_comma (relegated_teams t))).

Definition is_relegation_type (btype : string) : bool :=
  String.eqb btype "relegation1" || String.eqb btype "relegation2".

(** The state of the scoring loop: [pts] and [counted_relegations]. *)
Definition bonus_state : Type := Z * gset string.

(** One iteration of [for bp in preds]. *)
Definition bonus_step (t : Tournament) (st : bonus_state) (bp : BonusPrediction)
    : bonus_state :=
  let '(pts, counted_relegations) := st in
  let btype := bonus_type bp in
  let val := _norm (value bp) in
  if negb (truthy val) then st
  else if String.eqb btype "herbstmeister" && truthy (real_herbst t)
          && String.eqb val (real_herbst t)
  then (pts + 5, counted_relegations)
  else if String.eqb btype "meister" && truthy (real_meister t)
          && String.eqb val (real_meister t)
  then (pts + 5, counted_relegations)
  else if String.eqb btype "trainer_first" && truthy (real_trainer t)
          && String.eqb val (real_trainer t)
  then (pts + 5, counted_relegations)
  else if String.eqb btype "topscorer" && truthy (real_topscorer t)
          && String.eqb val (real_topscorer t)
  then (pts + 5, counted_relegations)
  else if is_relegation_type btype
          && negb (bool_decide (relegated_set t = ∅))
          && bool_decide (val ∈ relegated_set t)
  then
    if negb (bool_decide (val ∈ counted_relegations))
    then (pts + 5, {[val]} ∪ counted_relegations)
    else st
  else st.

Definition bonus_init : bonus_state := (0, ∅).

Definition bonus_points_for_user (t : Tournament) (preds : list BonusPrediction) : Z :=
  (foldl (bonus_step t) bonus_init preds).1.

(** The points each iteration added, next to the prediction it looked at. *)
Fixpoint bonus_trace (t : Tournament) (st : bonus_state) (preds : list BonusPrediction)
    : list (BonusPrediction * Z) :=
  match preds with
  | [] => []
  | bp :: rest =>
    let st' := bonus_step t st bp in
    (bp, st'.1 - st.1) :: bonus_trace t st' rest
  end.

Definition sum_Z (l : list Z) : Z := foldr Z.add 0 l.

(** Points credited, over one scoring call, to the relegation slots whose
    normalized value is [v]. *)
Definition relegation_credit (t : Tournament) (preds : list BonusPrediction) (v : string) : Z :=
  sum_Z (snd <$>
    filter (λ e, is_relegation_type (bonus_type e.1) && String.eqb (_norm (value e.1)) v = true)
           (bonus_trace t bonus_init preds)).

(** A correct pick in one of the four single-valued categories. *)
Definition correct_single (t : Tournament) (bp : BonusPrediction) : bool :=
  let val := _norm (value bp) in
  truthy val &&
  (String.eqb (bonus_type bp) "herbstmeister" && String.eqb val (real_herbst t)
   || String.eqb (bonus_type bp) "meister" && String.eqb val (real_meister t)
   || String.eqb (bonus_type bp) "trainer_first" && String.eqb val (real_trainer t)
   || String.eqb (bonus_type bp) "topscorer" && String.eqb val (real_topscorer t)).

(** A correct pick in one of the two relegation slots. *)
Definition correct_relegation (t : Tournament) (bp : BonusPrediction) : bool :=
  is_relegation_type (bonus_type bp) && truthy (_norm (value bp))
  && bool_decide (_norm (value bp) ∈ relegated_set t).

(** The distinct normalized values of the correct relegation picks. *)
Definition correct_relegation_values (t : Tournament) (preds : list BonusPrediction)
    : gset string :=
  list_to_set ((λ bp, _norm (value bp)) <$> filter (λ bp, correct_relegation t bp = true) preds).

Definition pick (btype val : string) : BonusPrediction :=
  {| bonus_user_id := 1; bonus_group := 1; bonus_tournament := 1;
     bonus_type := btype; value := val |}.

Definition with_relegated (raw : string) : Tournament :=
  {| tournament_id := 1; season_start := None;
     autumn_champion := EmptyString; champion := EmptyString;
     first_coach_sacked := EmptyString; top_scorer := EmptyString;
     relegated_teams := raw |}.

End Bonus.

(** ** The leaderboard view [tabelle] *)

Module Tabelle.
Import Scoring Bonus.

(** What one request of the view reads: the active group and its
    tournament, the clock, the two paging parameters and the rows of the
    tables.  [req_from] and [req_count] are the values of the GET parameters
    [from] and [count] as [int(...)] reads them, [None] when the parameter is
    missing or is not an integer literal.  [members] are the users of the
    group's memberships.  A query is a [filter] over the rows of its table;
    its [order_by] only fixes the order in which rows are visited. *)
Record Request := {
  req_tournament : Tournament;
  req_group : Z;
  req_now : Z;
  req_from : option Z;
  req_count : option Z;
  db_matches : list Match;
  db_predictions : list Prediction;
  db_bonus : list BonusPrediction;
  members : list User
}.

Definition has_result (m : Match) : bool :=
  match home_score m, away_score m with
  | Some _, Some _ => true
  | _, _ => false
  end.

(** [count = max(4, min(count, 15))] *)
Definition clamp_count (count : Z) : Z := Z.max 4 (Z.min count 15).

(** The two [if]s under [# from_idx clamp], for [n = len(matchdays)]. *)
Definition clamp_from (n count from_idx : Z) : Z :=
  let from_idx := if from_idx <? 0 then 0 else from_idx in
  if from_idx >=? n then Z.max 0 (n - count) else from_idx.

(** Insertion into an increasing list without repetition:
    [.distinct().order_by("matchday")]. *)
Fixpoint insert_distinct (x : Z) (l : list Z) : list Z :=
  match l with
  | [] => [x]
  | y :: r =>
    if x <? y then x :: l
    else if x =? y then l
    else y :: insert_distinct x r
  end.

(** [d[k].append(x)], also for a [defaultdict(list)]. *)
Definition append_at {A} (k : Z) (x : A) (d : gmap Z (list A)) : gmap Z (list A) :=
  <[k := default [] (d !! k) ++ [x]]> d.

(** Entries of [sortable]: [(pts, username.lower(), user id)]. *)
Definition entry : Type := Z * string * Z.

Definition entry_pts (e : entry) : Z := e.1.1.
Definition entry_name (e : entry) : string := e.1.2.
Definition entry_uid (e : entry) : Z := e.2.

(** Order of the sort keys [(-x[0], x[1])]: tuples compare
    lexicographically, strings by code point. *)
Definition key_leb (x y : entry) : bool :=
  (- entry_pts x <? - entry_pts y)
  || ((- entry_pts x =? - entry_pts y) && String.leb (entry_name x) (entry_name y)).

Fixpoint insert_sorted (x : entry) (l : list entry) : list entry :=
  match l with
  | [] => [x]
  | y :: r => if key_leb x y then x :: l else y :: insert_sorted x r
  end.

(** [sortable.sort(key=...)]: a stable sort (entries with equal keys keep
    their order). *)
Definition sort_entries (l : list entry) : list entry := foldr insert_sorted [] l.

(** The ranking loop over [enumerate(sortable, start=1)], as the list of
    its assignments [(uid, rank)]; [idx], [rank] and [last_pts] are the
    loop's variables. *)
Fixpoint rank_loop (idx rank : Z) (last_pts : option Z) (l : list entry) : list (Z * Z) :=
  match l with
  | [] => []
  | e :: rest =>
    let fresh := match last_pts with
                 | None => true
                 | Some lp => negb (entry_pts e =? lp)
                 end in
    let rank := if fresh then idx else rank in
    let last_pts := if fresh then Some (entry_pts e) else last_pts in
    (entry_uid e, rank) :: rank_loop (idx + 1) rank last_pts rest
  end.

(** The assignments of one ranking: sort, then rank. *)
Definition rank_entries (sortable : list entry) : list (Z * Z) :=
  rank_loop 1 0 None (sort_entries sortable).

(** Ranking order in words: more points first, equal points by name. *)
Definition ranks_before (x y : entry) : Prop :=
  entry_pts y < entry_pts x
  ∨ (entry_pts x = entry_pts y ∧ String.leb (entry_name x) (entry_name y) = true).

(** How many entries of [l] have strictly more points than [pts]. *)
Definition count_above (pts : Z) (l : list entry) : Z :=
  Z.of_nat (length (filter (λ y, pts < entry_pts y) l)).

(** [d[md].get(uid)] and [d[uid][md]] on a dict of dicts whose values may
    be [None]. *)
Definition get2 (d : gmap Z (gmap Z (option Z))) (k1 k2 : Z) : option Z :=
  mjoin (d !! k1 ≫= (λ inner, inner !! k2)).

Section View.

Variable rq : Request.

Let tournament := req_tournament rq.
Let group := req_group rq.
Let users := members rq.

(** [bool(season_start and now >= season_start)] *)
Definition bonus_reveal : bool :=
  match season_start tournament with
  | Some s => bool_decide (s ≤ req_now rq)
  | None => false
  end.

Definition count : Z := clamp_count (default 8 (req_count rq)).

Definition tournament_matches : list Match :=
  filter (λ m, match_tournament m = tournament_id tournament) (db_matches rq).

(** The distinct matchdays of the tournament in increasing order, null
    ones left out.  When there is none the view renders an empty table and
    computes nothing of what follows. *)
Definition matchdays : list Z :=
  foldr insert_distinct [] (omap matchday tournament_matches).

Definition from_idx : Z :=
  clamp_from (Z.of_nat (length matchdays)) count (default 0 (req_from rq)).

(** [matchdays[from_idx:from_idx + count]] *)
Definition shown_matchdays : list Z :=
  take (Z.to_nat count) (drop (Z.to_nat from_idx) matchdays).

Definition prev_from : option Z :=
  if from_idx - count >=? 0 then Some (from_idx - count) else None.

Definition next_from : option Z :=
  if from_idx + count <? Z.of_nat (length matchdays) then Some (from_idx + count) else None.

(** The matches of the tournament on matchday [md]. *)
Definition matches_of_md (md : Z) : list Match :=
  filter (λ m, matchday m = Some md) tournament_matches.

(** *** Season totals *)

(** [pr.match]: the row the foreign key points to. *)
Definition match_of (pr : Prediction) : option Match :=
  List.find (λ m, match_id m =? pred_match_id pr) (db_matches rq).

Definition is_finished_pred (pr : Prediction) : bool :=
  (pred_group pr =? group)
  && match match_of pr with
     | Some m => (match_tournament m =? tournament_id tournament) && has_result m
     | None => false
     end.

Definition finished_preds : list Prediction :=
  filter (λ pr, is_finished_pred pr = true) (db_predictions rq).

(** [pr.match] scored against [pr]. *)
Definition pred_points (pr : Prediction) : Z :=
  match match_of pr with
  | Some m => points_for_prediction m (Some pr)
  | None => 0
  end.

(** [total_points_all] after the loop over [finished_preds]. *)
Definition total_points_preds : gmap Z Z :=
  foldl (λ acc pr,
           <[pred_user_id pr := default 0 (acc !! pred_user_id pr) + pred_points pr]> acc)
        (foldl (λ acc u, <[user_id u := 0]> acc) ∅ users)
        finished_preds.

Definition all_bonus : list BonusPrediction :=
  filter (λ bp, bonus_group bp = group
                ∧ bonus_tournament bp = tournament_id tournament
                ∧ bonus_user_id bp ∈ user_id <$> users) (db_bonus rq).

Definition bonus_by_user : gmap Z (list BonusPrediction) :=
  foldl (λ acc bp, append_at (bonus_user_id bp) bp acc) ∅ all_bonus.

(** [bonus_points_by_user], filled only under [bonus_reveal]. *)
Definition bonus_points_by_user : gmap Z Z :=
  if bonus_reveal then
    foldl (λ acc u,
             <[user_id u :=
                 bonus_points_for_user tournament
                   (default [] (bonus_by_user !! user_id u))]> acc)
          ∅ users
  else ∅.

(** [total_points_all] as the rows of the table read it. *)
Definition total_points_all : gmap Z Z :=
  if bonus_reveal then
    foldl (λ acc u,
             <[user_id u := default 0 (acc !! user_id u)
                            + default 0 (bonus_points_by_user !! user_id u)]> acc)
          total_points_preds users
  else total_points_preds.

(** The [total] of a row: [total_points_all.get(u.id, 0)]. *)
Definition season_total (uid : Z) : Z := default 0 (total_points_all !! uid).

(** *** The columns of a window of matchdays *)

Section Window.

Variable shown : list Z.

(** [matchday__in=shown_matchdays] *)
Definition matchday_in (m : Match) : bool :=
  match matchday m with
  | Some md => bool_decide (md ∈ shown)
  | None => false
  end.

Definition matches : list Match :=
  filter (λ m, match_tournament m = tournament_id tournament
               ∧ matchday_in m = true) (db_matches rq).

Definition matches_by_md : gmap Z (list Match) :=
  foldl (λ acc m, match matchday m with
                  | Some md => append_at md m acc
                  | None => acc
                  end)
        (foldl (λ acc md, <[md := []]> acc) ∅ shown)
        matches.

Definition match_ids : list Z := match_id <$> matches.

Definition all_preds : list Prediction :=
  filter (λ p, pred_group p = group
               ∧ pred_match_id p ∈ match_ids
               ∧ pred_user_id p ∈ user_id <$> users) (db_predictions rq).

Definition pred_map : gmap (Z * Z) Prediction :=
  foldl (λ acc p, <[(pred_user_id p, pred_match_id p) := p]> acc) ∅ all_preds.

(** The scorer summed over the matches [ms] for one user, each match
    against the prediction [pred_map.get((uid, m.id))]. *)
Definition scored (uid : Z) (ms : list Match) : Z :=
  sum_Z ((λ m, points_for_prediction m (pred_map !! (uid, match_id m))) <$> ms).

(** The body of [for md in shown_matchdays] for one user: the value
    stored in [md_points[u.id][md]]. *)
Definition md_cell (uid md : Z) : option Z :=
  let md_matches := default [] (matches_by_md !! md) in
  match md_matches with
  | [] => None
  | _ =>
    let '(scored_any, total) :=
      foldl (λ '(scored_any, total) m,
               if negb (has_result m) then (scored_any, total)
               else (true, total + points_for_prediction m (pred_map !! (uid, match_id m))))
            (false, 0) md_matches in
    if scored_any then Some total else None
  end.

Definition md_points : gmap Z (gmap Z (option Z)) :=
  foldl (λ acc u,
           foldl (λ acc md, alter (insert md (md_cell (user_id u) md)) (user_id u) acc)
                 acc shown)
        (foldl (λ acc u, <[user_id u := foldl (λ d md, <[md := None]> d) ∅ shown]> acc)
               ∅ users)
        users.

Definition any_results (md : Z) : bool :=
  existsb has_result (default [] (matches_by_md !! md)).

(** [pts if pts is not None else 0] for [pts = md_points[u.id][md]]. *)
Definition pts_or_zero (uid md : Z) : Z := default 0 (get2 md_points uid md).

Definition sortable (md : Z) : list entry :=
  (λ u, (pts_or_zero (user_id u) md, lower (username u), user_id u)) <$> users.

(** The body of [for md in shown_matchdays] of the ranking, acting on
    [rank_by_md[md]]. *)
Definition rank_column (md : Z) (col : gmap Z (option Z)) : gmap Z (option Z) :=
  if negb (any_results md) then
    foldl (λ col u, <[user_id u := None]> col) col users
  else
    foldl (λ col '(uid, rank), <[uid := Some rank]> col) col (rank_entries (sortable md)).

Definition rank_by_md : gmap Z (gmap Z (option Z)) :=
  foldl (λ acc md, alter (rank_column md) md acc)
        (foldl (λ acc md, <[md := ∅]> acc) ∅ shown)
        shown.

(** The value stored in [rankdiff_by_md[md][u.id]] at column [i]. *)
Definition rankdiff_cell (i : nat) (md uid : Z) : option Z :=
  let prev_md_local := if (0 <? i)%nat then shown !! (i - 1)%nat else None in
  let cur := get2 rank_by_md md uid in
  match prev_md_local with
  | None => None
  | Some prev_md =>
    let prev := get2 rank_by_md prev_md uid in
    match cur, prev with
    | Some cur, Some prev => Some (prev - cur)
    | _, _ => None
    end
  end.

Definition rankdiff_by_md : gmap Z (gmap Z (option Z)) :=
  foldl (λ acc '(i, md),
           foldl (λ acc u, alter (insert (user_id u) (rankdiff_cell i md (user_id u))) md acc)
                 acc users)
        (foldl (λ acc md, <[md := ∅]> acc) ∅ shown)
        (zip (seq 0 (length shown)) shown).

End Window.

(** *** The season total in words *)

(** The user's points on matchday [md]: the matchday aggregate as the view
    computes it for a window that holds every matchday, none read as 0. *)
Definition matchday_points (uid md : Z) : Z :=
  default 0 (get2 (md_points matchdays) uid md).

(** The sum of the user's per-matchday points over all matchdays. *)
Definition matchday_total (uid : Z) : Z :=
  sum_Z ((λ md, matchday_points uid md) <$> matchdays).

(** The user's bonus points if the bonus is revealed, else nothing. *)
Definition bonus_share (uid : Z) : Z :=
  if bonus_reveal
  then bonus_points_for_user tournament (default [] (bonus_by_user !! uid))
  else 0.

(** The matchday of the match a prediction is for. *)
Definition pred_matchday (pr : Prediction) : option Z := match_of pr ≫= matchday.

(** The user's points on finished matches that have no matchday. *)
Definition unassigned_points (uid : Z) : Z :=
  sum_Z (pred_points <$>
    filter (λ pr, pred_user_id pr = uid ∧ pred_matchday pr = None) finished_preds).

End View.

End Tabelle.

(** ** Sample data used by the worked examples *)

Module Samples.
Import Bonus Tabelle.

Definition liga : Tournament :=
  {| tournament_id := 1; season_start := Some 100;
     autumn_champion := "Barcelona SC"; champion := EmptyString;
     first_coach_sacked := EmptyString; top_scorer := "Diaz";
     relegated_teams := "Alpha, Beta" |}.

Definition picks_a : list BonusPrediction :=
  [pick "relegation1" "alpha"; pick "herbstmeister" " barcelona sc";
   pick "relegation2" "ALPHA "; pick "meister" "Emelec"].

Definition picks_b : list BonusPrediction :=
  [pick "herbstmeister" " barcelona sc"; pick "relegation1" "alpha";
   pick "relegation2" "ALPHA "; pick "meister" "Emelec"].

Definition mk_match (id t : Z) (md : option Z) (hs as_ : option Z) : Match :=
  {| match_id := id; match_tournament := t; matchday := md;
     home_score := hs; away_score := as_ |}.

Definition mk_pred (u g m : Z) (ph pa : option Z) : Prediction :=
  {| pred_user_id := u; pred_group := g; pred_match_id := m;
     pred_home := ph; pred_away := pa |}.

Definition mk_bonus (u g t : Z) (btype val : string) : BonusPrediction :=
  {| bonus_user_id := u; bonus_group := g; bonus_tournament := t;
     bonus_type := btype; value := val |}.

Definition ana : User := {| user_id := 1; username := "ana" |}.
Definition ben : User := {| user_id := 2; username := "Ben" |}.
Definition cid : User := {| user_id := 3; username := "cid" |}.

(** Matchdays 3, 4 and 5 of tournament 1, one match without a matchday and
    one match of another tournament. *)
Definition sample_matches : list Match :=
  [mk_match 1 1 (Some 3) (Some 2) (Some 1);
   mk_match 2 1 (Some 3) None None;
   mk_match 3 1 (Some 4) (Some 0) (Some 0);
   mk_match 4 1 (Some 5) None None;
   mk_match 5 1 None (Some 1) (Some 0);
   mk_match 6 2 (Some 3) (Some 1) (Some 1)].

Definition sample_predictions : list Prediction :=
  [mk_pred 1 1 1 (Some 2) (Some 1);
   mk_pred 1 1 2 (Some 1) (Some 1);
   mk_pred 1 1 3 (Some 1) (Some 1);
   mk_pred 1 1 4 (Some 0) (Some 0);
   mk_pred 1 1 5 (Some 1) (Some 0);
   mk_pred 2 1 1 (Some 3) (Some 2);
   mk_pred 2 1 3 (Some 0) (Some 0);
   mk_pred 3 1 1 (Some 0) (Some 2);
   mk_pred 1 2 1 (Some 2) (Some 1)].

Definition sample_bonus : list BonusPrediction :=
  [mk_bonus 1 1 1 "relegation1" "alpha";
   mk_bonus 1 1 1 "relegation2" "ALPHA ";
   mk_bonus 2 1 1 "herbstmeister" "barcelona sc"].

(** A request for group 1 at time [now], default paging. *)
Definition sample_request (now : Z) : Request :=
  {| req_tournament := liga; req_group := 1; req_now := now;
     req_from := None; req_count := None;
     db_matches := sample_matches; db_predictions := sample_predictions;
     db_bonus := sample_bonus; members := [ana; ben; cid] |}.

Definition sample_entries : list entry :=
  [(5, "d", 4); (10, "b", 2); (7, "c", 3); (10, "a", 1); (5, "e", 5)].

Definition sample_before : Request := sample_request 50.
Definition sample_after : Request := sample_request 200.

(** The window of the sample requests: matchdays 3, 4 and 5. *)
Definition shown_after : list Z := shown_matchdays sample_after.

(** Twenty matchdays, asked for from offset 25 with 20 columns. *)
Definition long_season : Request :=
  {| req_tournament := liga; req_group := 1; req_now := 0;
     req_from := Some 25; req_count := Some 20;
     db_matches := (λ md, mk_match md 1 (Some md) None None) <$> seqZ 1 20;
     db_predictions := []; db_bonus := []; members := [ana; ben; cid] |}.

End Samples.

(** ** The same data under another request *)

Module Paging.
Import Tabelle.

(** The request with other values of the GET parameters [from] and
    [count]. *)
Definition with_paging (rq : Request) (from_ count_ : option Z) : Request :=
  {| req_tournament := req_tournament rq; req_group := req_group rq;
     req_now := req_now rq; req_from := from_; req_count := count_;
     db_matches := db_matches rq; db_predictions := db_predictions rq;
     db_bonus := db_bonus rq; members := members rq |}.

(** The request at another time of the clock. *)
Definition with_now (rq : Request) (now : Z) : Request :=
  {| req_tournament := req_tournament rq; req_group := req_group rq;
     req_now := now; req_from := req_from rq; req_count := req_count rq;
     db_matches := db_matches rq; db_predictions := db_predictions rq;
     db_bonus := db_bonus rq; members := members rq |}.

End Paging.

(** ** ASCII text *)

Module Text.

(** [str.isascii()]: every character is below code point 128.  On such
    text [str.strip()], [str.lower()], [\d] and [int()] are exactly the
    tables of [is_space], [lower_ascii] and [is_digit]. *)
Definition isascii (s : string) : Prop :=
  Forall (λ c, (N_of_ascii c < 128)%N) (list_ascii_of_string s).

End Text.

(** ** The rows of the season table ([tabelle], [# --- Template Rows]) *)

Module Table.
Import Scoring Bonus Tabelle.

(** Python compares the sort keys [(number, string)] lexicographically. *)
Definition tuple_leb (a b : Z * string) : bool :=
  (a.1 <? b.1) || ((a.1 =? b.1) && String.leb a.2 b.2).

(** The order of the keys in words. *)
Definition tuple_le (a b : Z * string) : Prop :=
  a.1 < b.1 ∨ (a.1 = b.1 ∧ String.leb a.2 b.2 = true).

Section SortBy.

Context {A : Type}.
Variable key : A -> Z * string.

Fixpoint insert_by (x : A) (l : list A) : list A :=
  match l with
  | [] => [x]
  | y :: r => if tuple_leb (key x) (key y) then x :: l else y :: insert_by x r
  end.

(** [rows.sort(key=...)]: stable, rows with equal keys keep their order. *)
Definition sort_by (l : list A) : list A := foldr insert_by [] l.

End SortBy.

Record Row := {
  row_user : User;
  row_cells : list (option Z);
  row_bonus : option Z;
  row_total : Z
}.

Section Rows.

Variable rq : Request.

(** The GET parameter [view], [None] when it is missing. *)
Variable view_param : option string.

Definition view : string :=
  let v := default "mdpoints" view_param in
  if bool_decide (v ∈ ["mdpoints"; "ranks"; "rankdiff"]) then v else "mdpoints".

Definition cells (u : User) : list (option Z) :=
  let shown := shown_matchdays rq in
  if String.eqb view "mdpoints" then
    (λ md, get2 (md_points rq shown) (user_id u) md) <$> shown
  else if String.eqb view "ranks" then
    (λ md, get2 (rank_by_md rq shown) md (user_id u)) <$> shown
  else
    (λ md, get2 (rankdiff_by_md rq shown) md (user_id u)) <$> shown.

Definition row_of (u : User) : Row :=
  {| row_user := u;
     row_cells := cells u;
     row_bonus := if bonus_reveal rq
                  then Some (default 0 (bonus_points_by_user rq !! user_id u))
                  else None;
     row_total := season_total rq (user_id u) |}.

(** [key=lambda r: (-r["total"], r["user"].username.lower())] *)
Definition row_key (r : Row) : Z * string :=
  (- row_total r, lower (username (row_user r))).

(** [if not matchdays:] the view renders an empty table. *)
Definition table_rows : list Row :=
  match matchdays rq with
  | [] => []
  | _ => sort_by row_key (row_of <$> members rq)
  end.

End Rows.

End Table.

(** ** Reading numbers from the CSV ([import_matches._to_int]) *)

Module ImportMatches.
Import Bonus.

(** [\d] on ASCII text: the digits 0-9.  (On other text Python's [\d]
    and [int()] also take the decimal digits of other scripts; the model
    is of ASCII text, as for [strip] and [lower].) *)
Definition is_digit (c : ascii) : bool :=
  let n := N_of_ascii c in ((48 <=? n) && (n <=? 57))%N.

Definition digit_value (c : ascii) : Z := Z.of_N (N_of_ascii c) - 48.

(** The digits at the front of a string. *)
Fixpoint take_digits (s : string) : string :=
  match s with
  | String c r => if is_digit c then String c (take_digits r) else EmptyString
  | EmptyString => EmptyString
  end.

(** [re.search(r"\d+", s)]: the leftmost run of digits, taken as long as it
    goes; [None] when there is no digit. *)
Fixpoint search_digits (s : string) : option string :=
  match s with
  | EmptyString => None
  | String c r => if is_digit c then Some (take_digits s) else search_digits r
  end.

(** [int(...)] of a string of ASCII digits.  (Python refuses a text of
    more than 4300 digits.) *)
Fixpoint int_acc (acc : Z) (s : string) : Z :=
  match s with
  | EmptyString => acc
  | String c r => int_acc (10 * acc + digit_value c) r
  end.

Definition int_of_digits (s : string) : Z := int_acc 0 s.

Definition _to_int (val : option string) : option Z :=
  match val with
  | None => None
  | Some v =>
    let s := strip v in
    match s with
    | EmptyString => None
    | _ =>
      match search_digits s with
      | Some d => Some (int_of_digits d)
      | None => None
      end
    end
  end.

End ImportMatches.

(** ** The active group ([_require_active_membership], [set_active_group]) *)

Module Membership.

Record GroupMembership := {
  membership_id : Z;
  member_user : Z;
  member_group : Z
}.

(** [.order_by("id").first()], and [.first()] of an unordered query, which
    Django orders by the primary key: the row with the least id. *)
Fixpoint first_by_id (l : list GroupMembership) : option GroupMembership :=
  match l with
  | [] => None
  | m :: r =>
    match first_by_id r with
    | None => Some m
    | Some m' =>
      if membership_id m <=? membership_id m' then Some m else Some m'
    end
  end.

Section Session.

(** The membership table, [request.user.is_authenticated] and
    [request.user.id]. *)
Variable db : list GroupMembership.
Variable authenticated : bool.
Variable user : Z.

Definition memberships_of_user : list GroupMembership :=
  filter (λ m, member_user m = user) db.

Definition membership_in (g : Z) : list GroupMembership :=
  filter (λ m, member_user m = user ∧ member_group m = g) db.

(** The function returns the membership and may write
    [request.session["active_group_id"]]: the result is the pair of the
    returned value and the session value afterwards.  [if active_group_id:]
    is false for a missing value and for 0. *)
Definition _require_active_membership (session : option Z)
    : option GroupMembership * option Z :=
  if negb authenticated then (None, session)
  else
    let fallback :=
      match first_by_id memberships_of_user with
      | Some m => (Some m, Some (member_group m))
      | None => (None, session)
      end in
    match session with
    | Some g =>
      if g =? 0 then fallback
      else
        match first_by_id (membership_in g) with
        | Some m => (Some m, session)
        | None => fallback
        end
    | None => fallback
    end.

(** [set_active_group]: the posted [group_id] ([None] when the field is
    missing) and the session value before; the result is the session value
    after.  The view is behind [login_required]. *)
Definition set_active_group (posted session : option Z) : option Z :=
  match posted with
  | Some g =>
    match first_by_id (membership_in g) with
    | Some m => Some (member_group m)
    | None => session
    end
  | None => session
  end.

End Session.

End Membership.

(** ** Choosing the matchday of a page ([_get_selected_matchday],
    [_prev_next_md]) *)

Module Navigation.
Import Tabelle.

(** The greatest and the least element of a list of numbers:
    [.order_by("-matchday")...first()] and [.order_by("matchday")...first()]. *)
Definition max_of (l : list Z) : option Z :=
  foldl (λ best x, match best with
                   | None => Some x
                   | Some b => if b <? x then Some x else best
                   end) None l.

Definition min_of (l : list Z) : option Z :=
  foldl (λ best x, match best with
                   | None => Some x
                   | Some b => if x <? b then Some x else best
                   end) None l.

Section Nav.

Variable rq : Request.

(** [Match.kickoff], a column the record [Match] does not carry, read off
    the row. *)
Variable kickoff : Match -> Z.

(** The GET parameter [md] as [int(md_param.strip())] reads it, [None] when
    it is missing, empty or no integer literal. *)
Variable md_param : option Z.

(** [.order_by("kickoff").first()]: a row with the least kickoff, the
    first such row of the table where several have it. *)
Definition earliest (l : list Match) : option Match :=
  foldl (λ best m, match best with
                   | None => Some m
                   | Some b => if kickoff m <? kickoff b then Some m else best
                   end) None l.

Definition md_exists (md : Z) : bool :=
  bool_decide (Exists (λ m, matchday m = Some md) (tournament_matches rq)).

Definition next_match : option Match :=
  earliest (filter (λ m, req_now rq ≤ kickoff m ∧ is_Some (matchday m))
                   (tournament_matches rq)).

Definition last_md : option Z := max_of (omap matchday (tournament_matches rq)).

(** Steps 2 and 3: the matchday of the next match to start, else the last
    matchday. *)
Definition default_matchday : option Z :=
  match next_match with
  | Some m => matchday m
  | None => last_md
  end.

Definition _get_selected_matchday : option Z :=
  match md_param with
  | Some selected_md => if md_exists selected_md then Some selected_md else default_matchday
  | None => default_matchday
  end.

Definition _prev_next_md (md : Z) : option Z * option Z :=
  (max_of (filter (λ d, d < md) (omap matchday (tournament_matches rq))),
   min_of (filter (λ d, md < d) (omap matchday (tournament_matches rq)))).

End Nav.

End Navigation.

(** ** The matchday page [spieltag]: the match tab *)

Module Spieltag.
Import Scoring Bonus Tabelle Table.

Record Cell := {
  cell_reveal : bool;
  cell_pred : option Prediction;
  cell_points : option Z
}.

Record PageRow := {
  page_user : User;
  page_cells : list Cell;
  total_points : Z;
  bonus_points : Z;
  total_with_bonus : Z
}.

Section Page.

Variable rq : Request.

(** [Match.kickoff], read off the row. *)
Variable kickoff : Match -> Z.

(** The matchday [_get_selected_matchday] has chosen. *)
Variable md : Z.

Let tournament := req_tournament rq.
Let users := members rq.

Definition page_matches : list Match := matches_of_md rq md.

Definition page_preds : list Prediction :=
  filter (λ p, pred_group p = req_group rq
               ∧ pred_match_id p ∈ match_id <$> page_matches
               ∧ pred_user_id p ∈ user_id <$> users) (db_predictions rq).

Definition page_pred_map : gmap (Z * Z) Prediction :=
  foldl (λ acc p, <[(pred_user_id p, pred_match_id p) := p]> acc) ∅ page_preds.

(** [bonus_points_map]: the bonus score per user under [bonus_reveal], else
    0 for every user. *)
Definition bonus_points_map : gmap Z Z :=
  if bonus_reveal rq then
    foldl (λ acc u,
             <[user_id u :=
                 bonus_points_for_user tournament
                   (default [] (bonus_by_user rq !! user_id u))]> acc)
          ∅ users
  else
    foldl (λ acc u, <[user_id u := 0]> acc) ∅ users.

(** One pass of [for m in matches] for the user [u]. *)
Definition cell_of (u : User) (m : Match) : Cell :=
  let reveal := kickoff m <=? req_now rq in
  let p := page_pred_map !! (user_id u, match_id m) in
  {| cell_reveal := reveal;
     cell_pred := p;
     cell_points := if reveal then Some (points_for_prediction m p) else None |}.

Definition row_loop (u : User) : Z * list Cell :=
  foldl (λ '(total_points, cells) m,
           let c := cell_of u m in
           (match cell_points c with
            | Some cell_points => total_points + cell_points
            | None => total_points
            end,
            cells ++ [c]))
        (0, []) page_matches.

Definition page_row_of (u : User) : PageRow :=
  let '(total_points, cells) := row_loop u in
  {| page_user := u;
     page_cells := cells;
     total_points := total_points;
     bonus_points := default 0 (bonus_points_map !! user_id u);
     total_with_bonus := total_points + default 0 (bonus_points_map !! user_id u) |}.

Definition page_rows : list PageRow :=
  if bonus_reveal rq then
    sort_by (λ r, (- total_with_bonus r, lower (username (page_user r))))
            (page_row_of <$> users)
  else
    sort_by (λ r, (- total_points r, lower (username (page_user r))))
            (page_row_of <$> users).

End Page.

End Spieltag.

(** ** Saving predictions ([tippen], the POST branch) *)

Module Tippen.
Import Tabelle.

(** The natural key of a prediction: user, group and match. *)
Definition key3 (p : Prediction) : Z * Z * Z :=
  (pred_user_id p, pred_group p, pred_match_id p).

(** The state of the POST loop: the prediction table, the two counters, and
    whether a call has raised.  An exception of [update_or_create] is not
    caught by the view: the loop ends there and the request fails, with the
    rows written so far kept (each call commits on its own). *)
Record PostState := {
  post_db : list Prediction;
  saved : Z;
  skipped_locked : Z;
  raised : bool
}.

Section Post.

Variable rq : Request.

(** [Match.kickoff], read off the row. *)
Variable kickoff : Match -> Z.

(** [request.user.id], the selected matchday, and the clock as the POST
    branch reads it. *)
Variable me : Z.
Variable md : Z.
Variable now : Z.

(** The POST fields [pred_home_<id>] and [pred_away_<id>] by match id, as
    [int(...)] reads them after [strip()]: [None] when the field is
    missing, blank or no integer literal, the three cases in which the loop
    moves on without saving. *)
Variables post_home post_away : Z -> option Z.

(** The largest value the database takes in the [IntegerField] columns
    [pred_home] and [pred_away]: 2^31 - 1 on PostgreSQL, 2^63 - 1 on
    SQLite.  The view checks no upper bound, so a larger tip reaches the
    database and the call raises. *)
Variable column_max : Z.

Definition same_key (m : Match) (p : Prediction) : bool :=
  (pred_user_id p =? me) && (pred_group p =? req_group rq)
  && (pred_match_id p =? match_id m).

(** The table after a successful
    [Prediction.objects.update_or_create(user, group, match, defaults)]:
    the row with the key gets the new tips, and a row is added when there
    is none.  (The table has at most one row per key.) *)
Definition upsert (db : list Prediction) (m : Match) (ph pa : Z)
    : list Prediction :=
  if existsb (same_key m) db then
    (λ p, if same_key m p
          then {| pred_user_id := pred_user_id p; pred_group := pred_group p;
                  pred_match_id := pred_match_id p;
                  pred_home := Some ph; pred_away := Some pa |}
          else p) <$> db
  else
    db ++ [{| pred_user_id := me; pred_group := req_group rq;
              pred_match_id := match_id m;
              pred_home := Some ph; pred_away := Some pa |}].

(** [update_or_create]: [None] when the database refuses a tip that does
    not fit the column; the call raises and writes nothing.  (The loop
    calls it with non-negative tips only.) *)
Definition update_or_create (db : list Prediction) (m : Match) (ph pa : Z)
    : option (list Prediction) :=
  if (ph <=? column_max) && (pa <=? column_max)
  then Some (upsert db m ph pa) else None.

(** One pass of [for m in matches]; no pass runs after a call has raised. *)
Definition post_step (st : PostState) (m : Match) : PostState :=
  if raised st then st
  else if kickoff m <=? now then
    {| post_db := post_db st; saved := saved st;
       skipped_locked := skipped_locked st + 1; raised := false |}
  else
    match post_home (match_id m), post_away (match_id m) with
    | Some ph, Some pa =>
      if (ph <? 0) || (pa <? 0) then st
      else
        match update_or_create (post_db st) m ph pa with
        | Some db' =>
          {| post_db := db'; saved := saved st + 1;
             skipped_locked := skipped_locked st; raised := false |}
        | None =>
          {| post_db := post_db st; saved := saved st;
             skipped_locked := skipped_locked st; raised := true |}
        end
    | _, _ => st
    end.

Definition tippen_post : PostState :=
  foldl post_step
        {| post_db := db_predictions rq; saved := 0; skipped_locked := 0;
           raised := false |}
        (matches_of_md rq md).

End Post.

End Tippen.

(** ** Sample data for the pages *)

Module PageSamples.
Import Tabelle Membership Samples.

(** Kickoff times of the sample matches: match 1 at 100, match 2 at 200
    and so on. *)
Definition sample_kickoff (m : Match) : Z := 100 * match_id m.

(** A posted form with the tip 5:0 on match 1 and 2:1 on match 2. *)
Definition sample_post_home (id : Z) : option Z :=
  if id =? 1 then Some 5 else if id =? 2 then Some 2 else None.

Definition sample_post_away (id : Z) : option Z :=
  if id =? 1 then Some 0 else if id =? 2 then Some 1 else None.

(** A posted form with a home tip on match 2 beyond a 32-bit column. *)
Definition sample_post_big (id : Z) : option Z :=
  if id =? 2 then Some 3000000000 else None.

(** The column width of PostgreSQL's [integer]. *)
Definition sample_column_max : Z := 2147483647.

(** Ana is in groups 1 and 2, Ben in group 1. *)
Definition sample_memberships : list GroupMembership :=
  [{| membership_id := 1; member_user := 1; member_group := 1 |};
   {| membership_id := 2; member_user := 2; member_group := 1 |};
   {| membership_id := 3; member_user := 1; member_group := 2 |}].

(** The sample group in a tournament whose only match has no matchday. *)
Definition sample_unassigned : Request :=
  {| req_tournament := liga; req_group := 1; req_now := 200;
     req_from := None; req_count := None;
     db_matches := [mk_match 5 1 None (Some 1) (Some 0)];
     db_predictions := sample_predictions;
     db_bonus := sample_bonus; members := [ana; ben; cid] |}.

End PageSamples.

(** * Properties *)

Import Scoring Bonus Tabelle Text Paging Table Navigation Spieltag Tippen Membership ImportMatches
  Samples PageSamples.

(** Closed decidable facts about the sample data. *)
Local Ltac by_evaluation := apply (bool_decide_unpack _); vm_compute; exact I.

(** ** The match scorer *)

Lemma _outcome_sgn h a : _outcome h a = Z.sgn (h - a).
Proof.
  unfold _outcome.
  destruct (Z.gtb_spec h a), (Z.ltb_spec h a); simpl; lia.
Qed.

Lemma _outcome_swap h a : _outcome a h = - _outcome h a.
Proof. rewrite !_outcome_sgn. lia. Qed.

Lemma points_both_present m p hs as_ ph pa :
  home_score m = Some hs -> away_score m = Some as_ ->
  pred_home p = Some ph -> pred_away p = Some pa ->
  points_for_prediction m (Some p) =
    if (ph =? hs) && (pa =? as_) then 4
    else if ph - pa =? hs - as_ then 3
    else if _outcome ph pa =? _outcome hs as_ then 2
    else 0.
Proof. intros Hh Ha Hph Hpa. unfold points_for_prediction. by rewrite Hh, Ha, Hph, Hpa. Qed.

Lemma points_range m pred :
  points_for_prediction m pred ∈ [0; 2; 3; 4].
Proof.
  unfold points_for_prediction.
  repeat case_match; set_solver.
Qed.

Lemma points_nonneg m pred : 0 <= points_for_prediction m pred.
Proof.
  pose proof (points_range m pred) as H.
  rewrite !elem_of_cons in H. rewrite elem_of_nil in H. lia.
Qed.

Lemma points_no_result m pred :
  home_score m = None ∨ away_score m = None ->
  points_for_prediction m pred = 0.
Proof.
  intros H. unfold points_for_prediction.
  destruct pred; [|done]. destruct H as [-> | ->]; [done|]. by destruct (home_score m).
Qed.

(** C1. The match scorer returns 0 when the prediction is absent, when a
    side of the result is missing or when a side of the prediction is
    missing; when all four numbers are present it returns 4 exactly when
    the predicted pair is the actual pair, 3 exactly when the goal
    difference agrees and the pair differs, 2 exactly when the tendency
    agrees and the goal difference does not, and 0 in every other case. *)
Theorem points_for_prediction_spec (m : Match) (pred : option Prediction) :
  (pred = None -> points_for_prediction m pred = 0) ∧
  (home_score m = None ∨ away_score m = None ->
     points_for_prediction m pred = 0) ∧
  (∀ p, pred = Some p -> pred_home p = None ∨ pred_away p = None ->
     points_for_prediction m pred = 0) ∧
  (∀ p hs as_ ph pa,
     pred = Some p ->
     home_score m = Some hs -> away_score m = Some as_ ->
     pred_home p = Some ph -> pred_away p = Some pa ->
     (points_for_prediction m pred = 4 <-> ph = hs ∧ pa = as_) ∧
     (points_for_prediction m pred = 3 <->
        ph - pa = hs - as_ ∧ ¬ (ph = hs ∧ pa = as_)) ∧
     (points_for_prediction m pred = 2 <->
        Z.sgn (ph - pa) = Z.sgn (hs - as_) ∧ ph - pa ≠ hs - as_) ∧
     (points_for_prediction m pred = 0 <->
        Z.sgn (ph - pa) ≠ Z.sgn (hs - as_))).
Proof.
  split; [by intros ->|].
  split; [apply points_no_result|].
  split.
  - intros p -> H. unfold points_for_prediction.
    destruct (home_score m), (away_score m); try done.
    destruct H as [-> | ->]; [done|]. by destruct (pred_home p).
  - intros p hs as_ ph pa -> Hh Ha Hph Hpa.
    rewrite (points_both_present m p hs as_ ph pa) by done.
    rewrite !_outcome_sgn.
    destruct (Z.eqb_spec ph hs), (Z.eqb_spec pa as_); simpl;
      destruct (Z.eqb_spec (ph - pa) (hs - as_));
      destruct (Z.eqb_spec (Z.sgn (ph - pa)) (Z.sgn (hs - as_)));
      repeat split; intros; try lia.
Qed.

(** C8. The match scorer only takes the values 0, 2, 3 and 4, and exchanging
    home and away on both the result and the prediction leaves the score
    unchanged; in particular score((ph,pa),(ah,aa)) = score((pa,ph),(aa,ah)). *)
Theorem points_for_prediction_range_and_symmetry :
  (∀ m pred, points_for_prediction m pred ∈ [0; 2; 3; 4]) ∧
  (∀ m pred,
     points_for_prediction (swap_match m) (swap_pred <$> pred) =
     points_for_prediction m pred) ∧
  (∀ ph pa ah aa,
     points_for_prediction (played ah aa) (Some (tip ph pa)) =
     points_for_prediction (played aa ah) (Some (tip pa ph))).
Proof.
  assert (Hsw : ∀ m pred,
     points_for_prediction (swap_match m) (swap_pred <$> pred) =
     points_for_prediction m pred).
  { intros m [p|]; [|done]. unfold points_for_prediction; simpl.
    destruct (home_score m) as [hs|], (away_score m) as [as_|]; try done.
    destruct (pred_home p) as [ph|], (pred_away p) as [pa|]; try done.
    rewrite (_outcome_swap ph pa), (_outcome_swap hs as_).
    destruct (Z.eqb_spec ph hs), (Z.eqb_spec pa as_),
      (Z.eqb_spec pa as_), (Z.eqb_spec ph hs); simpl; try lia;
    destruct (Z.eqb_spec (pa - ph) (as_ - hs)), (Z.eqb_spec (ph - pa) (hs - as_));
      try lia;
    destruct (Z.eqb_spec (- _outcome ph pa) (- _outcome hs as_)),
      (Z.eqb_spec (_outcome ph pa) (_outcome hs as_)); lia. }
  split; [apply points_range|]. split; [exact Hsw|].
  intros ph pa ah aa. exact (eq_sym (Hsw (played ah aa) (Some (tip ph pa)))).
Qed.

Lemma points_for_prediction_spec_witness :
  home_score (played 2 1) = Some 2 ∧ away_score (played 2 1) = Some 1 ∧
  pred_home (tip 3 2) = Some 3 ∧ pred_away (tip 3 2) = Some 2 ∧
  points_for_prediction (played 2 1) (Some (tip 3 2)) = 3.
Proof.
  repeat (split; [reflexivity|]).
  destruct (points_for_prediction_spec (played 2 1) (Some (tip 3 2)))
    as (_ & _ & _ & H).
  destruct (H (tip 3 2) 2 1 3 2 eq_refl eq_refl eq_refl eq_refl eq_refl)
    as (_ & H3 & _).
  apply H3. split; [reflexivity|]. intros [E _]. discriminate E.
Defined.

(** Result 2:1 against four predictions.  A 1:0 tip has the goal
    difference of the result and so scores 3; a 3:1 tip only has its
    tendency and scores 2. *)
Example score_scenario :
  points_for_prediction (played 2 1) (Some (tip 2 1)) = 4 ∧
  points_for_prediction (played 2 1) (Some (tip 3 2)) = 3 ∧
  points_for_prediction (played 2 1) (Some (tip 1 0)) = 3 ∧
  points_for_prediction (played 2 1) (Some (tip 3 1)) = 2 ∧
  points_for_prediction (played 2 1) (Some (tip 1 2)) = 0.
Proof. vm_compute. repeat split; reflexivity. Qed.

(** ** The bonus scorer *)

Example norm_example : _norm "  Alpha FC " = "alpha fc".
Proof. reflexivity. Qed.

Example split_example :
  split_comma "Alpha, Beta,,Gamma" = ["Alpha"; " Beta"; EmptyString; "Gamma"].
Proof. reflexivity. Qed.

Example split_empty : split_comma EmptyString = [EmptyString].
Proof. reflexivity. Qed.

Example bonus_alpha_beta :
  bonus_points_for_user (with_relegated "Alpha, Beta")
    [pick "relegation1" "alpha"; pick "relegation2" "Beta"] = 10.
Proof. vm_compute. reflexivity. Qed.

Local Ltac pair_eq := apply pair_equal_spec; split.

Section BonusFacts.

Variable t : Tournament.

Local Abbreviation val bp := (_norm (value bp)).

Lemma truthy_eqb_r a b : truthy a = true -> String.eqb a b = true -> truthy b = true.
Proof. intros Ha Hab. apply String.eqb_eq in Hab. by subst. Qed.

Lemma single_not_relegation bp :
  correct_single t bp = true -> is_relegation_type (bonus_type bp) = false.
Proof.
  unfold correct_single, is_relegation_type.
  intros H. apply andb_true_iff in H as [_ H].
  repeat (apply orb_true_iff in H as [H|H]);
    apply andb_true_iff in H as [H _]; apply String.eqb_eq in H; by rewrite H.
Qed.

(** The loop body, read off by the kind of pick it is looking at. *)
Lemma bonus_step_cases pts counted bp :
  bonus_step t (pts, counted) bp =
    if correct_single t bp then (pts + 5, counted)
    else if correct_relegation t bp then
      if bool_decide (val bp ∈ counted) then (pts, counted)
      else (pts + 5, {[val bp]} ∪ counted)
    else (pts, counted).
Proof.
  unfold bonus_step, correct_single, correct_relegation.
  destruct (truthy (val bp)) eqn:Hv; simpl; [|by rewrite andb_false_r].
  assert (Hne : ∀ r, String.eqb (val bp) r = true -> truthy r = true)
    by (intros r; by apply truthy_eqb_r).
  assert (Hset : bool_decide (val bp ∈ relegated_set t) = true ->
                 bool_decide (relegated_set t = ∅) = false).
  { intros H%bool_decide_eq_true. apply bool_decide_eq_false. set_solver. }
  destruct (String.eqb_spec (bonus_type bp) "herbstmeister") as [E|E].
  { rewrite E; simpl.
    destruct (String.eqb (val bp) (real_herbst t)) eqn:Hr;
      [by rewrite (Hne _ Hr)| by rewrite andb_false_r]. }
  destruct (String.eqb_spec (bonus_type bp) "meister") as [E1|E1].
  { rewrite E1; simpl.
    destruct (String.eqb (val bp) (real_meister t)) eqn:Hr;
      [by rewrite (Hne _ Hr)| by rewrite andb_false_r]. }
  destruct (String.eqb_spec (bonus_type bp) "trainer_first") as [E2|E2].
  { rewrite E2; simpl.
    destruct (String.eqb (val bp) (real_trainer t)) eqn:Hr;
      [by rewrite (Hne _ Hr)| by rewrite andb_false_r]. }
  destruct (String.eqb_spec (bonus_type bp) "topscorer") as [E3|E3].
  { rewrite E3; simpl.
    destruct (String.eqb (val bp) (real_topscorer t)) eqn:Hr;
      [by rewrite (Hne _ Hr)| by rewrite andb_false_r]. }
  simpl.
  destruct (is_relegation_type (bonus_type bp)); simpl; [|done].
  destruct (bool_decide (val bp ∈ relegated_set t)) eqn:Hin.
  - rewrite (Hset eq_refl); simpl. by destruct (bool_decide (val bp ∈ counted)).
  - by rewrite andb_false_r.
Qed.

Lemma correct_relegation_values_cons bp l :
  correct_relegation_values t (bp :: l) =
    if correct_relegation t bp then {[val bp]} ∪ correct_relegation_values t l
    else correct_relegation_values t l.
Proof.
  unfold correct_relegation_values. rewrite filter_cons.
  destruct (correct_relegation t bp); by case_decide.
Qed.

Lemma count_single_cons bp l :
  Z.of_nat (length (filter (λ bp, correct_single t bp = true) (bp :: l))) =
    (if correct_single t bp then 1 else 0)
    + Z.of_nat (length (filter (λ bp, correct_single t bp = true) l)).
Proof.
  rewrite filter_cons. destruct (correct_single t bp); case_decide; try done;
    simpl length; lia.
Qed.

(** The state after the loop, from any starting state. *)
Lemma bonus_fold_closed l : ∀ pts counted,
  foldl (bonus_step t) (pts, counted) l =
    (pts + 5 * Z.of_nat (length (filter (λ bp, correct_single t bp = true) l))
         + 5 * Z.of_nat (size (correct_relegation_values t l ∖ counted)),
     counted ∪ correct_relegation_values t l).
Proof.
  induction l as [|bp l IH]; intros pts counted.
  - simpl. unfold correct_relegation_values; simpl.
    replace ((∅ : gset string) ∖ counted) with (∅ : gset string) by set_solver.
    rewrite size_empty. pair_eq; [lia | set_solver].
  - cbn [foldl]. rewrite bonus_step_cases, count_single_cons,
      correct_relegation_values_cons.
    destruct (correct_single t bp) eqn:Hs.
    + rewrite IH.
      assert (correct_relegation t bp = false) as ->.
      { unfold correct_relegation. by rewrite (single_not_relegation bp Hs). }
      pair_eq; [lia | done].
    + destruct (correct_relegation t bp) eqn:Hr; [|rewrite IH; pair_eq; [lia | done]].
      case_bool_decide as Hin; rewrite IH;
        generalize (correct_relegation_values t l); intros vs.
      * replace (({[val bp]} ∪ vs) ∖ counted) with (vs ∖ counted) by set_solver.
        pair_eq; [lia | set_solver].
      * replace (({[val bp]} ∪ vs) ∖ counted)
          with ({[val bp]} ∪ vs ∖ ({[val bp]} ∪ counted))
          by (apply set_eq; intros x; destruct (decide (x = val bp)); set_solver).
        rewrite (size_union (C:=gset string) {[val bp]}); [|set_solver].
        rewrite size_singleton.
        pair_eq; [lia | set_solver].
Qed.

Lemma bonus_points_closed l :
  bonus_points_for_user t l =
    5 * Z.of_nat (length (filter (λ bp, correct_single t bp = true) l))
    + 5 * Z.of_nat (size (correct_relegation_values t l)).
Proof.
  unfold bonus_points_for_user, bonus_init. rewrite bonus_fold_closed. simpl.
  replace (correct_relegation_values t l ∖ ∅) with (correct_relegation_values t l)
    by set_solver.
  lia.
Qed.

Lemma bonus_points_perm l l' :
  l ≡ₚ l' -> bonus_points_for_user t l = bonus_points_for_user t l'.
Proof.
  intros Hp. rewrite !bonus_points_closed. unfold correct_relegation_values.
  assert (H1 : filter (λ bp, correct_single t bp = true) l
               ≡ₚ filter (λ bp, correct_single t bp = true) l') by by rewrite Hp.
  assert (H2 : (λ bp, val bp) <$> filter (λ bp, correct_relegation t bp = true) l
               ≡ₚ (λ bp, val bp) <$> filter (λ bp, correct_relegation t bp = true) l')
    by by rewrite Hp.
  rewrite (Permutation_length H1).
  by rewrite (list_to_set_perm_L _ _ H2).
Qed.

Lemma bonus_step_counted_mono st bp v :
  v ∈ st.2 -> v ∈ (bonus_step t st bp).2.
Proof.
  destruct st as [pts counted]. rewrite bonus_step_cases. simpl.
  repeat case_match; simpl; set_solver.
Qed.

Lemma bonus_step_delta st bp :
  (bonus_step t st bp).1 - st.1 = 0 ∨ (bonus_step t st bp).1 - st.1 = 5.
Proof.
  destruct st as [pts counted]. rewrite bonus_step_cases.
  repeat case_match; simpl; lia.
Qed.

Lemma sum_Z_cons x l : sum_Z (x :: l) = x + sum_Z l.
Proof. reflexivity. Qed.

(** A step on a relegation slot pays only for a value not yet counted, and
    counts it. *)
Lemma relegation_step st bp :
  is_relegation_type (bonus_type bp) = true ->
  (bonus_step t st bp).1 - st.1 = 0
  ∨ ((bonus_step t st bp).1 - st.1 = 5
     ∧ (val bp ∉ st.2) ∧ (val bp ∈ (bonus_step t st bp).2)).
Proof.
  intros Hty. destruct st as [pts counted]. rewrite bonus_step_cases.
  destruct (correct_single t bp) eqn:Hs.
  { by rewrite (single_not_relegation bp Hs) in Hty. }
  destruct (correct_relegation t bp); [|left; simpl; lia].
  case_bool_decide as Hin; [left; simpl; lia|].
  right. simpl. split; [lia|]. split; [done|set_solver].
Qed.

(** Credit to one relegation value [v], from any starting state: at most
    one step ever pays, and none does once [v] is in the counted set. *)
Lemma relegation_credit_from l : ∀ st v,
  let cr := sum_Z (snd <$>
    filter (λ e, is_relegation_type (bonus_type e.1)
                 && String.eqb (val e.1) v = true) (bonus_trace t st l)) in
  (cr = 0 ∨ cr = 5) ∧ (v ∈ st.2 -> cr = 0).
Proof.
  induction l as [|bp l IH]; intros st v; cbn zeta.
  - split; [by left|done].
  - cbn [bonus_trace]. rewrite filter_cons.
    destruct (IH (bonus_step t st bp) v) as [IH1 IH2].
    pose proof (bonus_step_counted_mono st bp v) as Hmono.
    case_decide as Hsel; [|by auto].
    cbn [fst] in Hsel. apply andb_true_iff in Hsel as [Hty Hval].
    apply String.eqb_eq in Hval. subst v.
    rewrite fmap_cons, sum_Z_cons. cbn [snd].
    destruct (relegation_step st bp Hty) as [-> | (-> & Hnot & Hnow)].
    + split; [lia|]. intros Hv. rewrite IH2; [lia|by auto].
    + rewrite (IH2 Hnow). split; [by right|done].
Qed.

Lemma bonus_trace_total l : ∀ st,
  (foldl (bonus_step t) st l).1 = st.1 + sum_Z (snd <$> bonus_trace t st l).
Proof.
  induction l as [|bp l IH]; intros st.
  - cbn. lia.
  - cbn [bonus_trace foldl]. rewrite IH, fmap_cons, sum_Z_cons. cbn [snd]. lia.
Qed.

End BonusFacts.

(** C2. Within one scoring call no normalized value is credited twice across
    the two relegation slots: the points the loop adds on relegation picks
    with normalized value [v] are 0 or 5 in all, and the result of the call
    is the sum of what its iterations added.  With picks relegation1 = X and
    relegation2 = X and relegated teams X and Y the call returns 5, not 10. *)
Theorem relegation_value_credited_once :
  (∀ t preds v,
     relegation_credit t preds v = 0 ∨ relegation_credit t preds v = 5) ∧
  (∀ t preds,
     bonus_points_for_user t preds = sum_Z (snd <$> bonus_trace t bonus_init preds)) ∧
  bonus_points_for_user (with_relegated "X,Y")
    [pick "relegation1" "X"; pick "relegation2" "X"] = 5 ∧
  relegation_credit (with_relegated "X,Y")
    [pick "relegation1" "X"; pick "relegation2" "X"] "x" = 5.
Proof.
  split; [|split; [|split]].
  - intros t preds v. exact (proj1 (relegation_credit_from t preds bonus_init v)).
  - intros t preds. unfold bonus_points_for_user.
    rewrite bonus_trace_total. simpl. lia.
  - vm_compute. reflexivity.
  - vm_compute. reflexivity.
Qed.

(** C9. The bonus score does not depend on the order of the predictions: it
    is 5 times the number of correct picks in the four single-valued
    categories plus 5 times the number of distinct normalized values among
    the correct relegation picks, hence equal on any two lists that are
    permutations of each other. *)
Theorem bonus_points_order_independent (t : Tournament) (preds preds' : list BonusPrediction) :
  bonus_points_for_user t preds =
    5 * Z.of_nat (length (filter (λ bp, correct_single t bp = true) preds))
    + 5 * Z.of_nat (size (correct_relegation_values t preds)) ∧
  (preds ≡ₚ preds' ->
   bonus_points_for_user t preds = bonus_points_for_user t preds').
Proof.
  split; [apply bonus_points_closed | apply bonus_points_perm].
Qed.

Lemma bonus_points_order_independent_witness :
  picks_a ≡ₚ picks_b ∧
  bonus_points_for_user liga picks_a = bonus_points_for_user liga picks_b.
Proof.
  split; [apply perm_swap|].
  apply (proj2 (bonus_points_order_independent liga picks_a picks_b)).
  apply perm_swap.
Defined.

Example bonus_picks_a : bonus_points_for_user liga picks_a = 10.
Proof. vm_compute. reflexivity. Qed.

(** ** The window of matchdays *)

Example sample_matchdays : matchdays (sample_request 200) = [3; 4; 5].
Proof. reflexivity. Qed.

Example long_season_window :
  count long_season = 15 ∧ from_idx long_season = 5 ∧
  shown_matchdays long_season = seqZ 6 15.
Proof. vm_compute. repeat split; reflexivity. Qed.

Lemma clamp_count_bounds c : 4 ≤ clamp_count c ≤ 15.
Proof. unfold clamp_count. lia. Qed.

Lemma clamp_from_bounds n count f :
  0 < n -> 0 < count -> 0 ≤ clamp_from n count f < n.
Proof.
  intros Hn Hc. unfold clamp_from. cbn zeta.
  destruct (Z.ltb_spec f 0); [destruct (Z.geb_spec 0 n)|destruct (Z.geb_spec f n)]; lia.
Qed.

(** C7. Paging parameters are clamped, never refused: the column count is
    brought into 4..15 (below 4 it becomes 4, above 15 it becomes 15), a
    negative offset becomes 0, and an offset at or beyond the number [n] of
    matchdays becomes max(0, n - count), the start of the last full window;
    the offset used lies inside the list and the window shown is not empty. *)
Theorem window_clamped (rq : Request) :
  matchdays rq ≠ [] ->
  let n := Z.of_nat (length (matchdays rq)) in
  let c := default 8 (req_count rq) in
  let f := default 0 (req_from rq) in
  (4 ≤ count rq ≤ 15) ∧
  (c < 4 -> count rq = 4) ∧
  (15 < c -> count rq = 15) ∧
  (4 ≤ c ≤ 15 -> count rq = c) ∧
  (f < 0 -> from_idx rq = 0) ∧
  (n ≤ f -> from_idx rq = Z.max 0 (n - count rq)) ∧
  (0 ≤ f < n -> from_idx rq = f) ∧
  (0 ≤ from_idx rq < n) ∧
  shown_matchdays rq =
    take (Z.to_nat (count rq)) (drop (Z.to_nat (from_idx rq)) (matchdays rq)) ∧
  shown_matchdays rq ≠ [].
Proof.
  intros Hne n c f.
  assert (Hn : 0 < n).
  { subst n. destruct (matchdays rq); [done|]. simpl length. lia. }
  assert (Hcount : count rq = clamp_count c) by reflexivity.
  pose proof (clamp_count_bounds c) as Hc. rewrite <- Hcount in Hc.
  assert (Hf : 0 ≤ clamp_from n (count rq) f < n) by (apply clamp_from_bounds; lia).
  change (clamp_from n (count rq) f) with (from_idx rq) in Hf.
  assert (Hfrom : from_idx rq = clamp_from n (count rq) f) by reflexivity.
  split; [done|].
  split; [intros; rewrite Hcount; unfold clamp_count; lia|].
  split; [intros; rewrite Hcount; unfold clamp_count; lia|].
  split; [intros; rewrite Hcount; unfold clamp_count; lia|].
  split.
  { intros Hneg. rewrite Hfrom. unfold clamp_from. cbn zeta.
    destruct (Z.ltb_spec f 0); [|lia]. destruct (Z.geb_spec 0 n); lia. }
  split.
  { intros Hge. rewrite Hfrom. unfold clamp_from. cbn zeta.
    destruct (Z.ltb_spec f 0); [lia|]. destruct (Z.geb_spec f n); lia. }
  split.
  { intros Hin. rewrite Hfrom. unfold clamp_from. cbn zeta.
    destruct (Z.ltb_spec f 0); [lia|]. destruct (Z.geb_spec f n); lia. }
  split; [done|]. split; [done|].
  unfold shown_matchdays. intros Hnil.
  apply (f_equal length) in Hnil. rewrite length_take, length_drop in Hnil.
  simpl in Hnil. lia.
Qed.

Lemma window_clamped_witness :
  matchdays long_season ≠ [] ∧
  count long_season = 15 ∧
  from_idx long_season = Z.max 0 (20 - count long_season).
Proof.
  assert (H : matchdays long_season ≠ []) by (vm_compute; discriminate).
  split; [exact H|].
  destruct (window_clamped long_season H) as (_ & _ & Hc & _ & _ & Hf & _).
  split; [apply Hc; vm_compute; reflexivity|].
  apply Hf. vm_compute. discriminate.
Defined.

(** ** The ranking engine *)

Example rank_example :
  rank_entries [(7, "c", 3); (10, "b", 2); (5, "e", 5); (10, "a", 1); (5, "d", 4)]
  = [(1, 1); (2, 1); (3, 3); (4, 4); (5, 4)].
Proof. reflexivity. Qed.

Lemma key_leb_ranks_before x y : key_leb x y = true <-> ranks_before x y.
Proof.
  unfold key_leb, ranks_before.
  rewrite orb_true_iff, andb_true_iff, Z.ltb_lt, Z.eqb_eq. split; intros [H|[H1 H2]].
  - left; lia.
  - right; split; [lia|done].
  - left; lia.
  - right; split; [lia|done].
Qed.

Lemma string_leb_false_flip a b : String.leb a b = false -> String.leb b a = true.
Proof. intros H. destruct (String.leb_total a b) as [H'|H']; congruence. Qed.

Lemma key_leb_false_flip x y : key_leb x y = false -> ranks_before y x.
Proof.
  unfold key_leb, ranks_before. intros H.
  apply orb_false_iff in H as [H1 H2]. apply Z.ltb_ge in H1.
  apply andb_false_iff in H2 as [H2|H2].
  - apply Z.eqb_neq in H2. left; lia.
  - destruct (decide (entry_pts x = entry_pts y)) as [E|E]; [|left; lia].
    right. split; [done|]. by apply string_leb_false_flip.
Qed.

Lemma insert_sorted_perm x l : insert_sorted x l ≡ₚ x :: l.
Proof.
  induction l as [|y l IH]; simpl; [done|].
  destruct (key_leb x y); [done|]. rewrite IH. apply perm_swap.
Qed.

Lemma sort_entries_perm l : sort_entries l ≡ₚ l.
Proof.
  induction l as [|x l IH]; simpl; [done|].
  rewrite insert_sorted_perm. by rewrite IH.
Qed.

Lemma insert_sorted_hd x y l :
  ranks_before y x -> HdRel ranks_before y l -> HdRel ranks_before y (insert_sorted x l).
Proof.
  intros Hyx Hl. destruct l as [|z l]; simpl; [by constructor|].
  destruct (key_leb x z); constructor; [done|]. by inversion Hl.
Qed.

Lemma insert_sorted_sorted x l :
  Sorted ranks_before l -> Sorted ranks_before (insert_sorted x l).
Proof.
  induction 1 as [|y l Hs IH Hhd]; simpl; [by repeat constructor|].
  destruct (key_leb x y) eqn:E.
  - constructor; [by constructor|]. constructor. by apply key_leb_ranks_before.
  - constructor; [done|]. apply insert_sorted_hd; [|done]. by apply key_leb_false_flip.
Qed.

Lemma sort_entries_sorted l : Sorted ranks_before (sort_entries l).
Proof.
  induction l as [|x l IH]; simpl; [constructor|]. by apply insert_sorted_sorted.
Qed.

Lemma string_leb_trans a b c :
  String.leb a b = true -> String.leb b c = true -> String.leb a c = true.
Proof.
  intros H1 H2. apply Is_true_true.
  change (String.le a c). transitivity b; apply Is_true_true; done.
Qed.

Global Instance ranks_before_trans : Transitive ranks_before.
Proof.
  intros x y z [H1|[H1 H1']] [H2|[H2 H2']].
  - left; lia.
  - left; lia.
  - left; lia.
  - right. split; [lia|]. by eapply string_leb_trans.
Qed.

Lemma sort_entries_strongly_sorted l : StronglySorted ranks_before (sort_entries l).
Proof. apply Sorted_StronglySorted; [apply _|]. apply sort_entries_sorted. Qed.

Lemma StronglySorted_lookup {A} (R : relation A) l i j x y :
  StronglySorted R l -> (i < j)%nat -> l !! i = Some x -> l !! j = Some y -> R x y.
Proof.
  intros Hs. revert i j. induction Hs as [|a l Hs IH Hall]; intros i j Hij Hi Hj; [done|].
  destruct j as [|j]; [lia|]. destruct i as [|i]; simpl in *.
  - injection Hi as <-. rewrite Forall_forall in Hall. apply Hall.
    by eapply list_elem_of_lookup_2.
  - apply (IH i j); [lia|done..].
Qed.

Lemma ranks_before_pts x y : ranks_before x y -> entry_pts y ≤ entry_pts x.
Proof. intros [H|[H _]]; lia. Qed.

Lemma count_above_cons pts e l :
  count_above pts (e :: l) = (if decide (pts < entry_pts e) then 1 else 0) + count_above pts l.
Proof.
  unfold count_above. rewrite filter_cons. case_decide; simpl length; lia.
Qed.

Lemma count_above_none pts l :
  Forall (λ y, entry_pts y ≤ pts) l -> count_above pts l = 0.
Proof.
  induction 1 as [|y l Hy _ IH]; [done|].
  rewrite count_above_cons, IH. case_decide; lia.
Qed.

Lemma count_above_perm pts l l' : l ≡ₚ l' -> count_above pts l = count_above pts l'.
Proof. intros Hp. unfold count_above. by rewrite Hp. Qed.

Lemma rank_loop_uids l : ∀ idx rank last,
  (rank_loop idx rank last l).*1 = entry_uid <$> l.
Proof.
  induction l as [|e l IH]; intros idx rank last; [done|].
  cbn [rank_loop]. cbn zeta. rewrite !fmap_cons, IH. done.
Qed.

(** The rank the loop assigns at each position of a list sorted by points:
    the rank carried in when the points equal [last_pts], and otherwise
    [idx] plus the number of entries of the list with more points. *)
Lemma rank_loop_spec l : ∀ idx rank last,
  StronglySorted ranks_before l ->
  (∀ lp, last = Some lp -> Forall (λ y, entry_pts y ≤ lp) l) ->
  ∀ i x, l !! i = Some x ->
    (rank_loop idx rank last l).*2 !! i =
      Some (if decide (last = Some (entry_pts x)) then rank
            else idx + count_above (entry_pts x) l).
Proof.
  induction l as [|e l IH]; intros idx rank last Hs Hlast i x Hi; [done|].
  apply StronglySorted_inv in Hs as [Hs Hall].
  assert (Hle : Forall (λ y, entry_pts y ≤ entry_pts e) l).
  { eapply Forall_impl; [exact Hall|]. intros y Hy. by apply ranks_before_pts. }
  cbn [rank_loop]. cbn zeta. rewrite fmap_cons. cbn [snd].
  set (fresh := match last with
                | Some lp => negb (entry_pts e =? lp)
                | None => true
                end).
  assert (Hfresh : fresh = true <-> last ≠ Some (entry_pts e)).
  { subst fresh. destruct last as [lp|]; [|done].
    rewrite negb_true_iff, Z.eqb_neq. split; congruence. }
  assert (Hlast' : (if fresh then Some (entry_pts e) else last) = Some (entry_pts e)).
  { destruct fresh eqn:E; [done|].
    destruct (decide (last = Some (entry_pts e))) as [|Hne]; [done|].
    apply Hfresh in Hne. congruence. }
  rewrite Hlast'.
  destruct i as [|i]; simpl in Hi.
  - injection Hi as <-. simpl. f_equal.
    rewrite count_above_cons, (count_above_none _ _ Hle).
    destruct (decide (last = Some (entry_pts e))) as [E|E].
    + destruct fresh; [|done]. by apply Hfresh in E.
    + apply Hfresh in E. rewrite E. case_decide; lia.
  - assert (Hnext : ∀ lp, Some (entry_pts e) = Some lp ->
                          Forall (λ y, entry_pts y ≤ lp) l) by (by intros lp [= <-]).
    etrans; [exact (IH (idx + 1) (if fresh then idx else rank) _ Hs Hnext i x Hi)|].
    f_equal. rewrite count_above_cons.
    assert (Hx : entry_pts x ≤ entry_pts e).
    { rewrite Forall_forall in Hle. apply Hle. by eapply list_elem_of_lookup_2. }
    destruct (decide (Some (entry_pts e) = Some (entry_pts x))) as [E|E].
    + injection E as E. rewrite <- E.
      rewrite (count_above_none _ _ Hle).
      destruct (decide (last = Some (entry_pts e))) as [E'|E'].
      * destruct fresh; [|done]. by apply Hfresh in E'.
      * apply Hfresh in E'. rewrite E'. case_decide; lia.
    + assert (entry_pts e ≠ entry_pts x) by congruence.
      assert (entry_pts x < entry_pts e) by lia.
      destruct (decide (last = Some (entry_pts x))) as [E'|E'].
      * specialize (Hlast _ E'). apply Forall_cons in Hlast as [Hlast _]. lia.
      * case_decide; lia.
Qed.

(** Ranks of a whole ranking: one more than the number of entries with
    strictly more points. *)
Lemma rank_entries_lookup l i x :
  sort_entries l !! i = Some x ->
  (rank_entries l).*2 !! i = Some (1 + count_above (entry_pts x) l).
Proof.
  intros Hi. unfold rank_entries.
  rewrite (rank_loop_spec _ 1 0 None (sort_entries_strongly_sorted l)
             ltac:(done) i x Hi).
  rewrite decide_False by done.
  by rewrite (count_above_perm _ _ _ (sort_entries_perm l)).
Qed.

Lemma count_above_app pts l1 l2 :
  count_above pts (l1 ++ l2) = count_above pts l1 + count_above pts l2.
Proof. unfold count_above. rewrite filter_app, length_app. lia. Qed.

Lemma count_above_all pts l :
  Forall (λ y, pts < entry_pts y) l -> count_above pts l = Z.of_nat (length l).
Proof.
  induction 1 as [|y l Hy _ IH]; [done|].
  rewrite count_above_cons, IH. case_decide; simpl length; lia.
Qed.

(** Where the points change in the sorted list, the rank is the position. *)
Lemma count_above_at_change l i x :
  StronglySorted ranks_before l ->
  l !! i = Some x ->
  (i = 0%nat ∨ ∃ w, l !! (i - 1)%nat = Some w ∧ entry_pts w ≠ entry_pts x) ->
  count_above (entry_pts x) l = Z.of_nat i.
Proof.
  intros Hs Hi Hprev.
  rewrite <- (take_drop i l) at 1. rewrite count_above_app.
  assert (Hlen : (i < length l)%nat) by (by eapply lookup_lt_Some).
  rewrite count_above_all, count_above_none.
  - rewrite length_take. lia.
  - apply Forall_forall. intros y Hy.
    apply list_elem_of_lookup in Hy as [k Hk]. rewrite lookup_drop in Hk.
    destruct k as [|k].
    + rewrite Nat.add_0_r in Hk. assert (y = x) as -> by congruence. lia.
    + apply ranks_before_pts.
      apply (StronglySorted_lookup ranks_before l i (i + S k)); [done|lia|done..].
  - apply Forall_forall. intros y Hy.
    apply list_elem_of_lookup in Hy as [k Hk].
    apply lookup_take_Some in Hk as [Hk Hki].
    destruct Hprev as [->|(w & Hw & Hne)]; [lia|].
    assert (Hwx : entry_pts x ≤ entry_pts w).
    { apply ranks_before_pts.
      apply (StronglySorted_lookup ranks_before l (i - 1) i); [done|lia|done..]. }
    destruct (decide (k = (i - 1)%nat)) as [->|Hk'].
    + assert (y = w) as -> by congruence. lia.
    + assert (entry_pts w ≤ entry_pts y); [|lia].
      apply ranks_before_pts.
      apply (StronglySorted_lookup ranks_before l k (i - 1)); [done|lia|done..].
Qed.

(** C3. The ranking engine sorts the entries by points, highest first, and
    among equal points by name ascending (the view passes the lower-cased
    username); it then assigns competition ranks in that order: the rank of
    an entry is one more than the number of entries with strictly more
    points, so entries with equal points share a rank and an entry whose
    points differ from its predecessor's gets its 1-based position.  Points
    10, 10, 7, 5, 5 give ranks 1, 1, 3, 4, 4. *)
Theorem rank_entries_competition (l : list entry) :
  sort_entries l ≡ₚ l ∧
  (∀ i j x y, (i < j)%nat ->
     sort_entries l !! i = Some x -> sort_entries l !! j = Some y ->
     ranks_before x y) ∧
  (rank_entries l).*1 = entry_uid <$> sort_entries l ∧
  (∀ i x, sort_entries l !! i = Some x ->
     (rank_entries l).*2 !! i = Some (1 + count_above (entry_pts x) l)) ∧
  (∀ i j x y r s,
     sort_entries l !! i = Some x -> sort_entries l !! j = Some y ->
     (rank_entries l).*2 !! i = Some r -> (rank_entries l).*2 !! j = Some s ->
     entry_pts x = entry_pts y -> r = s) ∧
  (∀ i x, sort_entries l !! i = Some x ->
     (i = 0%nat ∨ ∃ w, sort_entries l !! (i - 1)%nat = Some w
                       ∧ entry_pts w ≠ entry_pts x) ->
     (rank_entries l).*2 !! i = Some (Z.of_nat i + 1)) ∧
  (∀ rq shown md,
     entry_name <$> sortable rq shown md = (λ u, lower (username u)) <$> members rq) ∧
  (rank_entries [(10, "a", 1); (10, "b", 2); (7, "c", 3); (5, "d", 4); (5, "e", 5)]).*2
    = [1; 1; 3; 4; 4].
Proof.
  split; [apply sort_entries_perm|].
  split.
  { intros i j x y Hij Hi Hj.
    exact (StronglySorted_lookup _ _ i j x y (sort_entries_strongly_sorted l) Hij Hi Hj). }
  split; [apply rank_loop_uids|].
  split; [intros i x Hi; by apply rank_entries_lookup|].
  split.
  { intros i j x y r s Hi Hj Hr Hs Heq.
    rewrite (rank_entries_lookup l i x Hi) in Hr.
    rewrite (rank_entries_lookup l j y Hj) in Hs.
    rewrite Heq in Hr. congruence. }
  split.
  { intros i x Hi Hprev. rewrite (rank_entries_lookup l i x Hi). f_equal.
    rewrite (count_above_perm _ _ _ (symmetry (sort_entries_perm l))).
    rewrite (count_above_at_change _ i x (sort_entries_strongly_sorted l) Hi Hprev). lia. }
  split; [|reflexivity].
  intros rq shown md. unfold sortable. rewrite <- list_fmap_compose. done.
Qed.

Lemma rank_entries_competition_witness :
  sort_entries sample_entries !! 2%nat = Some (7, "c", 3) ∧
  (rank_entries sample_entries).*2 !! 2%nat = Some 3.
Proof.
  split; [reflexivity|].
  destruct (rank_entries_competition sample_entries) as (_ & _ & _ & _ & _ & H & _).
  apply (H 2%nat (7, "c", 3)); [reflexivity|].
  right. exists (10, "b", 2). split; [reflexivity|]. vm_compute. discriminate.
Defined.

(** ** Dictionaries filled by loops *)

Section DictLoops.

Context {A : Type}.

Lemma append_at_lookup (k k' : Z) (x : A) d :
  default [] (append_at k x d !! k') =
    default [] (d !! k') ++ (if decide (k = k') then [x] else []).
Proof.
  unfold append_at. destruct (decide (k = k')) as [->|Hne].
  - by rewrite lookup_insert_eq.
  - rewrite lookup_insert_ne by done. by rewrite app_nil_r.
Qed.

(** Grouping rows under a key by appending to the list stored there. *)
Lemma group_by_lookup (key : A -> option Z) (l : list A) : ∀ d k,
  default [] (foldl (λ acc x, match key x with
                              | Some k => append_at k x acc
                              | None => acc
                              end) d l !! k)
  = default [] (d !! k) ++ filter (λ x, key x = Some k) l.
Proof.
  induction l as [|x l IH]; intros d k; cbn [foldl].
  - by rewrite filter_nil, app_nil_r.
  - rewrite IH, filter_cons. destruct (key x) as [kx|] eqn:Hk.
    + rewrite append_at_lookup. destruct (decide (kx = k)) as [->|Hne].
      * rewrite decide_True by done. by rewrite <- app_assoc.
      * rewrite decide_False by congruence. by rewrite app_nil_r.
    + by rewrite decide_False by done.
Qed.

(** A dict comprehension [{k: v for k in ks}] and a loop [d[k] = f(k)]. *)
Lemma fill_lookup {V} (f : Z -> V) (ks : list Z) : ∀ (d : gmap Z V) k,
  foldl (λ acc k, <[k := f k]> acc) d ks !! k =
    if decide (k ∈ ks) then Some (f k) else d !! k.
Proof.
  induction ks as [|k0 ks IH]; intros d k; cbn [foldl].
  - rewrite decide_False; [done|]. apply not_elem_of_nil.
  - rewrite IH. destruct (decide (k ∈ ks)) as [Hin|Hin].
    + rewrite decide_True; [done|]. by apply elem_of_cons; right.
    + destruct (decide (k = k0)) as [->|Hne].
      * rewrite lookup_insert_eq. rewrite decide_True; [done|]. by apply elem_of_cons; left.
      * rewrite lookup_insert_ne by done. rewrite decide_False; [done|].
        rewrite elem_of_cons. tauto.
Qed.

End DictLoops.

(** ** Points per matchday *)

Lemma has_result_false m :
  has_result m = false -> home_score m = None ∨ away_score m = None.
Proof. unfold has_result. destruct (home_score m), (away_score m); auto; done. Qed.

Lemma points_without_result m pred :
  has_result m = false -> points_for_prediction m pred = 0.
Proof. intros H. apply points_no_result. by apply has_result_false. Qed.

Section MatchdayFacts.

Variable rq : Request.
Variable shown : list Z.

Lemma matches_by_md_lookup md :
  default [] (matches_by_md rq shown !! md) =
    filter (λ m, matchday m = Some md) (matches rq shown).
Proof.
  unfold matches_by_md.
  rewrite (group_by_lookup matchday (matches rq shown)).
  rewrite (fill_lookup (λ _, []) shown ∅ md).
  case_decide; [done|]. by rewrite lookup_empty.
Qed.

(** Inside the window, the list of a matchday holds all its matches. *)
Lemma matches_by_md_shown md :
  md ∈ shown ->
  default [] (matches_by_md rq shown !! md) = matches_of_md rq md.
Proof.
  intros Hin. rewrite matches_by_md_lookup.
  unfold matches, matches_of_md, tournament_matches.
  rewrite !list_filter_filter. apply list_filter_iff.
  intros m. unfold matchday_in. split.
  - intros [Hmd [Ht _]]. done.
  - intros [Hmd Ht]. split; [done|]. split; [done|].
    rewrite Hmd. by apply bool_decide_eq_true.
Qed.

(** The scoring loop over the matches of one matchday. *)
Lemma md_loop_closed (g : Match -> Z) (ms : list Match) : ∀ scored_any total,
  foldl (λ '(scored_any, total) m,
           if negb (has_result m) then (scored_any, total)
           else (true, total + g m))
        (scored_any, total) ms
  = (scored_any || existsb has_result ms,
     total + sum_Z (g <$> filter (λ m, has_result m = true) ms)).
Proof.
  induction ms as [|m ms IH]; intros scored_any total; cbn [foldl].
  - simpl. rewrite orb_false_r. f_equal. unfold sum_Z; simpl; lia.
  - rewrite filter_cons. destruct (has_result m) eqn:Hm; cbn [negb existsb].
    + rewrite IH, Hm. rewrite decide_True by done.
      rewrite fmap_cons, sum_Z_cons. rewrite orb_true_r. simpl. f_equal. lia.
    + rewrite IH, Hm. by rewrite decide_False by done.
Qed.

Lemma sum_scored_all (g : Match -> Z) (ms : list Match) :
  (∀ m, has_result m = false -> g m = 0) ->
  sum_Z (g <$> filter (λ m, has_result m = true) ms) = sum_Z (g <$> ms).
Proof.
  intros Hg. induction ms as [|m ms IH]; [done|].
  rewrite filter_cons, fmap_cons, sum_Z_cons. destruct (has_result m) eqn:Hm.
  - rewrite decide_True by done. rewrite fmap_cons, sum_Z_cons. lia.
  - rewrite decide_False by done. rewrite (Hg m Hm). lia.
Qed.

Lemma md_cell_closed uid md :
  md_cell rq shown uid md =
    let ms := default [] (matches_by_md rq shown !! md) in
    if existsb has_result ms then Some (scored rq shown uid ms) else None.
Proof.
  unfold md_cell. cbn zeta.
  destruct (default [] (matches_by_md rq shown !! md)) as [|m ms] eqn:Hms; [done|].
  rewrite (md_loop_closed
             (λ m, points_for_prediction m (pred_map rq shown !! (uid, match_id m)))).
  rewrite orb_false_l.
  destruct (existsb has_result (m :: ms)); [|done].
  f_equal. rewrite sum_scored_all; [unfold scored; lia|].
  intros m' Hm'. by apply points_without_result.
Qed.

End MatchdayFacts.

Section MdPointsDict.

Variable rq : Request.
Variable shown : list Z.

(** The inner loop of one user only touches that user's row. *)
Lemma md_points_row_loop (u : User) (cols : list Z) :
  ∀ (acc : gmap Z (gmap Z (option Z))) k,
  foldl (λ acc md, alter (insert md (md_cell rq shown (user_id u) md)) (user_id u) acc)
        acc cols !! k
  = if decide (k = user_id u)
    then (λ row, foldl (λ d md, <[md := md_cell rq shown (user_id u) md]> d) row cols)
           <$> acc !! k
    else acc !! k.
Proof.
  induction cols as [|md cols IH]; intros acc k; cbn [foldl].
  - case_decide; [|done]. destruct (acc !! k); reflexivity.
  - rewrite IH. case_decide as Hk; [|by rewrite lookup_alter_ne]. subst k.
    rewrite lookup_alter_eq. destruct (acc !! user_id u); reflexivity.
Qed.

Lemma md_points_loop (us : list User) uid md :
  ∀ acc : gmap Z (gmap Z (option Z)),
  md ∈ shown -> is_Some (acc !! uid) ->
  uid ∈ user_id <$> us ∨ get2 acc uid md = md_cell rq shown uid md ->
  get2 (foldl (λ acc u,
                 foldl (λ acc md, alter (insert md (md_cell rq shown (user_id u) md))
                                        (user_id u) acc) acc shown)
              acc us) uid md
  = md_cell rq shown uid md.
Proof.
  intros acc Hmd. revert acc.
  induction us as [|u us IH]; intros acc Hsome Hor; cbn [foldl].
  - destruct Hor as [Hin|Hget]; [|done]. by apply elem_of_nil in Hin.
  - apply IH.
    + rewrite md_points_row_loop. case_decide; [|done].
      destruct Hsome as [row Hrow]. rewrite Hrow. by eexists.
    + destruct (decide (uid = user_id u)) as [->|Hne].
      * right. unfold get2. rewrite md_points_row_loop, decide_True by done.
        destruct Hsome as [row Hrow]. rewrite Hrow. simpl.
        rewrite (fill_lookup (λ md, md_cell rq shown (user_id u) md)).
        by rewrite decide_True by done.
      * destruct Hor as [Hin|Hget].
        -- left. rewrite fmap_cons, elem_of_cons in Hin. by destruct Hin.
        -- right. unfold get2 in *. rewrite md_points_row_loop.
           by rewrite decide_False by done.
Qed.

(** What the view reads back from [md_points[u.id][md]]. *)
Lemma md_points_lookup uid md :
  uid ∈ user_id <$> members rq -> md ∈ shown ->
  get2 (md_points rq shown) uid md = md_cell rq shown uid md.
Proof.
  intros Hu Hmd. unfold md_points. apply md_points_loop; [done| |by left].
  set (row := foldl (λ d md, <[md := None]> d) (∅ : gmap Z (option Z)) shown).
  assert (H : ∀ (us : list User) (acc : gmap Z (gmap Z (option Z))),
            uid ∈ user_id <$> us ∨ is_Some (acc !! uid) ->
            is_Some (foldl (λ acc u, <[user_id u := row]> acc) acc us !! uid)).
  { induction us as [|u us IH]; intros acc Hor; cbn [foldl].
    - destruct Hor as [Hin|Hs]; [by apply elem_of_nil in Hin|done].
    - apply IH. destruct (decide (uid = user_id u)) as [->|Hne].
      + right. rewrite lookup_insert_eq. by eexists.
      + destruct Hor as [Hin|Hs].
        * left. rewrite fmap_cons, elem_of_cons in Hin. by destruct Hin.
        * right. by rewrite lookup_insert_ne. }
  apply H. by left.
Qed.

End MdPointsDict.

Lemma md_points_value rq shown uid md :
  uid ∈ user_id <$> members rq -> md ∈ shown ->
  get2 (md_points rq shown) uid md =
    if existsb has_result (matches_of_md rq md)
    then Some (scored rq shown uid (matches_of_md rq md)) else None.
Proof.
  intros Hu Hmd.
  rewrite (md_points_lookup rq shown uid md Hu Hmd), md_cell_closed. cbn zeta.
  by rewrite (matches_by_md_shown rq shown md Hmd).
Qed.

(** C4. For a user of the group and a matchday of the shown window, the
    stored matchday aggregate is none when no match of the matchday has a
    result, whatever predictions exist, and otherwise it is a number: the sum
    of the match scorer over all matches of the matchday, where a match
    without result contributes 0. *)
Theorem md_points_aggregate (rq : Request) (uid md : Z) :
  uid ∈ user_id <$> members rq ->
  md ∈ shown_matchdays rq ->
  let shown := shown_matchdays rq in
  let ms := matches_of_md rq md in
  (existsb has_result ms = false -> get2 (md_points rq shown) uid md = None) ∧
  (existsb has_result ms = true ->
     get2 (md_points rq shown) uid md = Some (scored rq shown uid ms)) ∧
  (∀ m pred, has_result m = false -> points_for_prediction m pred = 0).
Proof.
  intros Hu Hmd shown ms.
  rewrite (md_points_value rq shown uid md Hu Hmd). fold ms.
  split; [by intros ->|]. split; [by intros ->|].
  intros m pred. apply points_without_result.
Qed.

Lemma md_points_aggregate_witness :
  1 ∈ user_id <$> members sample_after ∧
  3 ∈ shown_matchdays sample_after ∧
  existsb has_result (matches_of_md sample_after 3) = true ∧
  get2 (md_points sample_after shown_after) 1 3
    = Some (scored sample_after shown_after 1 (matches_of_md sample_after 3)).
Proof.
  assert (Hu : 1 ∈ user_id <$> members sample_after) by by_evaluation.
  assert (Hmd : 3 ∈ shown_matchdays sample_after) by by_evaluation.
  split; [exact Hu|]. split; [exact Hmd|]. split; [reflexivity|].
  apply (md_points_aggregate sample_after 1 3 Hu Hmd). reflexivity.
Defined.

(** Matchday 3 has one result out of two matches, matchday 5 has none. *)
Example sample_md_points :
  let mp := md_points sample_after shown_after in
  (get2 mp 1 3, get2 mp 2 3, get2 mp 3 3) = (Some 4, Some 3, Some 0) ∧
  (get2 mp 1 4, get2 mp 2 4, get2 mp 3 4) = (Some 3, Some 4, Some 0) ∧
  (get2 mp 1 5, get2 mp 2 5, get2 mp 3 5) = (None, None, None).
Proof. vm_compute. repeat split; reflexivity. Qed.

(** ** Matchdays of the tournament *)

Lemma insert_distinct_elem x y l : y ∈ insert_distinct x l <-> y = x ∨ y ∈ l.
Proof.
  induction l as [|z l IH]; simpl.
  - rewrite list_elem_of_singleton, elem_of_nil. tauto.
  - destruct (Z.ltb_spec x z); [by rewrite elem_of_cons|].
    destruct (Z.eqb_spec x z) as [->|Hne].
    + rewrite elem_of_cons. tauto.
    + rewrite !elem_of_cons, IH. tauto.
Qed.

Lemma insert_distinct_sorted x l :
  StronglySorted Z.lt l -> StronglySorted Z.lt (insert_distinct x l).
Proof.
  induction 1 as [|z l Hs IH Hall]; simpl; [by repeat constructor|].
  destruct (Z.ltb_spec x z) as [Hlt|Hge].
  - constructor; [by constructor|]. constructor; [done|].
    eapply Forall_impl; [exact Hall|]. intros; simpl in *; lia.
  - destruct (Z.eqb_spec x z) as [->|Hne]; [by constructor|].
    constructor; [done|]. apply Forall_forall. intros y Hy.
    apply insert_distinct_elem in Hy as [->|Hy]; [lia|].
    rewrite Forall_forall in Hall. by apply Hall.
Qed.

Lemma strictly_sorted_NoDup l : StronglySorted Z.lt l -> NoDup l.
Proof.
  induction 1 as [|z l Hs IH Hall]; constructor; [|done].
  intros Hin. rewrite Forall_forall in Hall. specialize (Hall z Hin). lia.
Qed.

Lemma matchdays_sorted rq : StronglySorted Z.lt (matchdays rq).
Proof.
  unfold matchdays. induction (omap matchday (tournament_matches rq)) as [|x l IH]; simpl.
  - constructor.
  - by apply insert_distinct_sorted.
Qed.

Lemma matchdays_NoDup rq : NoDup (matchdays rq).
Proof. apply strictly_sorted_NoDup, matchdays_sorted. Qed.

(** The matchdays are the values of the column on the tournament's matches. *)
Lemma elem_of_matchdays rq md :
  md ∈ matchdays rq <-> ∃ m, m ∈ tournament_matches rq ∧ matchday m = Some md.
Proof.
  unfold matchdays. rewrite <- list_elem_of_omap.
  induction (omap matchday (tournament_matches rq)) as [|x l IH]; simpl; [done|].
  rewrite insert_distinct_elem, elem_of_cons, IH. done.
Qed.

Lemma shown_matchdays_NoDup rq : NoDup (shown_matchdays rq).
Proof.
  unfold shown_matchdays.
  eapply sublist_NoDup; [|apply sublist_take].
  eapply sublist_NoDup; [|apply sublist_drop]. apply matchdays_NoDup.
Qed.

(** ** Ranks per matchday *)

Section RankDict.

Context {V : Type}.

(** A loop [d[k] = F(k, d[k])] over distinct keys. *)
Lemma alter_loop_lookup (F : Z -> V -> V) (ks : list Z) : ∀ (d : gmap Z V) k,
  NoDup ks ->
  foldl (λ acc k, alter (F k) k acc) d ks !! k =
    if decide (k ∈ ks) then F k <$> d !! k else d !! k.
Proof.
  induction ks as [|k0 ks IH]; intros d k Hnd; cbn [foldl].
  - rewrite decide_False; [done|]. apply not_elem_of_nil.
  - apply NoDup_cons in Hnd as [Hk0 Hnd]. rewrite IH by done.
    destruct (decide (k = k0)) as [->|Hne].
    + rewrite decide_False by done. rewrite lookup_alter_eq.
      rewrite decide_True; [done|]. by apply elem_of_cons; left.
    + rewrite lookup_alter_ne by done.
      destruct (decide (k ∈ ks)) as [Hin|Hin].
      * rewrite decide_True; [done|]. by apply elem_of_cons; right.
      * rewrite decide_False; [done|]. rewrite elem_of_cons. tauto.
Qed.

End RankDict.

(** The assignments [col[uid] = rank] of one ranking, read back at a key
    all of whose assignments carry the same rank. *)
Lemma assign_lookup (l : list (Z * Z)) : ∀ (d : gmap Z (option Z)) k v,
  (∀ v', (k, v') ∈ l -> v' = v) ->
  (∃ v', (k, v') ∈ l) ∨ d !! k = Some (Some v) ->
  foldl (λ col '(uid, rank), <[uid := Some rank]> col) d l !! k = Some (Some v).
Proof.
  induction l as [|[k0 v0] l IH]; intros d k v Hall Hor; cbn [foldl].
  - destruct Hor as [[v' Hin]|Hd]; [by apply elem_of_nil in Hin|done].
  - apply IH.
    + intros v' Hin. apply Hall. by apply elem_of_cons; right.
    + destruct (decide (k = k0)) as [->|Hne].
      * right. rewrite lookup_insert_eq. do 2 f_equal.
        apply Hall. by apply elem_of_cons; left.
      * destruct Hor as [[v' Hin]|Hd].
        -- left. exists v'. apply elem_of_cons in Hin as [Heq|Hin]; [congruence|done].
        -- right. by rewrite lookup_insert_ne.
Qed.

Lemma rank_entries_elem l uid r :
  (uid, r) ∈ rank_entries l ->
  ∃ x, x ∈ l ∧ entry_uid x = uid ∧ r = 1 + count_above (entry_pts x) l.
Proof.
  intros Hin. apply list_elem_of_lookup in Hin as [i Hi].
  assert (H1 : (rank_entries l).*1 !! i = Some uid) by (by rewrite list_lookup_fmap, Hi).
  assert (H2 : (rank_entries l).*2 !! i = Some r) by (by rewrite list_lookup_fmap, Hi).
  unfold rank_entries in H1. rewrite rank_loop_uids, list_lookup_fmap in H1.
  destruct (sort_entries l !! i) as [x|] eqn:Hx; [|done].
  injection H1 as H1. exists x. split.
  - rewrite <- (sort_entries_perm l). by eapply list_elem_of_lookup_2.
  - split; [done|]. rewrite (rank_entries_lookup l i x Hx) in H2. congruence.
Qed.

Lemma rank_entries_covers l x :
  x ∈ l -> ∃ r, (entry_uid x, r) ∈ rank_entries l.
Proof.
  intros Hin. rewrite <- (sort_entries_perm l) in Hin.
  apply list_elem_of_lookup in Hin as [i Hi].
  pose proof (rank_entries_lookup l i x Hi) as H2.
  rewrite list_lookup_fmap in H2.
  destruct (rank_entries l !! i) as [[uid r]|] eqn:Hr; [|done].
  assert (H1 : (rank_entries l).*1 !! i = Some uid) by (by rewrite list_lookup_fmap, Hr).
  unfold rank_entries in H1. rewrite rank_loop_uids, list_lookup_fmap, Hi in H1.
  injection H1 as <-. exists r. by eapply list_elem_of_lookup_2.
Qed.

Section RankByMd.

Variable rq : Request.
Variable shown : list Z.
Hypothesis shown_NoDup : NoDup shown.

Lemma rank_by_md_column md :
  md ∈ shown -> rank_by_md rq shown !! md = Some (rank_column rq shown md ∅).
Proof.
  intros Hmd. unfold rank_by_md.
  rewrite (alter_loop_lookup (rank_column rq shown)) by done.
  rewrite decide_True by done.
  rewrite (fill_lookup (λ _, ∅) shown ∅ md). by rewrite decide_True by done.
Qed.

Lemma any_results_shown md :
  md ∈ shown -> any_results rq shown md = existsb has_result (matches_of_md rq md).
Proof. intros Hmd. unfold any_results. by rewrite matches_by_md_shown. Qed.

Lemma sortable_elem md x :
  x ∈ sortable rq shown md ->
  entry_uid x ∈ user_id <$> members rq
  ∧ entry_pts x = pts_or_zero rq shown (entry_uid x) md.
Proof.
  unfold sortable. intros (u & -> & Hu)%list_elem_of_fmap. split; [|done].
  change (user_id u ∈ user_id <$> members rq). by apply list_elem_of_fmap_2.
Qed.

Lemma sortable_covers md uid :
  uid ∈ user_id <$> members rq ->
  ∃ x, x ∈ sortable rq shown md ∧ entry_uid x = uid.
Proof.
  intros (u & -> & Hu)%list_elem_of_fmap.
  exists (pts_or_zero rq shown (user_id u) md, lower (username u), user_id u).
  split; [|done]. unfold sortable.
  by apply (list_elem_of_fmap_2
              (λ u, (pts_or_zero rq shown (user_id u) md, lower (username u), user_id u))).
Qed.

(** A matchday without results: every rank is [None]. *)
Lemma rank_by_md_unranked md uid :
  md ∈ shown -> any_results rq shown md = false ->
  get2 (rank_by_md rq shown) md uid = None.
Proof.
  intros Hmd Hany. unfold get2. rewrite (rank_by_md_column md Hmd). simpl.
  unfold rank_column. rewrite Hany. simpl.
  rewrite <- (foldl_fmap (λ col k, <[k := None]> col) ∅ (members rq) user_id).
  rewrite (fill_lookup (λ _, None) (user_id <$> members rq) ∅ uid).
  case_decide; [done|]. by rewrite lookup_empty.
Qed.

(** A matchday with results: the competition rank on the points of the
    matchday, none counted as 0. *)
Lemma rank_by_md_ranked md uid :
  md ∈ shown -> any_results rq shown md = true ->
  uid ∈ user_id <$> members rq ->
  get2 (rank_by_md rq shown) md uid =
    Some (1 + count_above (pts_or_zero rq shown uid md) (sortable rq shown md)).
Proof.
  intros Hmd Hany Hu. unfold get2. rewrite (rank_by_md_column md Hmd). simpl.
  unfold rank_column. rewrite Hany. simpl.
  rewrite (assign_lookup _ ∅ uid
             (1 + count_above (pts_or_zero rq shown uid md) (sortable rq shown md))).
  - done.
  - intros v' (x & Hx & Hid & ->)%rank_entries_elem.
    destruct (sortable_elem md x Hx) as [_ Hpts]. by rewrite Hpts, Hid.
  - left. destruct (sortable_covers md uid Hu) as (x & Hx & <-).
    by apply rank_entries_covers.
Qed.

End RankByMd.

(** C10. When at least one match of a shown matchday has a result, every
    user of the group gets a number as rank for that matchday: one more than
    the number of users with strictly more points on it, where a user
    without a matchday aggregate counts with 0 points (on such a matchday
    every user of the group does have an aggregate); the ranking lists every
    user. *)
Theorem every_member_ranked (rq : Request) (md uid : Z) :
  md ∈ shown_matchdays rq ->
  uid ∈ user_id <$> members rq ->
  existsb has_result (matches_of_md rq md) = true ->
  let shown := shown_matchdays rq in
  get2 (rank_by_md rq shown) md uid =
    Some (1 + count_above (pts_or_zero rq shown uid md) (sortable rq shown md)) ∧
  pts_or_zero rq shown uid md = default 0 (get2 (md_points rq shown) uid md) ∧
  is_Some (get2 (md_points rq shown) uid md) ∧
  entry_uid <$> sortable rq shown md = user_id <$> members rq ∧
  entry_pts <$> sortable rq shown md =
    (λ u, pts_or_zero rq shown (user_id u) md) <$> members rq.
Proof.
  intros Hmd Hu Hres shown.
  split.
  - apply rank_by_md_ranked; [apply shown_matchdays_NoDup|done| |done].
    by rewrite any_results_shown.
  - split; [done|]. split.
    + rewrite (md_points_value rq shown uid md Hu Hmd), Hres. by eexists.
    + unfold sortable. by rewrite <- !list_fmap_compose.
Qed.

Lemma every_member_ranked_witness :
  4 ∈ shown_matchdays sample_after ∧
  3 ∈ user_id <$> members sample_after ∧
  existsb has_result (matches_of_md sample_after 4) = true ∧
  get2 (rank_by_md sample_after shown_after) 4 3 =
    Some (1 + count_above (pts_or_zero sample_after shown_after 3 4)
                          (sortable sample_after shown_after 4)).
Proof.
  assert (Hmd : 4 ∈ shown_matchdays sample_after) by by_evaluation.
  assert (Hu : 3 ∈ user_id <$> members sample_after) by by_evaluation.
  split; [exact Hmd|]. split; [exact Hu|]. split; [reflexivity|].
  apply (every_member_ranked sample_after 4 3 Hmd Hu). reflexivity.
Defined.

(** Ranks of the sample group: matchday 5 has no result yet. *)
Example sample_ranks :
  let rk := rank_by_md sample_after shown_after in
  (get2 rk 3 1, get2 rk 3 2, get2 rk 3 3) = (Some 1, Some 2, Some 3) ∧
  (get2 rk 4 1, get2 rk 4 2, get2 rk 4 3) = (Some 2, Some 1, Some 3) ∧
  (get2 rk 5 1, get2 rk 5 2, get2 rk 5 3) = (None, None, None).
Proof. vm_compute. repeat split; reflexivity. Qed.

(** ** Rank deltas between neighbouring columns *)

Section RankDiff.

Variable rq : Request.
Variable shown : list Z.
Hypothesis shown_NoDup : NoDup shown.

Local Abbreviation column_step := (λ (acc : gmap Z (gmap Z (option Z))) '(i, md),
  foldl (λ acc u, alter (insert (user_id u) (rankdiff_cell rq shown i md (user_id u))) md acc)
        acc (members rq)).

(** The loop over the users at column [(i, md)] only touches [md]. *)
Lemma rankdiff_column (i : nat) (md : Z) (us : list User) :
  ∀ (acc : gmap Z (gmap Z (option Z))) k,
  foldl (λ acc u, alter (insert (user_id u) (rankdiff_cell rq shown i md (user_id u))) md acc)
        acc us !! k
  = if decide (k = md)
    then (λ col, foldl (λ c uid, <[uid := rankdiff_cell rq shown i md uid]> c) col
                       (user_id <$> us)) <$> acc !! k
    else acc !! k.
Proof.
  induction us as [|u us IH]; intros acc k; cbn [foldl].
  - case_decide; [|done]. destruct (acc !! k); reflexivity.
  - rewrite IH. case_decide as Hk; [|by rewrite lookup_alter_ne]. subst k.
    rewrite lookup_alter_eq. destruct (acc !! md); reflexivity.
Qed.

Lemma rankdiff_untouched (ps : list (nat * Z)) md :
  ∀ acc : gmap Z (gmap Z (option Z)),
  md ∉ ps.*2 -> foldl column_step acc ps !! md = acc !! md.
Proof.
  induction ps as [|[i0 md0] ps IH]; intros acc Hnot; cbn [foldl]; [done|].
  rewrite fmap_cons, not_elem_of_cons in Hnot. destruct Hnot as [Hne Hnot].
  rewrite IH by done. rewrite rankdiff_column. by rewrite decide_False.
Qed.

Lemma rankdiff_loop (ps : list (nat * Z)) i md uid :
  ∀ acc : gmap Z (gmap Z (option Z)),
  NoDup ps.*2 -> (i, md) ∈ ps -> is_Some (acc !! md) ->
  uid ∈ user_id <$> members rq ->
  get2 (foldl column_step acc ps) md uid = rankdiff_cell rq shown i md uid.
Proof.
  induction ps as [|[i0 md0] ps IH]; intros acc Hnd Hin Hsome Hu; cbn [foldl].
  - by apply elem_of_nil in Hin.
  - rewrite fmap_cons in Hnd. apply NoDup_cons in Hnd as [Hfresh Hnd]. simpl in Hfresh.
    apply elem_of_cons in Hin as [Heq|Hin].
    + injection Heq as <- <-. unfold get2.
      rewrite rankdiff_untouched by done.
      rewrite rankdiff_column, decide_True by done.
      destruct Hsome as [col Hcol]. rewrite Hcol. simpl.
      rewrite (fill_lookup (λ uid, rankdiff_cell rq shown i md uid)).
      by rewrite decide_True by done.
    + assert (md ≠ md0).
      { intros ->. apply Hfresh.
        by apply (list_elem_of_fmap_2 snd ps (i, md0)). }
      apply IH; [done..| |done].
      rewrite rankdiff_column. by rewrite decide_False.
Qed.

(** What the view reads back from [rankdiff_by_md[md][u.id]]. *)
Lemma rankdiff_lookup i md uid :
  shown !! i = Some md -> uid ∈ user_id <$> members rq ->
  get2 (rankdiff_by_md rq shown) md uid = rankdiff_cell rq shown i md uid.
Proof.
  intros Hi Hu. unfold rankdiff_by_md.
  assert (Hmd : md ∈ shown) by (by eapply list_elem_of_lookup_2).
  apply (rankdiff_loop (zip (seq 0 (length shown)) shown)).
  - rewrite snd_zip; [done|]. by rewrite length_seq.
  - apply list_elem_of_lookup. exists i. apply lookup_zip_Some. split; [|done].
    apply lookup_seq. split; [done|]. by eapply lookup_lt_Some.
  - rewrite (fill_lookup (λ _, ∅) shown ∅ md). rewrite decide_True by done. by eexists.
  - done.
Qed.

End RankDiff.

(** C6. In the shown window the rank delta of a user at a column is the rank
    in the column immediately before it minus the rank in the column itself
    when both are numbers, and none when either is none; at the first shown
    column it is always none, whatever matchdays lie before the window. *)
Theorem rankdiff_previous_column (rq : Request) (i : nat) (md uid : Z) :
  shown_matchdays rq !! i = Some md ->
  uid ∈ user_id <$> members rq ->
  let shown := shown_matchdays rq in
  let delta := get2 (rankdiff_by_md rq shown) md uid in
  let cur := get2 (rank_by_md rq shown) md uid in
  (i = 0%nat -> delta = None) ∧
  (∀ prev_md, (0 < i)%nat -> shown !! (i - 1)%nat = Some prev_md ->
     let prev := get2 (rank_by_md rq shown) prev_md uid in
     (∀ c p, cur = Some c -> prev = Some p -> delta = Some (p - c)) ∧
     (cur = None ∨ prev = None -> delta = None)).
Proof.
  intros Hi Hu shown delta cur. subst delta cur shown.
  rewrite (rankdiff_lookup rq _ (shown_matchdays_NoDup rq) i md uid Hi Hu).
  unfold rankdiff_cell. cbn zeta. split.
  - by intros ->.
  - intros prev_md Hpos Hprev.
    assert ((0 <? i)%nat = true) as -> by (by apply Nat.ltb_lt).
    rewrite Hprev.
    destruct (get2 (rank_by_md rq (shown_matchdays rq)) md uid) as [c|],
      (get2 (rank_by_md rq (shown_matchdays rq)) prev_md uid) as [p|];
      (split; [intros c' p' Hc Hp; congruence | intros [H|H]; congruence]).
Qed.

Lemma rankdiff_previous_column_witness :
  shown_matchdays sample_after !! 1%nat = Some 4 ∧
  1 ∈ user_id <$> members sample_after ∧
  get2 (rank_by_md sample_after shown_after) 4 1 = Some 2 ∧
  get2 (rank_by_md sample_after shown_after) 3 1 = Some 1 ∧
  get2 (rankdiff_by_md sample_after shown_after) 4 1 = Some (1 - 2).
Proof.
  assert (Hu : 1 ∈ user_id <$> members sample_after) by by_evaluation.
  split; [reflexivity|]. split; [exact Hu|]. split; [reflexivity|]. split; [reflexivity|].
  destruct (rankdiff_previous_column sample_after 1 4 1 eq_refl Hu) as [_ H].
  destruct (H 3 ltac:(lia) eq_refl) as [H' _].
  apply H'; reflexivity.
Defined.

(** Rank deltas of the sample group over the columns 3, 4 and 5. *)
Example sample_rankdiff :
  let rd := rankdiff_by_md sample_after shown_after in
  (get2 rd 3 1, get2 rd 3 2, get2 rd 3 3) = (None, None, None) ∧
  (get2 rd 4 1, get2 rd 4 2, get2 rd 4 3) = (Some (-1), Some 1, Some 0) ∧
  (get2 rd 5 1, get2 rd 5 2, get2 rd 5 3) = (None, None, None).
Proof. vm_compute. repeat split; reflexivity. Qed.

(** ** Season totals *)

Section Sums.

Context {A : Type}.

Lemma sum_Z_app l1 l2 : sum_Z (l1 ++ l2) = sum_Z l1 + sum_Z l2.
Proof. induction l1 as [|x l1 IH]; [done|]. simpl app. rewrite !sum_Z_cons, IH. lia. Qed.

Lemma sum_Z_zero (g : A -> Z) (l : list A) :
  (∀ x, x ∈ l -> g x = 0) -> sum_Z (g <$> l) = 0.
Proof.
  induction l as [|x l IH]; intros Hg; [done|].
  rewrite fmap_cons, sum_Z_cons, (Hg x), IH; [lia| |by left].
  intros y Hy. apply Hg. by right.
Qed.

Lemma sum_Z_ext (g h : A -> Z) (l : list A) :
  (∀ x, x ∈ l -> g x = h x) -> sum_Z (g <$> l) = sum_Z (h <$> l).
Proof.
  induction l as [|x l IH]; intros Hg; [done|].
  rewrite !fmap_cons, !sum_Z_cons, (Hg x), IH; [lia| |by left].
  intros y Hy. apply Hg. by right.
Qed.

(** A sum split by a decidable property. *)
Lemma sum_Z_split (P : A -> Prop) `{!∀ x, Decision (P x)} (g : A -> Z) l :
  sum_Z (g <$> l) = sum_Z (g <$> filter P l) + sum_Z (g <$> filter (λ x, ¬ P x) l).
Proof.
  induction l as [|x l IH]; [done|].
  rewrite !filter_cons, fmap_cons, sum_Z_cons, IH.
  destruct (decide (P x)) as [HP|HP].
  - rewrite decide_False by tauto. rewrite fmap_cons, sum_Z_cons. lia.
  - rewrite decide_True by done. rewrite fmap_cons, sum_Z_cons. lia.
Qed.

(** Summing [h] over the rows with [P] is summing [g] over the rows with
    [Q], when [Q] is the part of [P] where [h] does not vanish. *)
Lemma sum_Z_filter_change (P Q : A -> Prop)
    `{!∀ x, Decision (P x)} `{!∀ x, Decision (Q x)} (g h : A -> Z) l :
  (∀ x, x ∈ l -> Q x -> P x ∧ h x = g x) ->
  (∀ x, x ∈ l -> P x -> ¬ Q x -> h x = 0) ->
  sum_Z (h <$> filter P l) = sum_Z (g <$> filter Q l).
Proof.
  induction l as [|x l IH]; intros HQ HP; [done|].
  rewrite !filter_cons.
  assert (IH' : sum_Z (h <$> filter P l) = sum_Z (g <$> filter Q l)).
  { apply IH; intros y Hy; [apply HQ|apply HP]; by right. }
  destruct (decide (Q x)) as [Hq|Hq].
  - destruct (HQ x ltac:(by left) Hq) as [Hp Heq].
    rewrite decide_True by done. rewrite !fmap_cons, !sum_Z_cons. lia.
  - destruct (decide (P x)) as [Hp|Hp]; [|done].
    rewrite fmap_cons, sum_Z_cons, (HP x ltac:(by left) Hp Hq). lia.
Qed.

(** A sum that picks the rows with a given key, when keys are unique. *)
Lemma sum_Z_pick_some {K} `{EqDecision K} (key : A -> K) (g : A -> Z) l k x :
  NoDup (key <$> l) -> x ∈ l -> key x = k ->
  sum_Z ((λ y, if decide (key y = k) then g y else 0) <$> l) = g x.
Proof.
  induction l as [|y l IH]; intros Hnd Hin Hk; [by apply elem_of_nil in Hin|].
  rewrite fmap_cons in Hnd. apply NoDup_cons in Hnd as [Hfresh Hnd].
  rewrite fmap_cons, sum_Z_cons. apply elem_of_cons in Hin as [->|Hin].
  - rewrite decide_True by done. rewrite sum_Z_zero; [lia|].
    intros z Hz. case_decide as Hzk; [|done]. exfalso. apply Hfresh.
    rewrite Hk, <- Hzk. by apply list_elem_of_fmap_2.
  - rewrite IH by done. case_decide as Hyk; [|lia]. exfalso. apply Hfresh.
    rewrite Hyk, <- Hk. by apply list_elem_of_fmap_2.
Qed.

Lemma sum_Z_pick_none {K} `{EqDecision K} (key : A -> K) (g : A -> Z) l k :
  (∀ y, y ∈ l -> key y ≠ k) ->
  sum_Z ((λ y, if decide (key y = k) then g y else 0) <$> l) = 0.
Proof.
  intros Hno. apply sum_Z_zero. intros y Hy. by rewrite decide_False by by apply Hno.
Qed.

End Sums.

Lemma sum_Z_add {A} (g h : A -> Z) l :
  sum_Z ((λ x, g x + h x) <$> l) = sum_Z (g <$> l) + sum_Z (h <$> l).
Proof.
  induction l as [|x l IH]; [done|]. rewrite !fmap_cons, !sum_Z_cons, IH. lia.
Qed.

(** Exchanging two nested sums. *)
Lemma sum_Z_swap {A B} (f : A -> B -> Z) (l1 : list A) (l2 : list B) :
  sum_Z ((λ x, sum_Z ((λ y, f x y) <$> l2)) <$> l1)
  = sum_Z ((λ y, sum_Z ((λ x, f x y) <$> l1)) <$> l2).
Proof.
  induction l1 as [|x l1 IH].
  - simpl. symmetry. by apply sum_Z_zero.
  - rewrite fmap_cons, sum_Z_cons, IH.
    rewrite <- sum_Z_add. apply sum_Z_ext. intros y _.
    by rewrite fmap_cons, sum_Z_cons.
Qed.

(** A loop [d[key] = d.get(key, 0) + g] adds up [g] per key. *)
Lemma accumulate_lookup {A} (key : A -> Z) (g : A -> Z) (l : list A) :
  ∀ (d : gmap Z Z) k,
  default 0 (foldl (λ acc x, <[key x := default 0 (acc !! key x) + g x]> acc) d l !! k)
  = default 0 (d !! k) + sum_Z (g <$> filter (λ x, key x = k) l).
Proof.
  induction l as [|x l IH]; intros d k; cbn [foldl].
  - rewrite filter_nil. simpl. unfold sum_Z; simpl. lia.
  - rewrite IH, filter_cons. destruct (decide (key x = k)) as [Hk|Hk].
    + rewrite Hk, lookup_insert_eq, fmap_cons, sum_Z_cons. simpl. lia.
    + by rewrite lookup_insert_ne by done.
Qed.

Lemma sum_Z_filter_indicator {A} (P : A -> Prop) `{!∀ x, Decision (P x)} (g : A -> Z) l :
  sum_Z (g <$> filter P l) = sum_Z ((λ x, if decide (P x) then g x else 0) <$> l).
Proof.
  induction l as [|x l IH]; [done|].
  rewrite filter_cons, fmap_cons, sum_Z_cons, <- IH.
  case_decide; [by rewrite fmap_cons, sum_Z_cons|lia].
Qed.

Section TotalFacts.

Variable rq : Request.

Lemma total_points_preds_lookup k :
  default 0 (total_points_preds rq !! k) =
    sum_Z (pred_points rq <$> filter (λ pr, pred_user_id pr = k) (finished_preds rq)).
Proof.
  unfold total_points_preds.
  rewrite (accumulate_lookup pred_user_id (pred_points rq)).
  rewrite <- (foldl_fmap (λ acc k, <[k := 0]> acc) ∅ (members rq) user_id).
  rewrite (fill_lookup (λ _, 0) (user_id <$> members rq) ∅ k).
  case_decide; [done|]. by rewrite lookup_empty.
Qed.

Lemma bonus_points_by_user_lookup k :
  bonus_reveal rq = true -> k ∈ user_id <$> members rq ->
  bonus_points_by_user rq !! k =
    Some (bonus_points_for_user (req_tournament rq) (default [] (bonus_by_user rq !! k))).
Proof.
  intros Hrev Hk. unfold bonus_points_by_user. rewrite Hrev.
  rewrite <- (foldl_fmap
    (λ acc k, <[k := bonus_points_for_user (req_tournament rq)
                       (default [] (bonus_by_user rq !! k))]> acc) ∅ (members rq) user_id).
  rewrite (fill_lookup (λ k, bonus_points_for_user (req_tournament rq)
                               (default [] (bonus_by_user rq !! k)))).
  by rewrite decide_True by done.
Qed.

(** The bonus predictions scored for a user are the user's own, of this
    group and tournament, in table order. *)
Lemma bonus_by_user_lookup k :
  default [] (bonus_by_user rq !! k) =
    filter (λ bp, bonus_user_id bp = k) (all_bonus rq).
Proof.
  unfold bonus_by_user.
  etrans; [exact (group_by_lookup (λ bp, Some (bonus_user_id bp)) (all_bonus rq) ∅ k)|].
  rewrite lookup_empty. simpl. apply list_filter_iff. intros bp. split; congruence.
Qed.

(** The total of a row: the scorer over the user's predictions on finished
    matches of the tournament, plus the bonus share. *)
Lemma season_total_sum uid :
  NoDup (user_id <$> members rq) -> uid ∈ user_id <$> members rq ->
  season_total rq uid =
    sum_Z (pred_points rq <$> filter (λ pr, pred_user_id pr = uid) (finished_preds rq))
    + bonus_share rq uid.
Proof.
  intros Hnd Hu. unfold season_total, total_points_all, bonus_share.
  destruct (bonus_reveal rq) eqn:Hrev; [|rewrite total_points_preds_lookup; lia].
  rewrite (accumulate_lookup user_id
             (λ u, default 0 (bonus_points_by_user rq !! user_id u))).
  rewrite total_points_preds_lookup. f_equal.
  apply list_elem_of_fmap in Hu as (u & -> & Hu).
  rewrite sum_Z_filter_indicator.
  rewrite (sum_Z_pick_some user_id
             (λ u, default 0 (bonus_points_by_user rq !! user_id u))
             (members rq) (user_id u) u Hnd Hu eq_refl).
  rewrite bonus_points_by_user_lookup; [done..|]. by apply list_elem_of_fmap_2.
Qed.

End TotalFacts.

(** *** Rows with unique keys *)

Lemma filter_ext_in {A} (P Q : A -> Prop)
    `{!∀ x, Decision (P x)} `{!∀ x, Decision (Q x)} (l : list A) :
  (∀ x, x ∈ l -> P x <-> Q x) -> filter P l = filter Q l.
Proof.
  induction l as [|x l IH]; intros Hext; [done|].
  rewrite !filter_cons. rewrite IH by (intros y Hy; apply Hext; by right).
  destruct (decide (P x)) as [HP|HP].
  - rewrite decide_True; [done|]. by apply (Hext x); [left|].
  - rewrite decide_False; [done|]. intros HQ. apply HP. by apply (Hext x); [left|].
Qed.

Lemma NoDup_fmap_inj_on {A B} (f : A -> B) (l : list A) x y :
  NoDup (f <$> l) -> x ∈ l -> y ∈ l -> f x = f y -> x = y.
Proof.
  induction l as [|z l IH]; intros Hnd Hx Hy Hf; [by apply elem_of_nil in Hx|].
  rewrite fmap_cons in Hnd. apply NoDup_cons in Hnd as [Hfresh Hnd].
  apply elem_of_cons in Hx as [->|Hx]; apply elem_of_cons in Hy as [->|Hy].
  - done.
  - exfalso. apply Hfresh. rewrite Hf. by apply list_elem_of_fmap_2.
  - exfalso. apply Hfresh. rewrite <- Hf. by apply list_elem_of_fmap_2.
  - by apply IH.
Qed.

(** A loop [d[key(p)] = p] read back. *)
Lemma insert_loop_Some {A K} `{Countable K} (key : A -> K) (l : list A) :
  ∀ (d : gmap K A) k p,
  foldl (λ acc p, <[key p := p]> acc) d l !! k = Some p ->
  (p ∈ l ∧ key p = k) ∨ d !! k = Some p.
Proof.
  induction l as [|x l IH]; intros d k p Hl; cbn [foldl] in Hl; [by right|].
  apply IH in Hl as [[Hin Hk]|Hd].
  - left. split; [by right|done].
  - destruct (decide (key x = k)) as [Hk|Hk].
    + rewrite Hk, lookup_insert_eq in Hd. injection Hd as <-. left. split; [by left|done].
    + rewrite lookup_insert_ne in Hd by done. by right.
Qed.

Lemma insert_loop_is_Some {A K} `{Countable K} (key : A -> K) (l : list A) :
  ∀ (d : gmap K A) k,
  (∃ p, p ∈ l ∧ key p = k) ∨ is_Some (d !! k) ->
  is_Some (foldl (λ acc p, <[key p := p]> acc) d l !! k).
Proof.
  induction l as [|x l IH]; intros d k Hor; cbn [foldl].
  - destruct Hor as [(p & Hp & _)|Hd]; [by apply elem_of_nil in Hp|done].
  - apply IH. destruct (decide (key x = k)) as [Hk|Hk].
    + right. rewrite Hk, lookup_insert_eq. by eexists.
    + destruct Hor as [(p & Hp & Hpk)|Hd].
      * left. exists p. split; [|done].
        apply elem_of_cons in Hp as [->|Hp]; [done|done].
      * right. by rewrite lookup_insert_ne.
Qed.

Lemma insert_loop_None {A K} `{Countable K} (key : A -> K) (l : list A)
    (d : gmap K A) k :
  foldl (λ acc p, <[key p := p]> acc) d l !! k = None ->
  ∀ p, p ∈ l -> key p ≠ k.
Proof.
  intros Hnone p Hp Hk.
  destruct (insert_loop_is_Some key l d k) as [q Hq]; [left; by exists p|].
  congruence.
Qed.

Lemma NoDup_fmap_filter {A B} (f : A -> B) (P : A -> Prop) `{!∀ x, Decision (P x)} l :
  NoDup (f <$> l) -> NoDup (f <$> filter P l).
Proof.
  induction l as [|x l IH]; intros Hnd; [done|].
  rewrite fmap_cons in Hnd. apply NoDup_cons in Hnd as [Hfresh Hnd].
  rewrite filter_cons. case_decide; [|by apply IH].
  rewrite fmap_cons. apply NoDup_cons. split; [|by apply IH].
  intros (y & Hy & Hin)%list_elem_of_fmap. apply list_elem_of_filter in Hin as [_ Hin].
  apply Hfresh. rewrite Hy. by apply list_elem_of_fmap_2.
Qed.

Lemma find_unique (l : list Match) m :
  NoDup (match_id <$> l) -> m ∈ l ->
  List.find (λ m', match_id m' =? match_id m) l = Some m.
Proof.
  induction l as [|x l IH]; intros Hnd Hin; [by apply elem_of_nil in Hin|].
  rewrite fmap_cons in Hnd. apply NoDup_cons in Hnd as [Hfresh Hnd]. simpl.
  apply elem_of_cons in Hin as [->|Hin]; [by rewrite Z.eqb_refl|].
  destruct (Z.eqb_spec (match_id x) (match_id m)) as [Heq|Hne]; [|by apply IH].
  exfalso. apply Hfresh. rewrite Heq. by apply list_elem_of_fmap_2.
Qed.

Lemma find_elem (f : Match -> bool) (l : list Match) m :
  List.find f l = Some m -> m ∈ l ∧ f m = true.
Proof.
  intros Hf. apply List.find_some in Hf as [Hin Hm]. split; [|done].
  by apply list_elem_of_In.
Qed.

Lemma sum_indicator_md (mds : list Z) (o : option Z) (x : Z) :
  NoDup mds -> (∀ d, o = Some d -> d ∈ mds) ->
  sum_Z ((λ md, if decide (o = Some md) then x else 0) <$> mds)
  = if decide (is_Some o) then x else 0.
Proof.
  intros Hnd Ho. destruct o as [d|].
  - rewrite decide_True by by eexists.
    rewrite (sum_Z_ext _ (λ md, if decide (md = d) then x else 0)).
    + apply (sum_Z_pick_some (λ md : Z, md) (λ _, x) mds d d); [|by apply Ho|done].
      by rewrite list_fmap_id.
    + intros md _. destruct (decide (md = d)) as [->|Hne].
      * by rewrite decide_True.
      * rewrite decide_False; [done|]. congruence.
  - rewrite decide_False by (by intros [? ?]).
    apply sum_Z_zero. intros md _. by rewrite decide_False.
Qed.

(** Summing per matchday and then over the matchdays is summing over the
    matches that have a matchday. *)
Lemma sum_by_matchday (G : Match -> Z) (mds : list Z) (ms : list Match) :
  NoDup mds ->
  (∀ m d, m ∈ ms -> matchday m = Some d -> d ∈ mds) ->
  sum_Z ((λ md, sum_Z (G <$> filter (λ m, matchday m = Some md) ms)) <$> mds)
  = sum_Z (G <$> filter (λ m, is_Some (matchday m)) ms).
Proof.
  intros Hnd Hall.
  rewrite (sum_Z_ext _ (λ md, sum_Z ((λ m, if decide (matchday m = Some md)
                                           then G m else 0) <$> ms)))
    by (intros md _; apply sum_Z_filter_indicator).
  rewrite <- (sum_Z_swap (λ m md, if decide (matchday m = Some md) then G m else 0)).
  rewrite sum_Z_filter_indicator. apply sum_Z_ext. intros m Hm.
  apply sum_indicator_md; [done|]. intros d Hd. by apply (Hall m).
Qed.

Section SeasonJoin.

Variable rq : Request.
Variable uid : Z.

Hypothesis matches_unique : NoDup (match_id <$> db_matches rq).
Hypothesis predictions_unique :
  NoDup ((λ p, (pred_user_id p, pred_group p, pred_match_id p)) <$> db_predictions rq).
Hypothesis user_member : uid ∈ user_id <$> members rq.

(** The window that holds every matchday shows every match that has one. *)
Lemma matches_all_days :
  matches rq (matchdays rq) =
    filter (λ m, is_Some (matchday m)) (tournament_matches rq).
Proof.
  unfold matches, tournament_matches. rewrite list_filter_filter.
  apply filter_ext_in. intros m Hm. unfold matchday_in. split.
  - intros [Ht Hin]. destruct (matchday m); [|done]. split; [by eexists|done].
  - intros [[d Hd] Ht]. split; [done|]. rewrite Hd. apply bool_decide_eq_true.
    apply elem_of_matchdays. exists m. split; [|done].
    unfold tournament_matches. by apply list_elem_of_filter.
Qed.

Lemma matches_elem m :
  m ∈ matches rq (matchdays rq) <->
  m ∈ db_matches rq ∧ match_tournament m = tournament_id (req_tournament rq)
  ∧ is_Some (matchday m).
Proof.
  rewrite matches_all_days. unfold tournament_matches.
  rewrite !list_elem_of_filter. tauto.
Qed.

Lemma matches_ids_unique : NoDup (match_id <$> matches rq (matchdays rq)).
Proof. unfold matches. by apply NoDup_fmap_filter. Qed.

Lemma match_of_elem p m :
  match_of rq p = Some m -> m ∈ db_matches rq ∧ match_id m = pred_match_id p.
Proof.
  intros [Hin Hid]%find_elem. split; [done|]. by apply Z.eqb_eq.
Qed.

Lemma match_of_unique p m :
  m ∈ db_matches rq -> match_id m = pred_match_id p -> match_of rq p = Some m.
Proof.
  intros Hin Hid. unfold match_of. rewrite <- Hid. by apply find_unique.
Qed.

(** The user's predictions in the group. *)
Local Abbreviation own_preds :=
  (filter (λ p, pred_group p = req_group rq ∧ pred_user_id p = uid) (db_predictions rq)).

Lemma own_preds_unique : NoDup (pred_match_id <$> own_preds).
Proof.
  apply NoDup_fmap_2_strong.
  - intros p q [[Hpg Hpu] Hp]%list_elem_of_filter [[Hqg Hqu] Hq]%list_elem_of_filter Hm.
    apply (NoDup_fmap_inj_on _ _ p q predictions_unique Hp Hq). simpl. congruence.
  - apply NoDup_filter. by eapply NoDup_fmap_1.
Qed.

(** The loop's lookup [pred_map.get((uid, m.id))], as a sum over the
    user's predictions that picks the one for the match. *)
Lemma pred_lookup_sum m :
  m ∈ matches rq (matchdays rq) ->
  points_for_prediction m (pred_map rq (matchdays rq) !! (uid, match_id m))
  = sum_Z ((λ p, if decide (pred_match_id p = match_id m)
                 then points_for_prediction m (Some p) else 0) <$> own_preds).
Proof.
  intros Hm. unfold pred_map.
  destruct (foldl _ _ _ !! (uid, match_id m)) as [p|] eqn:Hlk.
  - apply insert_loop_Some in Hlk as [[Hin Hk]|Hd]; [|by rewrite lookup_empty in Hd].
    injection Hk as Hu Hmid.
    apply list_elem_of_filter in Hin as [(Hg & _ & _) Hin].
    symmetry. apply (sum_Z_pick_some pred_match_id
                       (λ p, points_for_prediction m (Some p)) _ (match_id m) p).
    + apply own_preds_unique.
    + by apply list_elem_of_filter.
    + done.
  - symmetry. apply sum_Z_pick_none. intros p [[Hg Hu] Hin]%list_elem_of_filter Hmid.
    eapply (insert_loop_None _ _ _ _ Hlk p); [|by rewrite Hu, Hmid].
    apply list_elem_of_filter. split; [|done]. split; [done|]. split; [|by rewrite Hu].
    rewrite Hmid. unfold match_ids. by apply list_elem_of_fmap_2.
Qed.

(** The points a prediction earns on the matches that have a matchday. *)
Local Abbreviation on_matchdays := (λ p : Prediction,
  sum_Z ((λ m, if decide (pred_match_id p = match_id m)
               then points_for_prediction m (Some p) else 0)
         <$> matches rq (matchdays rq))).

Lemma on_matchdays_scored p :
  p ∈ db_predictions rq ->
  (pred_user_id p = uid ∧ pred_matchday rq p ≠ None) ∧ is_finished_pred rq p = true ->
  (pred_group p = req_group rq ∧ pred_user_id p = uid)
  ∧ on_matchdays p = pred_points rq p.
Proof.
  intros Hp [[Hu Hmd] Hfin]. unfold is_finished_pred in Hfin.
  apply andb_true_iff in Hfin as [Hg Hfin]. apply Z.eqb_eq in Hg.
  unfold pred_matchday, pred_points in *.
  destruct (match_of rq p) as [m0|] eqn:Hm0; [|done]. simpl in Hmd.
  apply andb_true_iff in Hfin as [Ht _]. apply Z.eqb_eq in Ht.
  destruct (match_of_elem p m0 Hm0) as [Hin Hid].
  split; [done|].
  rewrite (sum_Z_ext _ (λ m, if decide (match_id m = pred_match_id p)
                             then points_for_prediction m (Some p) else 0)).
  - apply (sum_Z_pick_some match_id (λ m, points_for_prediction m (Some p))
             _ (pred_match_id p) m0); [apply matches_ids_unique| |done].
    apply matches_elem. split; [done|]. split; [done|].
    by destruct (matchday m0); [eexists|].
  - intros m _. destruct (decide (pred_match_id p = match_id m)) as [E|E].
    + by rewrite decide_True.
    + rewrite decide_False; [done|]. congruence.
Qed.

Lemma on_matchdays_unscored p :
  p ∈ db_predictions rq ->
  pred_group p = req_group rq ∧ pred_user_id p = uid ->
  ¬ ((pred_user_id p = uid ∧ pred_matchday rq p ≠ None) ∧ is_finished_pred rq p = true) ->
  on_matchdays p = 0.
Proof.
  intros Hp [Hg Hu] Hnot. apply sum_Z_zero. intros m Hm.
  case_decide as Hid; [|done].
  apply matches_elem in Hm as (Hin & Ht & Hmd).
  pose proof (match_of_unique p m Hin (eq_sym Hid)) as Hof.
  destruct (has_result m) eqn:Hres; [|by apply points_without_result].
  exfalso. apply Hnot. split; [split; [done|]|].
  - unfold pred_matchday. rewrite Hof. simpl. destruct Hmd as [d ->]. done.
  - unfold is_finished_pred. rewrite Hof, Hres.
    rewrite !andb_true_iff, !Z.eqb_eq. done.
Qed.

(** The per-matchday points, added over all matchdays, are the points of
    the user's predictions on finished matches that have a matchday. *)
Lemma matchday_total_sum :
  matchday_total rq uid =
    sum_Z (pred_points rq <$>
      filter (λ pr, pred_user_id pr = uid ∧ pred_matchday rq pr ≠ None)
             (finished_preds rq)).
Proof.
  unfold matchday_total, matchday_points.
  rewrite (sum_Z_ext _ (λ md, scored rq (matchdays rq) uid (matches_of_md rq md))).
  2:{ intros md Hmd. rewrite (md_points_value rq _ uid md user_member Hmd).
      destruct (existsb has_result (matches_of_md rq md)) eqn:Hres; [done|].
      simpl. symmetry. apply sum_Z_zero. intros m Hm.
      apply points_without_result.
      destruct (has_result m) eqn:Hr; [|done].
      assert (existsb has_result (matches_of_md rq md) = true); [|congruence].
      apply existsb_exists. exists m. split; [|done]. by apply list_elem_of_In. }
  unfold scored, matches_of_md.
  rewrite (sum_by_matchday
             (λ m, points_for_prediction m (pred_map rq (matchdays rq) !! (uid, match_id m)))
             (matchdays rq) (tournament_matches rq) (matchdays_NoDup rq)).
  2:{ intros m d Hm Hd. apply elem_of_matchdays. by exists m. }
  rewrite <- matches_all_days.
  rewrite (sum_Z_ext _ _ _ (λ m Hm, pred_lookup_sum m Hm)).
  rewrite (sum_Z_swap (λ m p, if decide (pred_match_id p = match_id m)
                              then points_for_prediction m (Some p) else 0)).
  unfold finished_preds. rewrite list_filter_filter.
  apply sum_Z_filter_change.
  - intros p Hp HQ. by apply on_matchdays_scored.
  - intros p Hp HP HQ. by apply on_matchdays_unscored.
Qed.

(** The points on finished matches split by whether the match has a
    matchday. *)
Lemma finished_points_split :
  sum_Z (pred_points rq <$> filter (λ pr, pred_user_id pr = uid) (finished_preds rq))
  = matchday_total rq uid + unassigned_points rq uid.
Proof.
  rewrite matchday_total_sum. unfold unassigned_points.
  rewrite (sum_Z_split (λ pr, pred_matchday rq pr = None)).
  rewrite !list_filter_filter.
  rewrite (list_filter_iff (λ pr, pred_matchday rq pr = None ∧ pred_user_id pr = uid)
             (λ pr, pred_user_id pr = uid ∧ pred_matchday rq pr = None)) by (intros; tauto).
  rewrite (list_filter_iff (λ pr, pred_matchday rq pr ≠ None ∧ pred_user_id pr = uid)
             (λ pr, pred_user_id pr = uid ∧ pred_matchday rq pr ≠ None)) by (intros; tauto).
  lia.
Qed.

End SeasonJoin.

Lemma bonus_reveal_spec rq :
  bonus_reveal rq = true <->
  ∃ s, season_start (req_tournament rq) = Some s ∧ s ≤ req_now rq.
Proof.
  unfold bonus_reveal. destruct (season_start (req_tournament rq)) as [s|].
  - rewrite bool_decide_eq_true. split; [intros; by exists s|].
    by intros (s' & [= <-] & Hs).
  - split; [done|]. by intros (s' & [=] & _).
Qed.

(** What the code computes.  For a user of the group the season total is the
    sum of the user's per-matchday points over all matchdays of the
    tournament (not only the shown window), plus the points of the user's
    predictions on finished matches that have no matchday, plus the user's
    bonus points exactly when the bonus is revealed (season start set and
    reached); before that the bonus adds nothing.  It is the match scorer
    summed over all the user's predictions in the group on finished matches
    of the tournament, so the sum over the matchdays alone is the total only
    when no such match lacks a matchday. *)
Theorem season_total_decomposed (rq : Request) (uid : Z) :
  NoDup (match_id <$> db_matches rq) ->
  NoDup ((λ p, (pred_user_id p, pred_group p, pred_match_id p)) <$> db_predictions rq) ->
  NoDup (user_id <$> members rq) ->
  uid ∈ user_id <$> members rq ->
  season_total rq uid
    = matchday_total rq uid + unassigned_points rq uid + bonus_share rq uid ∧
  season_total rq uid
    = sum_Z (pred_points rq <$>
               filter (λ pr, pred_user_id pr = uid) (finished_preds rq))
      + bonus_share rq uid ∧
  (bonus_reveal rq = true <->
     ∃ s, season_start (req_tournament rq) = Some s ∧ s ≤ req_now rq) ∧
  (bonus_reveal rq = true ->
     bonus_share rq uid =
       bonus_points_for_user (req_tournament rq)
         (filter (λ bp, bonus_user_id bp = uid) (all_bonus rq))) ∧
  (bonus_reveal rq = false -> bonus_share rq uid = 0) ∧
  ((∀ pr, pr ∈ finished_preds rq -> pred_user_id pr = uid ->
          pred_matchday rq pr ≠ None) ->
   season_total rq uid = matchday_total rq uid + bonus_share rq uid).
Proof.
  intros Hm Hp Hus Hu.
  pose proof (season_total_sum rq uid Hus Hu) as Htot.
  pose proof (finished_points_split rq uid Hm Hp Hu) as Hsplit.
  split; [lia|]. split; [done|]. split; [apply bonus_reveal_spec|].
  split; [|split].
  - intros Hrev. unfold bonus_share. by rewrite Hrev, bonus_by_user_lookup.
  - intros Hrev. unfold bonus_share. by rewrite Hrev.
  - intros Hall. assert (unassigned_points rq uid = 0) as Hz; [|lia].
    unfold unassigned_points. apply sum_Z_zero.
    intros pr [[Hpu Hno] Hpr]%list_elem_of_filter. by destruct (Hall pr Hpr Hpu).
Qed.

Lemma season_total_decomposed_witness :
  NoDup (match_id <$> db_matches sample_after) ∧
  NoDup ((λ p, (pred_user_id p, pred_group p, pred_match_id p))
           <$> db_predictions sample_after) ∧
  NoDup (user_id <$> members sample_after) ∧
  1 ∈ user_id <$> members sample_after ∧
  season_total sample_after 1
    = matchday_total sample_after 1 + unassigned_points sample_after 1
      + bonus_share sample_after 1.
Proof.
  assert (H1 : NoDup (match_id <$> db_matches sample_after))
    by by_evaluation.
  assert (H2 : NoDup ((λ p, (pred_user_id p, pred_group p, pred_match_id p))
                        <$> db_predictions sample_after))
    by by_evaluation.
  assert (H3 : NoDup (user_id <$> members sample_after))
    by by_evaluation.
  assert (H4 : 1 ∈ user_id <$> members sample_after)
    by by_evaluation.
  repeat (split; [assumption|]).
  exact (proj1 (season_total_decomposed sample_after 1 H1 H2 H3 H4)).
Defined.

(** The sample group before the season start: ana has 4 points on matchday
    3, 3 on matchday 4 and 4 on a finished match without matchday. *)
Example sample_totals :
  bonus_reveal sample_before = false ∧
  (season_total sample_before 1, matchday_total sample_before 1,
   unassigned_points sample_before 1, bonus_share sample_before 1) = (11, 7, 4, 0).
Proof. vm_compute. split; reflexivity. Qed.

(** After the season start the bonus is added: ana's two relegation picks
    name the same team and count once. *)
Example sample_totals_revealed :
  bonus_reveal sample_after = true ∧
  (season_total sample_after 1, matchday_total sample_after 1,
   unassigned_points sample_after 1, bonus_share sample_after 1) = (16, 7, 4, 5).
Proof. vm_compute. split; reflexivity. Qed.

(** C5.  The code at the failing input.  Before the season start (bonus not
    revealed) ana has 4 points on matchday 3 and 3 on matchday 4, the only
    matchdays with results, so the claim gives her the total 7.  The code
    shows 11: match 5 is finished and has no matchday, it is in no matchday
    column, and the 4 points of ana's tip on it are added to the total
    nevertheless, because the query of the total does not look at the
    matchday. *)
Theorem season_total_not_matchday_sum :
  bonus_reveal sample_before = false ∧
  bonus_share sample_before 1 = 0 ∧
  matchdays sample_before = [3; 4; 5] ∧
  (λ md, default 0 (get2 (md_points sample_before (matchdays sample_before)) 1 md))
    <$> matchdays sample_before = [4; 3; 0] ∧
  matchday_total sample_before 1 = 7 ∧
  matchday <$> filter (λ m, match_id m = 5) (db_matches sample_before) = [None] ∧
  unassigned_points sample_before 1 = 4 ∧
  season_total sample_before 1 = 11 ∧
  season_total sample_before 1
    ≠ matchday_total sample_before 1 + bonus_share sample_before 1.
Proof. vm_compute. split_and!; try reflexivity. discriminate. Qed.
(** * Further properties of the scorers and views *)

(** ** Bonus score: bounds and what never counts *)

Lemma size_list_to_set_le (l : list string) :
  (size (list_to_set l : gset string) ≤ length l)%nat.
Proof.
  induction l as [|x l IH]; [by rewrite list_to_set_nil, size_empty|].
  rewrite list_to_set_cons, size_union_alt, size_singleton. simpl length.
  assert (size (list_to_set l ∖ {[x]} : gset string) ≤ size (list_to_set l : gset string))%nat
    by (apply subseteq_size; set_solver).
  lia.
Qed.

Lemma single_relegation_lengths t (l : list BonusPrediction) :
  (length (filter (λ bp, correct_single t bp = true) l)
   + length (filter (λ bp, correct_relegation t bp = true) l) ≤ length l)%nat.
Proof.
  induction l as [|bp l IH]; [done|].
  rewrite !filter_cons. simpl length.
  destruct (correct_single t bp) eqn:Hs.
  - assert (correct_relegation t bp = false) as ->.
    { unfold correct_relegation. by rewrite (single_not_relegation t bp Hs). }
    rewrite decide_True by done. rewrite decide_False by done. simpl length. lia.
  - rewrite decide_False by done. case_decide; simpl length; lia.
Qed.

Lemma correct_relegation_values_size t l :
  (size (correct_relegation_values t l)
   ≤ length (filter (λ bp, correct_relegation t bp = true) l))%nat.
Proof.
  unfold correct_relegation_values.
  etrans; [apply size_list_to_set_le|]. by rewrite length_fmap.
Qed.

Lemma correct_relegation_values_app t l l' :
  correct_relegation_values t (l ++ l')
  = correct_relegation_values t l ∪ correct_relegation_values t l'.
Proof.
  unfold correct_relegation_values. by rewrite filter_app, fmap_app, list_to_set_app_L.
Qed.

(** X1. A bonus score is a multiple of 5 between 0 and 5 times the number
    of predictions, and further predictions never lower it. *)
Theorem bonus_points_bounds (t : Tournament) (l l' : list BonusPrediction) :
  0 ≤ bonus_points_for_user t l ≤ 5 * Z.of_nat (length l) ∧
  (5 | bonus_points_for_user t l) ∧
  bonus_points_for_user t l ≤ bonus_points_for_user t (l ++ l').
Proof.
  rewrite !bonus_points_closed.
  pose proof (single_relegation_lengths t l).
  pose proof (correct_relegation_values_size t l).
  split; [lia|]. split.
  - exists (Z.of_nat (length (filter (λ bp, correct_single t bp = true) l))
            + Z.of_nat (size (correct_relegation_values t l))). lia.
  - rewrite filter_app, length_app, correct_relegation_values_app.
    assert (size (correct_relegation_values t l)
            ≤ size (correct_relegation_values t l ∪ correct_relegation_values t l'))%nat
      by (apply subseteq_size; set_solver).
    lia.
Qed.

Lemma length_le_keys {A} (f : A -> string) (l : list A) (ks : list string) :
  NoDup (f <$> l) -> (∀ x, x ∈ l -> f x ∈ ks) -> (length l ≤ length ks)%nat.
Proof.
  intros Hnd Hin. rewrite <- (length_fmap f l).
  apply submseteq_length, NoDup_submseteq; [done|].
  intros k (x & -> & Hx)%list_elem_of_fmap. by apply Hin.
Qed.

Lemma correct_single_type t bp :
  correct_single t bp = true ->
  bonus_type bp ∈ ["herbstmeister"; "meister"; "trainer_first"; "topscorer"].
Proof.
  unfold correct_single. intros H. apply andb_true_iff in H as [_ H].
  repeat (apply orb_true_iff in H as [H|H]);
    apply andb_true_iff in H as [H _]; apply String.eqb_eq in H; rewrite H; set_solver.
Qed.

Lemma correct_relegation_type t bp :
  correct_relegation t bp = true -> bonus_type bp ∈ ["relegation1"; "relegation2"].
Proof.
  unfold correct_relegation, is_relegation_type. intros H.
  apply andb_true_iff in H as [H _]. apply andb_true_iff in H as [H _].
  apply orb_true_iff in H as [H|H]; apply String.eqb_eq in H; rewrite H; set_solver.
Qed.

(** X2. With at most one prediction per bonus type, as the table's
    uniqueness constraint has it for one user, group and tournament, the
    bonus score is at most 30. *)
Theorem bonus_points_at_most_30 (t : Tournament) (l : list BonusPrediction) :
  NoDup (bonus_type <$> l) -> bonus_points_for_user t l ≤ 30.
Proof.
  intros Hnd. rewrite bonus_points_closed.
  assert (length (filter (λ bp, correct_single t bp = true) l) ≤ 4)%nat.
  { apply (length_le_keys bonus_type _
             ["herbstmeister"; "meister"; "trainer_first"; "topscorer"]).
    - by apply NoDup_fmap_filter.
    - intros bp [Hbp _]%list_elem_of_filter. by eapply correct_single_type. }
  assert (length (filter (λ bp, correct_relegation t bp = true) l) ≤ 2)%nat.
  { apply (length_le_keys bonus_type _ ["relegation1"; "relegation2"]).
    - by apply NoDup_fmap_filter.
    - intros bp [Hbp _]%list_elem_of_filter. by eapply correct_relegation_type. }
  pose proof (correct_relegation_values_size t l). lia.
Qed.

Lemma bonus_points_at_most_30_witness :
  NoDup (bonus_type <$> picks_a) ∧ bonus_points_for_user liga picks_a ≤ 30.
Proof.
  assert (H : NoDup (bonus_type <$> picks_a)) by by_evaluation.
  split; [exact H|]. exact (bonus_points_at_most_30 liga picks_a H).
Defined.

Lemma truthy_false s : truthy s = false -> s = EmptyString.
Proof. by destruct s. Qed.

Lemma eqb_blank_outcome (v r : string) :
  truthy v = true -> truthy r = false -> String.eqb v r = false.
Proof.
  intros Hv Hr. apply truthy_false in Hr. subst r.
  destruct (String.eqb_spec v EmptyString) as [->|]; [done|done].
Qed.

Lemma bonus_without_dead_pick t l1 bp l2 :
  correct_single t bp = false -> correct_relegation t bp = false ->
  bonus_points_for_user t (l1 ++ bp :: l2) = bonus_points_for_user t (l1 ++ l2).
Proof.
  intros Hs Hr. rewrite !bonus_points_closed.
  rewrite !filter_app, !correct_relegation_values_app, filter_cons,
    correct_relegation_values_cons, Hs, Hr.
  by rewrite decide_False by done.
Qed.

(** X3. A prediction never changes the bonus score when its value is blank
    after normalization, when its type is none of the six bonus types, or
    when the tournament's outcome for its category is still blank (for the
    relegation slots: no relegated team known). *)
Theorem bonus_ignores_blank_and_undecided (t : Tournament)
    (l1 l2 : list BonusPrediction) (bp : BonusPrediction) :
  truthy (_norm (value bp)) = false
  ∨ bonus_type bp ∉ ["herbstmeister"; "meister"; "trainer_first"; "topscorer";
                     "relegation1"; "relegation2"]
  ∨ (bonus_type bp = "herbstmeister" ∧ truthy (real_herbst t) = false)
  ∨ (bonus_type bp = "meister" ∧ truthy (real_meister t) = false)
  ∨ (bonus_type bp = "trainer_first" ∧ truthy (real_trainer t) = false)
  ∨ (bonus_type bp = "topscorer" ∧ truthy (real_topscorer t) = false)
  ∨ (is_relegation_type (bonus_type bp) = true ∧ relegated_set t = ∅) ->
  bonus_points_for_user t (l1 ++ bp :: l2) = bonus_points_for_user t (l1 ++ l2).
Proof.
  intros H. apply bonus_without_dead_pick.
  - destruct (correct_single t bp) eqn:Hs; [|done]. exfalso.
    pose proof (correct_single_type t bp Hs) as Hty.
    unfold correct_single in Hs. apply andb_true_iff in Hs as [Hv Hs].
    destruct H as [H|[H|[[Ht Hr]|[[Ht Hr]|[[Ht Hr]|[[Ht Hr]|[Ht Hr]]]]]]].
    + congruence.
    + apply H. set_solver.
    + rewrite Ht, (eqb_blank_outcome _ _ Hv Hr) in Hs. done.
    + rewrite Ht, (eqb_blank_outcome _ _ Hv Hr) in Hs. done.
    + rewrite Ht, (eqb_blank_outcome _ _ Hv Hr) in Hs. done.
    + rewrite Ht, (eqb_blank_outcome _ _ Hv Hr) in Hs. done.
    + unfold is_relegation_type in Ht.
      rewrite !elem_of_cons in Hty.
      destruct Hty as [E|[E|[E|[E|E]]]]; [rewrite E in Ht; done..|by apply elem_of_nil in E].
  - destruct (correct_relegation t bp) eqn:Hr; [|done]. exfalso.
    pose proof (correct_relegation_type t bp Hr) as Hty.
    unfold correct_relegation in Hr.
    apply andb_true_iff in Hr as [Hr Hin]. apply andb_true_iff in Hr as [_ Hv].
    apply bool_decide_eq_true in Hin.
    destruct H as [H|[H|[[Ht _]|[[Ht _]|[[Ht _]|[[Ht _]|[_ Hempty]]]]]]].
    + congruence.
    + apply H. set_solver.
    + rewrite Ht in Hty. set_solver.
    + rewrite Ht in Hty. set_solver.
    + rewrite Ht in Hty. set_solver.
    + rewrite Ht in Hty. set_solver.
    + rewrite Hempty in Hin. set_solver.
Qed.

Lemma bonus_ignores_blank_and_undecided_witness :
  bonus_type (pick "meister" "Emelec") = "meister" ∧
  truthy (real_meister liga) = false ∧
  bonus_points_for_user liga
    ([pick "relegation1" "alpha"] ++ pick "meister" "Emelec" :: [pick "topscorer" "DIAZ"])
  = bonus_points_for_user liga ([pick "relegation1" "alpha"] ++ [pick "topscorer" "DIAZ"]).
Proof.
  split; [reflexivity|]. split; [reflexivity|].
  apply bonus_ignores_blank_and_undecided.
  right. right. right. left. split; reflexivity.
Defined.

(** ** Normalization *)

Lemma is_space_lower c : is_space (lower_ascii c) = is_space c.
Proof. destruct c as [[] [] [] [] [] [] [] []]; reflexivity. Qed.

Lemma lower_ascii_idemp c : lower_ascii (lower_ascii c) = lower_ascii c.
Proof. destruct c as [[] [] [] [] [] [] [] []]; reflexivity. Qed.

Lemma lower_idemp s : lower (lower s) = lower s.
Proof. induction s as [|c s IH]; [done|]. simpl. by rewrite lower_ascii_idemp, IH. Qed.

Lemma lstrip_lower s : lstrip (lower s) = lower (lstrip s).
Proof.
  induction s as [|c s IH]; [done|]. simpl. rewrite is_space_lower.
  by destruct (is_space c).
Qed.

Lemma lower_empty s : lower s = EmptyString <-> s = EmptyString.
Proof. by destruct s. Qed.

Lemma rstrip_lower s : rstrip (lower s) = lower (rstrip s).
Proof.
  induction s as [|c s IH]; [done|]. simpl. rewrite IH, is_space_lower.
  destruct (rstrip s); simpl; [by destruct (is_space c)|done].
Qed.

Lemma strip_lower s : strip (lower s) = lower (strip s).
Proof. unfold strip. by rewrite lstrip_lower, rstrip_lower. Qed.

Lemma rstrip_idemp s : rstrip (rstrip s) = rstrip s.
Proof.
  induction s as [|c s IH]; [done|]. simpl.
  destruct (rstrip s) as [|c' r] eqn:Hr.
  - destruct (is_space c) eqn:Hc; [done|]. simpl. by rewrite Hc.
  - simpl in *. by rewrite IH.
Qed.

(** A string that is empty or starts with a character that is no white
    space. *)
Lemma lstrip_head s :
  match lstrip s with
  | EmptyString => True
  | String c _ => is_space c = false
  end.
Proof.
  induction s as [|c s IH]; [done|]. simpl.
  destruct (is_space c) eqn:Hc; [done|]. by simpl.
Qed.

Lemma lstrip_rstrip_head c s :
  is_space c = false -> lstrip (rstrip (String c s)) = rstrip (String c s).
Proof.
  intros Hc. simpl. destruct (rstrip s); rewrite ?Hc; simpl; by rewrite Hc.
Qed.

Lemma strip_idemp s : strip (strip s) = strip s.
Proof.
  unfold strip. pose proof (lstrip_head s) as Hh.
  destruct (lstrip s) as [|c r]; [done|].
  by rewrite (lstrip_rstrip_head c r Hh), rstrip_idemp.
Qed.

Lemma lower_ascii_isascii c :
  (N_of_ascii c < 128)%N → (N_of_ascii (lower_ascii c) < 128)%N.
Proof.
  unfold lower_ascii. cbn zeta. intros Hc.
  destruct ((65 <=? N_of_ascii c) && (N_of_ascii c <=? 90))%N eqn:E; [|done].
  apply andb_true_iff in E as [_ H2%N.leb_le].
  rewrite N_ascii_embedding; lia.
Qed.

Lemma lower_isascii s : isascii s → isascii (lower s).
Proof.
  unfold isascii. induction s as [|c r IH]; [done|].
  cbn [lower list_ascii_of_string]. rewrite !Forall_cons.
  intros [Hc Hr]. split; [by apply lower_ascii_isascii|by apply IH].
Qed.

Lemma lstrip_isascii s : isascii s → isascii (lstrip s).
Proof.
  unfold isascii. induction s as [|c r IH]; [done|].
  cbn [lstrip]. destruct (is_space c); [|done].
  cbn [list_ascii_of_string]. rewrite Forall_cons. intros [_ Hr]. by apply IH.
Qed.

Lemma rstrip_isascii s : isascii s → isascii (rstrip s).
Proof.
  unfold isascii. induction s as [|c r IH]; [done|].
  cbn [rstrip list_ascii_of_string]. rewrite Forall_cons. intros [Hc Hr].
  specialize (IH Hr).
  destruct (rstrip r) as [|d r'].
  - destruct (is_space c); cbn [list_ascii_of_string];
      [constructor|by repeat constructor].
  - cbn [list_ascii_of_string] in *. by constructor.
Qed.

Lemma strip_isascii s : isascii s → isascii (strip s).
Proof. intros H. unfold strip. by apply rstrip_isascii, lstrip_isascii. Qed.

(** X4. On ASCII text normalization yields ASCII text, is idempotent, and
    does not see the case or the surrounding white space of its argument. *)
Theorem norm_idempotent (s : string) :
  isascii s ->
  isascii (_norm s) ∧
  _norm (_norm s) = _norm s ∧
  _norm (lower s) = _norm s ∧
  _norm (strip s) = _norm s.
Proof.
  intros Hs. unfold _norm. split; [|split; [|split]].
  - by apply lower_isascii, strip_isascii.
  - by rewrite strip_lower, strip_idemp, lower_idemp.
  - by rewrite strip_lower, lower_idemp.
  - by rewrite strip_idemp.
Qed.

Lemma norm_idempotent_witness :
  isascii " Barcelona SC " ∧
  _norm (_norm " Barcelona SC ") = _norm " Barcelona SC " ∧
  _norm (lower " Barcelona SC ") = _norm " Barcelona SC ".
Proof.
  assert (H : isascii " Barcelona SC ") by by_evaluation.
  split; [exact H|].
  pose proof (norm_idempotent " Barcelona SC " H) as (_ & H1 & H2 & _).
  split; [exact H1|exact H2].
Defined.

Lemma bonus_step_norm t st bp bp' :
  bonus_type bp = bonus_type bp' -> _norm (value bp) = _norm (value bp') ->
  bonus_step t st bp = bonus_step t st bp'.
Proof. intros Ht Hv. unfold bonus_step. by rewrite Ht, Hv. Qed.

(** X5. The bonus score reads a prediction only through its type and its
    normalized value: two lists of predictions that agree on these, one by
    one, get the same score. *)
Theorem bonus_points_by_normalized_value (t : Tournament) (l l' : list BonusPrediction) :
  (λ bp, (bonus_type bp, _norm (value bp))) <$> l
  = (λ bp, (bonus_type bp, _norm (value bp))) <$> l' ->
  bonus_points_for_user t l = bonus_points_for_user t l'.
Proof.
  unfold bonus_points_for_user. generalize bonus_init.
  revert l'. induction l as [|bp l IH]; intros [|bp' l'] st Heq; try done.
  rewrite !fmap_cons in Heq. injection Heq as Ht Hv Heq.
  cbn [foldl]. rewrite (bonus_step_norm t st bp bp' Ht Hv). by apply IH.
Qed.

Lemma bonus_points_by_normalized_value_witness :
  bonus_points_for_user liga [pick "relegation1" "  ALPHA"; pick "topscorer" "Diaz "]
  = bonus_points_for_user liga [pick "relegation1" "alpha"; pick "topscorer" "diaz"].
Proof. apply bonus_points_by_normalized_value. reflexivity. Defined.
(** ** Matchdays, the shown window and its paging links *)

(** X6. The matchday list of the view is strictly increasing, so free of
    repetitions, and holds exactly the matchdays that occur, not null, on a
    match of the tournament. *)
Theorem matchdays_sorted_distinct (rq : Request) :
  StronglySorted Z.lt (matchdays rq) ∧
  NoDup (matchdays rq) ∧
  (∀ md, md ∈ matchdays rq <->
     ∃ m, m ∈ db_matches rq
          ∧ match_tournament m = tournament_id (req_tournament rq)
          ∧ matchday m = Some md).
Proof.
  split; [apply matchdays_sorted|]. split; [apply matchdays_NoDup|].
  intros md. rewrite elem_of_matchdays. unfold tournament_matches. split.
  - intros (m & [Ht Hm]%list_elem_of_filter & Hmd). by exists m.
  - intros (m & Hm & Ht & Hmd). exists m. split; [|done]. by apply list_elem_of_filter.
Qed.

Lemma from_idx_nonneg rq : 0 ≤ from_idx rq.
Proof.
  unfold from_idx, clamp_from. cbn zeta.
  destruct (Z.ltb_spec (default 0 (req_from rq)) 0); case_match; lia.
Qed.

Lemma count_pos rq : 4 ≤ count rq ≤ 15.
Proof. unfold count. apply clamp_count_bounds. Qed.

Lemma shown_matchdays_lookup rq (i : nat) :
  shown_matchdays rq !! i =
    if decide (i < Z.to_nat (count rq))%nat
    then matchdays rq !! (Z.to_nat (from_idx rq) + i)%nat
    else None.
Proof.
  unfold shown_matchdays. case_decide.
  - by rewrite lookup_take_lt, lookup_drop.
  - apply lookup_take_ge. lia.
Qed.

(** X7. The shown window is the contiguous run of the matchday list that
    starts at the offset: its i-th column is matchday number offset + i of
    the list, for i below the count; it has min(count, n - offset) columns,
    in strictly increasing order. *)
Theorem shown_matchdays_slice (rq : Request) :
  (∀ i : nat, shown_matchdays rq !! i =
     if decide (i < Z.to_nat (count rq))%nat
     then matchdays rq !! (Z.to_nat (from_idx rq) + i)%nat
     else None) ∧
  Z.of_nat (length (shown_matchdays rq))
    = Z.max 0 (Z.min (count rq) (Z.of_nat (length (matchdays rq)) - from_idx rq)) ∧
  (∀ (i j : nat) x y, (i < j)%nat ->
     shown_matchdays rq !! i = Some x -> shown_matchdays rq !! j = Some y -> x < y).
Proof.
  split; [apply shown_matchdays_lookup|]. split.
  - unfold shown_matchdays. rewrite length_take, length_drop.
    pose proof (from_idx_nonneg rq). pose proof (count_pos rq). lia.
  - intros i j x y Hij. rewrite !shown_matchdays_lookup.
    repeat case_decide; try done. intros Hi Hj.
    apply (StronglySorted_lookup Z.lt (matchdays rq)
             (Z.to_nat (from_idx rq) + i) (Z.to_nat (from_idx rq) + j));
      [apply matchdays_sorted|lia|done..].
Qed.

Lemma shown_matchdays_slice_witness :
  shown_matchdays long_season !! 0%nat = Some 6 ∧
  shown_matchdays long_season !! 14%nat = Some 20 ∧
  6 < 20.
Proof.
  split; [reflexivity|]. split; [reflexivity|].
  destruct (shown_matchdays_slice long_season) as (_ & _ & H).
  apply (H 0%nat 14%nat 6 20); [lia|reflexivity..].
Defined.

(** X8. The paging links stay inside the list: a next offset exists
    exactly when matchdays remain behind the window, it is offset + count
    and needs no clamping; without it the window runs to the end of the
    list.  A previous offset exists exactly when the offset is at least the
    count, and it is offset - count. *)
Theorem paging_links (rq : Request) :
  matchdays rq ≠ [] ->
  let n := Z.of_nat (length (matchdays rq)) in
  (next_from rq = (if decide (from_idx rq + count rq < n)
                   then Some (from_idx rq + count rq) else None)) ∧
  (∀ q, next_from rq = Some q -> 0 ≤ q < n ∧ clamp_from n (count rq) q = q) ∧
  (next_from rq = None ->
     shown_matchdays rq = drop (Z.to_nat (from_idx rq)) (matchdays rq)) ∧
  (prev_from rq = (if decide (count rq ≤ from_idx rq)
                   then Some (from_idx rq - count rq) else None)) ∧
  (∀ p, prev_from rq = Some p -> 0 ≤ p < n ∧ clamp_from n (count rq) p = p).
Proof.
  intros Hne n.
  assert (Hn : 0 < n).
  { subst n. destruct (matchdays rq); [done|]. simpl length. lia. }
  pose proof (count_pos rq) as Hc. pose proof (from_idx_nonneg rq) as Hf.
  assert (Hfn : from_idx rq < n).
  { unfold from_idx. fold n. apply clamp_from_bounds; lia. }
  assert (Hclamp : ∀ q, 0 ≤ q < n -> clamp_from n (count rq) q = q).
  { intros q Hq. unfold clamp_from. cbn zeta.
    destruct (Z.ltb_spec q 0); [lia|]. destruct (Z.geb_spec q n); lia. }
  assert (Hnext : next_from rq = (if decide (from_idx rq + count rq < n)
                                  then Some (from_idx rq + count rq) else None)).
  { unfold next_from. fold n. destruct (Z.ltb_spec (from_idx rq + count rq) n);
      [by rewrite decide_True|by rewrite decide_False by lia]. }
  assert (Hprev : prev_from rq = (if decide (count rq ≤ from_idx rq)
                                  then Some (from_idx rq - count rq) else None)).
  { unfold prev_from. destruct (Z.geb_spec (from_idx rq - count rq) 0);
      [by rewrite decide_True by lia|by rewrite decide_False by lia]. }
  split; [done|]. split; [|split; [|split; [done|]]].
  - intros q. rewrite Hnext.
    destruct (decide (from_idx rq + count rq < n)); [|by intros [=]]. intros [= <-].
    split; [lia|]. apply Hclamp. lia.
  - rewrite Hnext.
    destruct (decide (from_idx rq + count rq < n)); [by intros [=]|]. intros _.
    unfold shown_matchdays. apply take_ge. rewrite length_drop. subst n. lia.
  - intros p. rewrite Hprev.
    destruct (decide (count rq ≤ from_idx rq)); [|by intros [=]]. intros [= <-].
    split; [lia|]. apply Hclamp. lia.
Qed.

Lemma paging_links_witness :
  matchdays long_season ≠ [] ∧
  prev_from long_season = None ∧ next_from long_season = None ∧
  shown_matchdays long_season = drop 5 (matchdays long_season).
Proof.
  assert (H : matchdays long_season ≠ []) by (vm_compute; discriminate).
  split; [exact H|]. split; [reflexivity|]. split; [reflexivity|].
  destruct (paging_links long_season H) as (_ & _ & Hend & _).
  exact (Hend eq_refl).
Defined.
(** ** Ranks of a matchday column *)

Lemma count_above_nonneg p l : 0 ≤ count_above p l.
Proof. unfold count_above. lia. Qed.

Lemma count_above_mono p q l : p ≤ q -> count_above q l ≤ count_above p l.
Proof.
  intros Hpq. induction l as [|e l IH]; [done|].
  rewrite !count_above_cons. repeat case_decide; lia.
Qed.

Lemma count_above_strict p x l :
  x ∈ l -> p < entry_pts x -> count_above (entry_pts x) l < count_above p l.
Proof.
  intros Hx Hp. induction l as [|e l IH]; [by apply elem_of_nil in Hx|].
  rewrite !count_above_cons. apply elem_of_cons in Hx as [<-|Hx].
  - pose proof (count_above_mono p (entry_pts x) l ltac:(lia)).
    rewrite decide_False by lia. rewrite decide_True by done. lia.
  - specialize (IH Hx). repeat case_decide; lia.
Qed.

Lemma count_above_self x l :
  x ∈ l -> count_above (entry_pts x) l < Z.of_nat (length l).
Proof.
  intros Hx. unfold count_above.
  assert (Hself : ¬ entry_pts x < entry_pts x) by lia.
  pose proof (length_filter_lt (λ y, entry_pts x < entry_pts y) l x Hx Hself). lia.
Qed.

Section ColumnRanks.

Variable rq : Request.
Variable md : Z.
Hypothesis md_shown : md ∈ shown_matchdays rq.
Hypothesis md_scored : existsb has_result (matches_of_md rq md) = true.

Local Abbreviation shown := (shown_matchdays rq).
Local Abbreviation pts uid := (pts_or_zero rq shown uid md).

Lemma column_rank uid :
  uid ∈ user_id <$> members rq ->
  get2 (rank_by_md rq shown) md uid
  = Some (1 + count_above (pts uid) (sortable rq shown md)).
Proof.
  intros Hu. apply rank_by_md_ranked; [apply shown_matchdays_NoDup|done| |done].
  by rewrite any_results_shown.
Qed.

Lemma own_entry uid :
  uid ∈ user_id <$> members rq ->
  ∃ x, x ∈ sortable rq shown md ∧ entry_pts x = pts uid.
Proof.
  intros Hu. destruct (sortable_covers rq shown md uid Hu) as (x & Hx & <-).
  exists x. split; [done|]. by apply sortable_elem.
Qed.

Lemma column_rank_bounds uid r :
  uid ∈ user_id <$> members rq ->
  get2 (rank_by_md rq shown) md uid = Some r ->
  1 ≤ r ≤ Z.of_nat (length (members rq)).
Proof.
  intros Hu. rewrite (column_rank uid Hu). intros [= <-].
  destruct (own_entry uid Hu) as (x & Hx & Hpts).
  pose proof (count_above_self x _ Hx) as Hlt. rewrite Hpts in Hlt.
  unfold sortable in Hlt at 2. rewrite length_fmap in Hlt.
  pose proof (count_above_nonneg (pts uid) (sortable rq shown md)). lia.
Qed.

Lemma column_rank_first :
  members rq ≠ [] ->
  ∃ uid, uid ∈ user_id <$> members rq ∧ get2 (rank_by_md rq shown) md uid = Some 1.
Proof.
  intros Hne.
  destruct (sort_entries (sortable rq shown md)) as [|x0 rest] eqn:Hsort.
  { exfalso. pose proof (sort_entries_perm (sortable rq shown md)) as Hp.
    rewrite Hsort in Hp. apply Permutation_nil_l in Hp.
    unfold sortable in Hp. symmetry in Hp. apply fmap_nil_inv in Hp. done. }
  assert (Hx0 : x0 ∈ sortable rq shown md).
  { rewrite <- (sort_entries_perm (sortable rq shown md)), Hsort. by left. }
  destruct (sortable_elem rq shown md x0 Hx0) as [Hu Hpts].
  exists (entry_uid x0). split; [done|].
  rewrite (column_rank _ Hu). f_equal.
  rewrite <- Hpts.
  rewrite (count_above_perm _ _ _ (symmetry (sort_entries_perm (sortable rq shown md)))).
  rewrite (count_above_at_change _ 0 x0 (sort_entries_strongly_sorted _));
    [lia|by rewrite Hsort|by left].
Qed.

Lemma column_rank_order u v ru rv :
  u ∈ user_id <$> members rq -> v ∈ user_id <$> members rq ->
  get2 (rank_by_md rq shown) md u = Some ru ->
  get2 (rank_by_md rq shown) md v = Some rv ->
  (ru < rv <-> pts v < pts u) ∧ (ru = rv <-> pts u = pts v).
Proof.
  intros Hu Hv. rewrite (column_rank u Hu), (column_rank v Hv).
  intros [= <-] [= <-].
  destruct (own_entry u Hu) as (xu & Hxu & Hpu).
  destruct (own_entry v Hv) as (xv & Hxv & Hpv).
  assert (Hlt : ∀ p q, q < p ->
            (∃ x, x ∈ sortable rq shown md ∧ entry_pts x = p) ->
            count_above p (sortable rq shown md) < count_above q (sortable rq shown md)).
  { intros p q Hqp (x & Hx & <-). by apply count_above_strict. }
  destruct (Z.lt_trichotomy (pts u) (pts v)) as [H|[H|H]].
  - pose proof (Hlt (pts v) (pts u) H ltac:(by exists xv)). split; split; lia.
  - rewrite H. split; split; lia.
  - pose proof (Hlt (pts u) (pts v) H ltac:(by exists xu)). split; split; lia.
Qed.

End ColumnRanks.

(** X9. On a shown matchday with at least one result the ranks of the group
    lie between 1 and the number of its users, and some user has rank 1. *)
Theorem matchday_ranks_in_range (rq : Request) (md : Z) :
  md ∈ shown_matchdays rq ->
  existsb has_result (matches_of_md rq md) = true ->
  (∀ uid r, uid ∈ user_id <$> members rq ->
     get2 (rank_by_md rq (shown_matchdays rq)) md uid = Some r ->
     1 ≤ r ≤ Z.of_nat (length (members rq))) ∧
  (members rq ≠ [] ->
   ∃ uid, uid ∈ user_id <$> members rq
          ∧ get2 (rank_by_md rq (shown_matchdays rq)) md uid = Some 1).
Proof.
  intros Hmd Hres. split.
  - intros uid r. by apply column_rank_bounds.
  - by apply column_rank_first.
Qed.

Lemma matchday_ranks_in_range_witness :
  3 ∈ shown_matchdays sample_after ∧
  existsb has_result (matches_of_md sample_after 3) = true ∧
  1 ≤ 2 ≤ Z.of_nat (length (members sample_after)).
Proof.
  assert (Hmd : 3 ∈ shown_matchdays sample_after) by by_evaluation.
  assert (Hu : 2 ∈ user_id <$> members sample_after) by by_evaluation.
  split; [exact Hmd|]. split; [reflexivity|].
  exact (proj1 (matchday_ranks_in_range sample_after 3 Hmd eq_refl) 2 2 Hu eq_refl).
Defined.

(** X10. On a shown matchday with at least one result the ranks follow the
    matchday points: of two users the one with more points has the smaller
    rank, and two users share a rank exactly when they have the same points. *)
Theorem matchday_ranks_follow_points (rq : Request) (md u v ru rv : Z) :
  md ∈ shown_matchdays rq ->
  existsb has_result (matches_of_md rq md) = true ->
  u ∈ user_id <$> members rq -> v ∈ user_id <$> members rq ->
  get2 (rank_by_md rq (shown_matchdays rq)) md u = Some ru ->
  get2 (rank_by_md rq (shown_matchdays rq)) md v = Some rv ->
  let pts := λ uid, default 0 (get2 (md_points rq (shown_matchdays rq)) uid md) in
  (ru < rv <-> pts v < pts u) ∧ (ru = rv <-> pts u = pts v).
Proof.
  intros Hmd Hres Hu Hv Hru Hrv pts.
  exact (column_rank_order rq md Hmd Hres u v ru rv Hu Hv Hru Hrv).
Qed.

Lemma matchday_ranks_follow_points_witness :
  get2 (rank_by_md sample_after shown_after) 4 1 = Some 2 ∧
  get2 (rank_by_md sample_after shown_after) 4 2 = Some 1 ∧
  (1 < 2 <-> default 0 (get2 (md_points sample_after shown_after) 1 4)
             < default 0 (get2 (md_points sample_after shown_after) 2 4)).
Proof.
  assert (Hmd : 4 ∈ shown_matchdays sample_after) by by_evaluation.
  assert (Hu : 1 ∈ user_id <$> members sample_after) by by_evaluation.
  assert (Hv : 2 ∈ user_id <$> members sample_after) by by_evaluation.
  split; [reflexivity|]. split; [reflexivity|].
  exact (proj1 (matchday_ranks_follow_points sample_after 4 2 1 1 2
                  Hmd eq_refl Hv Hu eq_refl eq_refl)).
Defined.
(** ** Columns without a result, and the size of a matchday aggregate *)

(** X11. In the column of a shown matchday on which no match has a result,
    every user of the group has no points, no rank and no rank delta, and
    the column after it has no rank delta either. *)
Theorem unscored_column_is_blank (rq : Request) (i : nat) (md uid : Z) :
  shown_matchdays rq !! i = Some md ->
  existsb has_result (matches_of_md rq md) = false ->
  uid ∈ user_id <$> members rq ->
  let shown := shown_matchdays rq in
  get2 (md_points rq shown) uid md = None ∧
  get2 (rank_by_md rq shown) md uid = None ∧
  get2 (rankdiff_by_md rq shown) md uid = None ∧
  (∀ md', shown !! S i = Some md' -> get2 (rankdiff_by_md rq shown) md' uid = None).
Proof.
  intros Hi Hres Hu shown. subst shown.
  assert (Hmd : md ∈ shown_matchdays rq) by (by eapply list_elem_of_lookup_2).
  assert (Hrank : get2 (rank_by_md rq (shown_matchdays rq)) md uid = None).
  { apply rank_by_md_unranked; [apply shown_matchdays_NoDup|done|].
    by rewrite any_results_shown. }
  split; [by rewrite (md_points_value rq _ uid md Hu Hmd), Hres|].
  split; [done|]. split.
  - rewrite (rankdiff_lookup rq _ (shown_matchdays_NoDup rq) i md uid Hi Hu).
    unfold rankdiff_cell. rewrite Hrank. by case_match.
  - intros md' Hi'.
    rewrite (rankdiff_lookup rq _ (shown_matchdays_NoDup rq) (S i) md' uid Hi' Hu).
    unfold rankdiff_cell. simpl. rewrite Nat.sub_0_r, Hi, Hrank. by case_match.
Qed.

Lemma unscored_column_is_blank_witness :
  shown_matchdays sample_after !! 2%nat = Some 5 ∧
  existsb has_result (matches_of_md sample_after 5) = false ∧
  get2 (rank_by_md sample_after shown_after) 5 1 = None.
Proof.
  assert (Hu : 1 ∈ user_id <$> members sample_after) by by_evaluation.
  split; [reflexivity|]. split; [reflexivity|].
  exact (proj1 (proj2 (unscored_column_is_blank sample_after 2 5 1 eq_refl eq_refl Hu))).
Defined.

Lemma scored_bounds rq shown uid (ms : list Match) :
  0 ≤ scored rq shown uid ms
    ≤ 4 * Z.of_nat (length (filter (λ m, has_result m = true) ms)).
Proof.
  unfold scored. induction ms as [|m ms IH]; [done|].
  rewrite fmap_cons, sum_Z_cons, filter_cons.
  pose proof (points_range m (pred_map rq shown !! (uid, match_id m))) as Hr.
  rewrite !elem_of_cons, elem_of_nil in Hr.
  destruct (has_result m) eqn:Hm.
  - rewrite decide_True by done. simpl length. lia.
  - rewrite decide_False by done.
    rewrite (points_without_result m _ Hm). lia.
Qed.

(** X12. A matchday aggregate that is a number lies between 0 and 4 times
    the number of matches of the matchday that have a result. *)
Theorem md_points_range (rq : Request) (uid md v : Z) :
  uid ∈ user_id <$> members rq ->
  md ∈ shown_matchdays rq ->
  get2 (md_points rq (shown_matchdays rq)) uid md = Some v ->
  0 ≤ v ≤ 4 * Z.of_nat (length (filter (λ m, has_result m = true) (matches_of_md rq md))).
Proof.
  intros Hu Hmd. rewrite (md_points_value rq _ uid md Hu Hmd).
  case_match; [|done]. intros [= <-]. apply scored_bounds.
Qed.

Lemma md_points_range_witness :
  get2 (md_points sample_after shown_after) 1 3 = Some 4 ∧
  0 ≤ 4 ≤ 4 * Z.of_nat (length (filter (λ m, has_result m = true)
                                       (matches_of_md sample_after 3))).
Proof.
  assert (Hu : 1 ∈ user_id <$> members sample_after) by by_evaluation.
  assert (Hmd : 3 ∈ shown_matchdays sample_after) by by_evaluation.
  split; [reflexivity|].
  exact (md_points_range sample_after 1 3 4 Hu Hmd eq_refl).
Defined.
(** ** Looking predictions up, and paging *)

Lemma insert_loop_last {A K} `{Countable K} (key : A -> K) (l : list A) :
  ∀ (d : gmap K A) k,
  foldl (λ acc p, <[key p := p]> acc) d l !! k
  = match last (filter (λ p, key p = k) l) with
    | Some p => Some p
    | None => d !! k
    end.
Proof.
  induction l as [|x l IH]; intros d k; cbn [foldl]; [done|].
  rewrite IH, filter_cons. destruct (decide (key x = k)) as [Hk|Hk].
  - destruct (filter (λ p, key p = k) l) as [|y r] eqn:Hf.
    + simpl. by rewrite Hk, lookup_insert_eq.
    + rewrite last_cons_cons. destruct (last (y :: r)) eqn:E; [done|].
      by apply last_None in E.
  - by rewrite lookup_insert_ne by done.
Qed.

(** A dict built by [d[(p.user_id, p.match_id)] = p] over the rows with
    [keep], read at a key whose rows all pass [keep]. *)
Lemma pred_dict_lookup (rq : Request) (keep : Prediction -> Prop)
    `{!∀ p, Decision (keep p)} (uid mid : Z) :
  (∀ p, pred_group p = req_group rq -> pred_user_id p = uid ->
        pred_match_id p = mid -> keep p) ->
  (∀ p, keep p -> pred_group p = req_group rq) ->
  foldl (λ acc p, <[(pred_user_id p, pred_match_id p) := p]> acc)
        (∅ : gmap (Z * Z) Prediction)
        (filter keep (db_predictions rq)) !! (uid, mid)
  = last (filter (λ p, pred_group p = req_group rq ∧ pred_user_id p = uid
                       ∧ pred_match_id p = mid) (db_predictions rq)).
Proof.
  intros Hkeep Hgroup.
  rewrite (insert_loop_last (λ p, (pred_user_id p, pred_match_id p))).
  rewrite lookup_empty, list_filter_filter.
  rewrite (list_filter_iff _ (λ p, pred_group p = req_group rq ∧ pred_user_id p = uid
                                   ∧ pred_match_id p = mid)).
  - match goal with |- context [last ?l] => by destruct (last l) end.
  - intros p. split.
    + intros [[= Hpu Hpm] Hk]. split; [by apply Hgroup|done].
    + intros (Hg & Hpu & Hpm). split; [by rewrite Hpu, Hpm|]. by apply Hkeep.
Qed.

Lemma pred_map_last (rq : Request) (shown : list Z) (uid : Z) (m : Match) :
  uid ∈ user_id <$> members rq ->
  m ∈ matches rq shown ->
  pred_map rq shown !! (uid, match_id m)
  = last (filter (λ p, pred_group p = req_group rq ∧ pred_user_id p = uid
                       ∧ pred_match_id p = match_id m) (db_predictions rq)).
Proof.
  intros Hu Hm. unfold pred_map, all_preds. apply pred_dict_lookup.
  - intros p Hg Hpu Hpm. split; [done|]. split; [|by rewrite Hpu].
    rewrite Hpm. unfold match_ids. by apply list_elem_of_fmap_2.
  - by intros p (Hg & _ & _).
Qed.

(** X13. The prediction the loops look up for a user of the group and a
    match of the window is the user's own prediction for that match in the
    group, the last such row of the table, and nothing when there is none;
    it does not depend on the window. *)
Theorem pred_map_lookup (rq : Request) (shown : list Z) (uid : Z) (m : Match) :
  uid ∈ user_id <$> members rq ->
  m ∈ matches rq shown ->
  pred_map rq shown !! (uid, match_id m)
  = last (filter (λ p, pred_group p = req_group rq ∧ pred_user_id p = uid
                       ∧ pred_match_id p = match_id m) (db_predictions rq)).
Proof. apply pred_map_last. Qed.

Lemma pred_map_lookup_witness :
  1 ∈ user_id <$> members sample_after ∧
  mk_match 3 1 (Some 4) (Some 0) (Some 0) ∈ matches sample_after shown_after ∧
  pred_map sample_after shown_after !! (1, 3) = Some (mk_pred 1 1 3 (Some 1) (Some 1)).
Proof.
  assert (Hu : 1 ∈ user_id <$> members sample_after) by by_evaluation.
  assert (Hm : mk_match 3 1 (Some 4) (Some 0) (Some 0) ∈ matches sample_after shown_after).
  { apply list_elem_of_filter. split; [split; reflexivity|].
    by apply (list_elem_of_lookup_2 _ 2%nat). }
  split; [exact Hu|]. split; [exact Hm|].
  exact (pred_map_lookup sample_after shown_after 1 _ Hu Hm).
Defined.

Section TwoWindows.

Variable rq : Request.
Variables shown shown' : list Z.
Variable md : Z.
Hypothesis md_shown : md ∈ shown.
Hypothesis md_shown' : md ∈ shown'.

Lemma matches_of_md_in_window (s : list Z) m :
  md ∈ s -> m ∈ matches_of_md rq md -> m ∈ matches rq s.
Proof.
  intros Hs Hm. rewrite <- (matches_by_md_shown rq s md Hs) in Hm.
  rewrite matches_by_md_lookup in Hm. by apply list_elem_of_filter in Hm as [_ Hm].
Qed.

Lemma scored_window uid :
  uid ∈ user_id <$> members rq ->
  scored rq shown uid (matches_of_md rq md) = scored rq shown' uid (matches_of_md rq md).
Proof.
  intros Hu. unfold scored. apply sum_Z_ext. intros m Hm.
  rewrite (pred_map_last rq shown uid m Hu (matches_of_md_in_window shown m md_shown Hm)).
  by rewrite (pred_map_last rq shown' uid m Hu
                (matches_of_md_in_window shown' m md_shown' Hm)).
Qed.

Lemma md_points_window uid :
  uid ∈ user_id <$> members rq ->
  get2 (md_points rq shown) uid md = get2 (md_points rq shown') uid md.
Proof.
  intros Hu. rewrite !md_points_value by done. by rewrite scored_window.
Qed.

Lemma sortable_window : sortable rq shown md = sortable rq shown' md.
Proof.
  unfold sortable. apply list_fmap_ext. intros i u Hi.
  unfold pts_or_zero. rewrite md_points_window; [done|].
  apply list_elem_of_fmap_2. by eapply list_elem_of_lookup_2.
Qed.

Lemma rank_window uid :
  NoDup shown -> NoDup shown' -> uid ∈ user_id <$> members rq ->
  get2 (rank_by_md rq shown) md uid = get2 (rank_by_md rq shown') md uid.
Proof.
  intros Hnd Hnd' Hu.
  destruct (existsb has_result (matches_of_md rq md)) eqn:Hres.
  - rewrite !rank_by_md_ranked by (done || by rewrite any_results_shown).
    unfold pts_or_zero. by rewrite sortable_window, md_points_window.
  - by rewrite !rank_by_md_unranked by (done || by rewrite any_results_shown).
Qed.

End TwoWindows.

(** X14. Paging does not change a column: a matchday shown under two
    settings of the paging parameters has, for every user of the group, the
    same points and the same rank in both. *)
Theorem column_independent_of_paging (rq : Request) (from_ count_ : option Z)
    (md uid : Z) :
  md ∈ shown_matchdays rq ->
  md ∈ shown_matchdays (with_paging rq from_ count_) ->
  uid ∈ user_id <$> members rq ->
  let rq' := with_paging rq from_ count_ in
  get2 (md_points rq' (shown_matchdays rq')) uid md
    = get2 (md_points rq (shown_matchdays rq)) uid md ∧
  get2 (rank_by_md rq' (shown_matchdays rq')) md uid
    = get2 (rank_by_md rq (shown_matchdays rq)) md uid.
Proof.
  intros Hmd Hmd' Hu rq'. split.
  - exact (md_points_window rq _ _ md Hmd' Hmd uid Hu).
  - exact (rank_window rq _ _ md Hmd' Hmd uid
             (shown_matchdays_NoDup rq') (shown_matchdays_NoDup rq) Hu).
Qed.

Lemma column_independent_of_paging_witness :
  4 ∈ shown_matchdays sample_after ∧
  shown_matchdays (with_paging sample_after (Some 1) (Some 4)) = [4; 5] ∧
  get2 (rank_by_md (with_paging sample_after (Some 1) (Some 4))
          (shown_matchdays (with_paging sample_after (Some 1) (Some 4)))) 4 2
  = get2 (rank_by_md sample_after (shown_matchdays sample_after)) 4 2.
Proof.
  assert (H1 : 4 ∈ shown_matchdays sample_after) by by_evaluation.
  assert (H2 : 4 ∈ shown_matchdays (with_paging sample_after (Some 1) (Some 4)))
    by by_evaluation.
  assert (Hu : 2 ∈ user_id <$> members sample_after) by by_evaluation.
  split; [exact H1|]. split; [reflexivity|].
  exact (proj2 (column_independent_of_paging sample_after (Some 1) (Some 4) 4 2 H1 H2 Hu)).
Defined.

(** ** The bonus gate in time *)

(** X15. The bonus gate opens at the season start and stays open: it is
    closed while no season start is set, open at the very moment of the
    season start, and open at every later time once it is open. *)
Theorem bonus_reveal_monotone (rq : Request) :
  (season_start (req_tournament rq) = None ->
     ∀ now, bonus_reveal (with_now rq now) = false) ∧
  (∀ s, season_start (req_tournament rq) = Some s ->
     bonus_reveal (with_now rq s) = true
     ∧ ∀ now, now < s -> bonus_reveal (with_now rq now) = false) ∧
  (∀ now now', now ≤ now' ->
     bonus_reveal (with_now rq now) = true -> bonus_reveal (with_now rq now') = true).
Proof.
  unfold bonus_reveal. simpl. split; [by intros ->|]. split.
  - intros s ->. split; [by apply bool_decide_eq_true|].
    intros now Hnow. apply bool_decide_eq_false. lia.
  - intros now now' Hle. destruct (season_start (req_tournament rq)); [|done].
    rewrite !bool_decide_eq_true. lia.
Qed.

Lemma bonus_reveal_monotone_witness :
  100 ≤ 200 ∧ bonus_reveal (with_now sample_before 100) = true ∧
  bonus_reveal (with_now sample_before 200) = true.
Proof.
  split; [lia|]. split; [reflexivity|].
  apply (proj2 (proj2 (bonus_reveal_monotone sample_before)) 100 200); [lia|reflexivity].
Defined.
(** ** The rows of the season table *)

Lemma tuple_leb_le a b : tuple_leb a b = true <-> tuple_le a b.
Proof.
  unfold tuple_leb, tuple_le.
  rewrite orb_true_iff, andb_true_iff, Z.ltb_lt, Z.eqb_eq. tauto.
Qed.

Lemma tuple_leb_false_flip a b : tuple_leb a b = false -> tuple_le b a.
Proof.
  unfold tuple_leb, tuple_le. intros H.
  apply orb_false_iff in H as [H1 H2]. apply Z.ltb_ge in H1.
  apply andb_false_iff in H2 as [H2|H2].
  - apply Z.eqb_neq in H2. left; lia.
  - destruct (decide (a.1 = b.1)) as [E|E]; [|left; lia].
    right. split; [done|]. by apply string_leb_false_flip.
Qed.

Global Instance tuple_le_trans : Transitive tuple_le.
Proof.
  intros x y z [H1|[H1 H1']] [H2|[H2 H2']].
  - left; lia.
  - left; lia.
  - left; lia.
  - right. split; [lia|]. by eapply string_leb_trans.
Qed.

Section SortByFacts.

Context {A : Type}.
Variable key : A -> Z * string.

Local Abbreviation before := (λ x y : A, tuple_le (key x) (key y)).

Lemma insert_by_perm x l : insert_by key x l ≡ₚ x :: l.
Proof.
  induction l as [|y l IH]; simpl; [done|].
  destruct (tuple_leb (key x) (key y)); [done|]. rewrite IH. apply perm_swap.
Qed.

Lemma sort_by_perm l : sort_by key l ≡ₚ l.
Proof.
  induction l as [|x l IH]; simpl; [done|].
  rewrite insert_by_perm. by rewrite IH.
Qed.

Lemma insert_by_sorted x l :
  Sorted before l -> Sorted before (insert_by key x l).
Proof.
  induction 1 as [|y l Hs IH Hhd]; simpl; [by repeat constructor|].
  destruct (tuple_leb (key x) (key y)) eqn:E.
  - constructor; [by constructor|]. constructor. by apply tuple_leb_le.
  - constructor; [done|].
    apply tuple_leb_false_flip in E.
    destruct l as [|z l]; simpl; [by constructor|].
    destruct (tuple_leb (key x) (key z)); constructor; [done|]. by inversion Hhd.
Qed.

Lemma sort_by_sorted l : StronglySorted before (sort_by key l).
Proof.
  apply Sorted_StronglySorted.
  - intros x y z. apply tuple_le_trans.
  - induction l as [|x l IH]; simpl; [constructor|]. by apply insert_by_sorted.
Qed.

End SortByFacts.



(** A tournament whose matches have no matchday: the table is empty although
    the group has users. *)
Example sample_table_empty :
  matchdays sample_unassigned = [] ∧ members sample_unassigned ≠ [] ∧
  table_rows sample_unassigned None = [].
Proof. by vm_compute. Qed.

(** The sample table after the season start: ana 16, Ben 12, cid 0. *)
Example sample_table :
  (λ r, (username (row_user r), row_total r, row_bonus r))
    <$> table_rows sample_after (Some "ranks")
  = [("ana", 16, Some 5); ("Ben", 12, Some 5); ("cid", 0, Some 0)].
Proof. vm_compute. reflexivity. Qed.
(** ** Choosing the matchday of a page *)

Lemma max_of_loop (l : list Z) : ∀ acc,
  match foldl (λ best x, match best with
                         | None => Some x
                         | Some b => if b <? x then Some x else best
                         end) acc l with
  | None => acc = None ∧ l = []
  | Some b => (acc = Some b ∨ b ∈ l)
              ∧ (∀ a, acc = Some a -> a ≤ b) ∧ (∀ x, x ∈ l -> x ≤ b)
  end.
Proof.
  induction l as [|x l IH]; intros acc; cbn [foldl].
  - destruct acc as [a|]; [|done]. split; [by left|]. split; [by intros ? [= ->]|].
    by intros x Hx%elem_of_nil.
  - specialize (IH (match acc with
                    | None => Some x
                    | Some b => if b <? x then Some x else acc
                    end)).
    destruct (foldl _ _ l) as [b|].
    + destruct IH as (Hb & Hacc & Hl). destruct acc as [a|].
      * destruct (Z.ltb_spec a x).
        -- specialize (Hacc x eq_refl). split; [|split].
           ++ destruct Hb as [[= <-]|Hb]; right; [by left|by right].
           ++ intros ? [= <-]. lia.
           ++ intros y [->|Hy]%elem_of_cons; [done|by apply Hl].
        -- specialize (Hacc a eq_refl). split; [|split].
           ++ destruct Hb as [Hb|Hb]; [by left|right; by right].
           ++ by intros ? [= <-].
           ++ intros y [->|Hy]%elem_of_cons; [lia|by apply Hl].
      * specialize (Hacc x eq_refl). split; [|split; [done|]].
        -- destruct Hb as [[= <-]|Hb]; right; [by left|by right].
        -- intros y [->|Hy]%elem_of_cons; [done|by apply Hl].
    + destruct IH as [Hacc _]. by destruct acc as [a|]; [destruct (a <? x)|].
Qed.

Lemma max_of_spec (l : list Z) :
  match max_of l with
  | None => l = []
  | Some b => b ∈ l ∧ ∀ x, x ∈ l -> x ≤ b
  end.
Proof.
  unfold max_of. pose proof (max_of_loop l None) as H.
  destruct (foldl _ None l) as [b|]; [|by destruct H].
  destruct H as ([?|?] & _ & ?); done.
Qed.

Lemma min_of_loop (l : list Z) : ∀ acc,
  match foldl (λ best x, match best with
                         | None => Some x
                         | Some b => if x <? b then Some x else best
                         end) acc l with
  | None => acc = None ∧ l = []
  | Some b => (acc = Some b ∨ b ∈ l)
              ∧ (∀ a, acc = Some a -> b ≤ a) ∧ (∀ x, x ∈ l -> b ≤ x)
  end.
Proof.
  induction l as [|x l IH]; intros acc; cbn [foldl].
  - destruct acc as [a|]; [|done]. split; [by left|]. split; [by intros ? [= ->]|].
    by intros x Hx%elem_of_nil.
  - specialize (IH (match acc with
                    | None => Some x
                    | Some b => if x <? b then Some x else acc
                    end)).
    destruct (foldl _ _ l) as [b|].
    + destruct IH as (Hb & Hacc & Hl). destruct acc as [a|].
      * destruct (Z.ltb_spec x a).
        -- specialize (Hacc x eq_refl). split; [|split].
           ++ destruct Hb as [[= <-]|Hb]; right; [by left|by right].
           ++ intros ? [= <-]. lia.
           ++ intros y [->|Hy]%elem_of_cons; [done|by apply Hl].
        -- specialize (Hacc a eq_refl). split; [|split].
           ++ destruct Hb as [Hb|Hb]; [by left|right; by right].
           ++ by intros ? [= <-].
           ++ intros y [->|Hy]%elem_of_cons; [lia|by apply Hl].
      * specialize (Hacc x eq_refl). split; [|split; [done|]].
        -- destruct Hb as [[= <-]|Hb]; right; [by left|by right].
        -- intros y [->|Hy]%elem_of_cons; [done|by apply Hl].
    + destruct IH as [Hacc _]. by destruct acc as [a|]; [destruct (x <? a)|].
Qed.

Lemma min_of_spec (l : list Z) :
  match min_of l with
  | None => l = []
  | Some b => b ∈ l ∧ ∀ x, x ∈ l -> b ≤ x
  end.
Proof.
  unfold min_of. pose proof (min_of_loop l None) as H.
  destruct (foldl _ None l) as [b|]; [|by destruct H].
  destruct H as ([?|?] & _ & ?); done.
Qed.

Lemma earliest_loop (kickoff : Match -> Z) (l : list Match) : ∀ acc,
  match foldl (λ best m, match best with
                         | None => Some m
                         | Some b => if kickoff m <? kickoff b then Some m else best
                         end) acc l with
  | None => acc = None ∧ l = []
  | Some b => (acc = Some b ∨ b ∈ l)
              ∧ (∀ a, acc = Some a -> kickoff b ≤ kickoff a)
              ∧ (∀ x, x ∈ l -> kickoff b ≤ kickoff x)
  end.
Proof.
  induction l as [|x l IH]; intros acc; cbn [foldl].
  - destruct acc as [a|]; [|done]. split; [by left|]. split; [by intros ? [= ->]|].
    by intros x Hx%elem_of_nil.
  - specialize (IH (match acc with
                    | None => Some x
                    | Some b => if kickoff x <? kickoff b then Some x else acc
                    end)).
    destruct (foldl _ _ l) as [b|].
    + destruct IH as (Hb & Hacc & Hl). destruct acc as [a|].
      * destruct (Z.ltb_spec (kickoff x) (kickoff a)).
        -- specialize (Hacc x eq_refl). split; [|split].
           ++ destruct Hb as [[= <-]|Hb]; right; [by left|by right].
           ++ intros ? [= <-]. lia.
           ++ intros y [->|Hy]%elem_of_cons; [done|by apply Hl].
        -- specialize (Hacc a eq_refl). split; [|split].
           ++ destruct Hb as [Hb|Hb]; [by left|right; by right].
           ++ by intros ? [= <-].
           ++ intros y [->|Hy]%elem_of_cons; [lia|by apply Hl].
      * specialize (Hacc x eq_refl). split; [|split; [done|]].
        -- destruct Hb as [[= <-]|Hb]; right; [by left|by right].
        -- intros y [->|Hy]%elem_of_cons; [done|by apply Hl].
    + destruct IH as [Hacc _].
      by destruct acc as [a|]; [destruct (kickoff x <? kickoff a)|].
Qed.

Lemma earliest_spec (kickoff : Match -> Z) (l : list Match) :
  match earliest kickoff l with
  | None => l = []
  | Some b => b ∈ l ∧ ∀ x, x ∈ l -> kickoff b ≤ kickoff x
  end.
Proof.
  unfold earliest. pose proof (earliest_loop kickoff l None) as H.
  destruct (foldl _ None l) as [b|]; [|by destruct H].
  destruct H as ([?|?] & _ & ?); done.
Qed.

Lemma last_sorted_max (l : list Z) b :
  StronglySorted Z.lt l -> b ∈ l -> (∀ x, x ∈ l -> x ≤ b) -> last l = Some b.
Proof.
  induction 1 as [|a l Hs IH Hall]; intros Hb Hmax; [by apply elem_of_nil in Hb|].
  destruct l as [|a' l'].
  - apply list_elem_of_singleton in Hb. by subst.
  - rewrite last_cons_cons. apply IH.
    + apply elem_of_cons in Hb as [->|Hb]; [|done].
      rewrite Forall_forall in Hall. specialize (Hall a' ltac:(by left)).
      specialize (Hmax a' ltac:(right; by left)). lia.
    + intros x Hx. apply Hmax. by right.
Qed.

Section NavFacts.

Variable rq : Request.
Variable kickoff : Match -> Z.

Lemma omap_matchday_elem md :
  md ∈ omap matchday (tournament_matches rq) <-> md ∈ matchdays rq.
Proof. rewrite elem_of_matchdays. apply list_elem_of_omap. Qed.

Lemma md_exists_spec md : md_exists rq md = true <-> md ∈ matchdays rq.
Proof.
  unfold md_exists. rewrite bool_decide_eq_true, Exists_exists, elem_of_matchdays. done.
Qed.

Lemma last_md_spec : last_md rq = last (matchdays rq).
Proof.
  unfold last_md. pose proof (max_of_spec (omap matchday (tournament_matches rq))) as H.
  destruct (max_of _) as [b|].
  - destruct H as [Hb Hmax]. symmetry. apply last_sorted_max.
    + apply matchdays_sorted.
    + by apply omap_matchday_elem.
    + intros x Hx. apply Hmax. by apply omap_matchday_elem.
  - symmetry. apply last_None. unfold matchdays. by rewrite H.
Qed.

Lemma next_match_spec :
  match next_match rq kickoff with
  | None => ∀ m, m ∈ tournament_matches rq -> req_now rq ≤ kickoff m ->
                 matchday m = None
  | Some m => m ∈ tournament_matches rq ∧ req_now rq ≤ kickoff m
              ∧ is_Some (matchday m)
              ∧ ∀ m', m' ∈ tournament_matches rq -> req_now rq ≤ kickoff m' ->
                      is_Some (matchday m') -> kickoff m ≤ kickoff m'
  end.
Proof.
  unfold next_match.
  pose proof (earliest_spec kickoff
                (filter (λ m, req_now rq ≤ kickoff m ∧ is_Some (matchday m))
                        (tournament_matches rq))) as H.
  destruct (earliest _ _) as [m|].
  - destruct H as [[[Hnow Hmd] Hm]%list_elem_of_filter Hmin].
    repeat (split; [done|]). intros m' Hm' Hnow' Hmd'. apply Hmin.
    by apply list_elem_of_filter.
  - intros m Hm Hnow. destruct (matchday m) as [d|] eqn:Hd; [|done]. exfalso.
    assert (Hin : m ∈ filter (λ m, req_now rq ≤ kickoff m ∧ is_Some (matchday m))
                         (tournament_matches rq)).
    { apply list_elem_of_filter. rewrite Hd. by repeat split; [|eexists|]. }
    rewrite H in Hin. by apply elem_of_nil in Hin.
Qed.

Lemma default_matchday_elem md :
  default_matchday rq kickoff = Some md -> md ∈ matchdays rq.
Proof.
  unfold default_matchday. pose proof next_match_spec as H.
  destruct (next_match rq kickoff) as [m|].
  - destruct H as (Hm & _ & _ & _). intros Hmd.
    apply elem_of_matchdays. by exists m.
  - rewrite last_md_spec. intros Hl. by apply last_Some_elem_of.
Qed.

Lemma default_matchday_None :
  default_matchday rq kickoff = None <-> matchdays rq = [].
Proof.
  unfold default_matchday. pose proof next_match_spec as H.
  destruct (next_match rq kickoff) as [m|].
  - destruct H as (Hm & _ & [d Hd] & _). rewrite Hd. split; [done|].
    intros Hnil. assert (d ∈ matchdays rq) as Hin.
    { apply elem_of_matchdays. by exists m. }
    rewrite Hnil in Hin. by apply elem_of_nil in Hin.
  - rewrite last_md_spec. apply last_None.
Qed.

End NavFacts.

(** X17. The matchday chosen for a page always exists: the choice is none
    exactly when the tournament has no match with a matchday, and otherwise
    it is a matchday of the tournament, so the page has at least one match. *)
Theorem selected_matchday_exists (rq : Request) (kickoff : Match -> Z)
    (md_param : option Z) :
  (_get_selected_matchday rq kickoff md_param = None <-> matchdays rq = []) ∧
  (∀ md, _get_selected_matchday rq kickoff md_param = Some md ->
     md ∈ matchdays rq ∧ matches_of_md rq md ≠ []).
Proof.
  assert (Hsome : ∀ md, _get_selected_matchday rq kickoff md_param = Some md ->
                        md ∈ matchdays rq).
  { intros md. unfold _get_selected_matchday.
    destruct md_param as [sel|]; [|apply default_matchday_elem].
    destruct (md_exists rq sel) eqn:He; [|apply default_matchday_elem].
    intros [= <-]. by apply md_exists_spec. }
  split.
  - unfold _get_selected_matchday.
    destruct md_param as [sel|]; [|apply default_matchday_None].
    destruct (md_exists rq sel) eqn:He; [|apply default_matchday_None].
    split; [done|]. intros Hnil. apply md_exists_spec in He.
    rewrite Hnil in He. by apply elem_of_nil in He.
  - intros md Hmd. split; [by apply Hsome|].
    apply Hsome, elem_of_matchdays in Hmd as (m & Hm & Hd).
    intros Hnil. assert (m ∈ matches_of_md rq md) as Hin.
    { unfold matches_of_md. by apply list_elem_of_filter. }
    rewrite Hnil in Hin. by apply elem_of_nil in Hin.
Qed.

(** X18. An explicit matchday parameter is honoured exactly when the
    tournament has that matchday; otherwise the page falls back to the
    default, as if no parameter had been given.  The default is the
    matchday of a match with the earliest kickoff among the matches with a
    matchday that have not started (kickoff at or after now), and the last
    matchday of the tournament when every such match has started. *)
Theorem selected_matchday_choice (rq : Request) (kickoff : Match -> Z) :
  (∀ sel, sel ∈ matchdays rq ->
     _get_selected_matchday rq kickoff (Some sel) = Some sel) ∧
  (∀ sel, sel ∉ matchdays rq ->
     _get_selected_matchday rq kickoff (Some sel)
     = _get_selected_matchday rq kickoff None) ∧
  ((∃ m, m ∈ tournament_matches rq ∧ req_now rq ≤ kickoff m ∧ is_Some (matchday m)) ->
   ∃ m, m ∈ tournament_matches rq ∧ req_now rq ≤ kickoff m
        ∧ is_Some (matchday m)
        ∧ _get_selected_matchday rq kickoff None = matchday m
        ∧ ∀ m', m' ∈ tournament_matches rq -> req_now rq ≤ kickoff m' ->
                is_Some (matchday m') -> kickoff m ≤ kickoff m') ∧
  ((∀ m, m ∈ tournament_matches rq -> req_now rq ≤ kickoff m -> matchday m = None) ->
   _get_selected_matchday rq kickoff None = last (matchdays rq)).
Proof.
  split; [|split; [|split]].
  - intros sel Hsel. unfold _get_selected_matchday.
    by rewrite (proj2 (md_exists_spec rq sel) Hsel).
  - intros sel Hsel. unfold _get_selected_matchday.
    destruct (md_exists rq sel) eqn:He; [|done]. by apply md_exists_spec in He.
  - intros (m0 & Hm0 & Hnow0 & Hmd0). unfold _get_selected_matchday, default_matchday.
    pose proof (next_match_spec rq kickoff) as H.
    destruct (next_match rq kickoff) as [m|].
    + exists m. destruct H as (Hm & Hnow & Hmd & Hmin). done.
    + rewrite (H m0 Hm0 Hnow0) in Hmd0. by destruct Hmd0.
  - intros Hnone. unfold _get_selected_matchday, default_matchday.
    pose proof (next_match_spec rq kickoff) as H.
    destruct (next_match rq kickoff) as [m|]; [|apply last_md_spec].
    destruct H as (Hm & Hnow & Hmd & _). rewrite (Hnone m Hm Hnow) in Hmd.
    by destruct Hmd.
Qed.

Lemma selected_matchday_exists_witness :
  _get_selected_matchday sample_after sample_kickoff (Some 9) = Some 3 ∧
  3 ∈ matchdays sample_after ∧ matches_of_md sample_after 3 ≠ [].
Proof.
  split; [reflexivity|].
  exact (proj2 (selected_matchday_exists sample_after sample_kickoff (Some 9)) 3 eq_refl).
Defined.

Lemma selected_matchday_choice_witness :
  5 ∈ matchdays sample_after ∧
  _get_selected_matchday sample_after sample_kickoff (Some 5) = Some 5.
Proof.
  assert (H : 5 ∈ matchdays sample_after) by by_evaluation.
  split; [exact H|].
  exact (proj1 (selected_matchday_choice sample_after sample_kickoff) 5 H).
Defined.

Lemma prev_md_spec (rq : Request) (md : Z) :
  match (_prev_next_md rq md).1 with
  | Some p => p ∈ matchdays rq ∧ p < md ∧ ∀ d, d ∈ matchdays rq -> d < md -> d ≤ p
  | None => ∀ d, d ∈ matchdays rq -> md ≤ d
  end.
Proof.
  unfold _prev_next_md. cbn [fst].
  pose proof (max_of_spec (filter (λ d, d < md) (omap matchday (tournament_matches rq))))
    as H.
  destruct (max_of _) as [p|].
  - destruct H as [[Hlt Hp]%list_elem_of_filter Hmax].
    split; [by apply omap_matchday_elem|]. split; [done|].
    intros d Hd Hdlt. apply Hmax, list_elem_of_filter. split; [done|].
    by apply omap_matchday_elem.
  - intros d Hd. destruct (Z.lt_ge_cases d md) as [Hlt|Hge]; [|done]. exfalso.
    assert (Hin : d ∈ filter (λ d, d < md) (omap matchday (tournament_matches rq))).
    { apply list_elem_of_filter. split; [done|]. by apply omap_matchday_elem. }
    rewrite H in Hin. by apply elem_of_nil in Hin.
Qed.

Lemma next_md_spec (rq : Request) (md : Z) :
  match (_prev_next_md rq md).2 with
  | Some n => n ∈ matchdays rq ∧ md < n ∧ ∀ d, d ∈ matchdays rq -> md < d -> n ≤ d
  | None => ∀ d, d ∈ matchdays rq -> d ≤ md
  end.
Proof.
  unfold _prev_next_md. cbn [snd].
  pose proof (min_of_spec (filter (λ d, md < d) (omap matchday (tournament_matches rq))))
    as H.
  destruct (min_of _) as [n|].
  - destruct H as [[Hlt Hn]%list_elem_of_filter Hmin].
    split; [by apply omap_matchday_elem|]. split; [done|].
    intros d Hd Hdlt. apply Hmin, list_elem_of_filter. split; [done|].
    by apply omap_matchday_elem.
  - intros d Hd. destruct (Z.lt_ge_cases md d) as [Hlt|Hge]; [|done]. exfalso.
    assert (Hin : d ∈ filter (λ d, md < d) (omap matchday (tournament_matches rq))).
    { apply list_elem_of_filter. split; [done|]. by apply omap_matchday_elem. }
    rewrite H in Hin. by apply elem_of_nil in Hin.
Qed.

(** X19. The previous and the next matchday of a page are the neighbours of
    its matchday among the matchdays of the tournament: the greatest one
    below it and the least one above it, and none exactly when there is no
    matchday below, or above. *)
Theorem prev_next_are_neighbours (rq : Request) (md : Z) :
  let prev_md := (_prev_next_md rq md).1 in
  let next_md := (_prev_next_md rq md).2 in
  (∀ p, prev_md = Some p ->
     p ∈ matchdays rq ∧ p < md ∧ ∀ d, d ∈ matchdays rq -> d < md -> d ≤ p) ∧
  (prev_md = None <-> ∀ d, d ∈ matchdays rq -> md ≤ d) ∧
  (∀ n, next_md = Some n ->
     n ∈ matchdays rq ∧ md < n ∧ ∀ d, d ∈ matchdays rq -> md < d -> n ≤ d) ∧
  (next_md = None <-> ∀ d, d ∈ matchdays rq -> d ≤ md).
Proof.
  intros prev_md next_md. subst prev_md next_md.
  pose proof (prev_md_spec rq md) as Hp. pose proof (next_md_spec rq md) as Hn.
  destruct ((_prev_next_md rq md).1) as [p|]; destruct ((_prev_next_md rq md).2) as [n|].
  - split; [by intros ? [= <-]|]. split.
    { split; [done|]. intros Hall. destruct Hp as (Hin & Hlt & _).
      specialize (Hall p Hin). lia. }
    split; [by intros ? [= <-]|].
    split; [done|]. intros Hall. destruct Hn as (Hin & Hlt & _).
    specialize (Hall n Hin). lia.
  - split; [by intros ? [= <-]|]. split.
    { split; [done|]. intros Hall. destruct Hp as (Hin & Hlt & _).
      specialize (Hall p Hin). lia. }
    split; [by intros ? [=]|]. done.
  - split; [by intros ? [=]|]. split; [done|].
    split; [by intros ? [= <-]|].
    split; [done|]. intros Hall. destruct Hn as (Hin & Hlt & _).
    specialize (Hall n Hin). lia.
  - split; [by intros ? [=]|]. split; [done|].
    split; [by intros ? [=]|]. done.
Qed.

Lemma prev_next_are_neighbours_witness :
  _prev_next_md sample_after 4 = (Some 3, Some 5) ∧
  3 ∈ matchdays sample_after ∧ 3 < 4.
Proof.
  split; [reflexivity|].
  destruct (proj1 (prev_next_are_neighbours sample_after 4) 3 eq_refl) as (H1 & H2 & _).
  by split.
Defined.
(** ** The matchday page *)

Section PageFacts.

Variable rq : Request.
Variable kickoff : Match -> Z.
Variable md : Z.

Local Abbreviation started m := (kickoff m ≤ req_now rq).
Local Abbreviation looked_up u m := (page_pred_map rq md !! (user_id u, match_id m)).

Lemma row_loop_closed (u : User) (ms : list Match) : ∀ total cells,
  foldl (λ '(total_points, cells) m,
           let c := cell_of rq kickoff md u m in
           (match cell_points c with
            | Some cell_points => total_points + cell_points
            | None => total_points
            end,
            cells ++ [c]))
        (total, cells) ms
  = (total + sum_Z ((λ m, points_for_prediction m (looked_up u m))
                      <$> filter (λ m, started m) ms),
     cells ++ (cell_of rq kickoff md u <$> ms)).
Proof.
  induction ms as [|m ms IH]; intros total cells; cbn [foldl].
  - rewrite filter_nil. simpl. rewrite app_nil_r. f_equal. unfold sum_Z; simpl; lia.
  - cbn zeta. rewrite IH, filter_cons, fmap_cons, <- app_assoc. simpl app.
    unfold cell_of at 1. cbn [cell_points].
    destruct (Z.leb_spec (kickoff m) (req_now rq)).
    + rewrite decide_True by done. rewrite fmap_cons, sum_Z_cons. f_equal. lia.
    + rewrite decide_False by lia. done.
Qed.

Lemma page_row_total u :
  total_points (page_row_of rq kickoff md u)
  = sum_Z ((λ m, points_for_prediction m (looked_up u m))
             <$> filter (λ m, started m) (page_matches rq md)).
Proof.
  unfold page_row_of, row_loop. rewrite row_loop_closed. simpl. lia.
Qed.

Lemma page_row_cells u :
  page_cells (page_row_of rq kickoff md u)
  = cell_of rq kickoff md u <$> page_matches rq md.
Proof. unfold page_row_of, row_loop. by rewrite row_loop_closed. Qed.

Lemma page_pred_map_last uid (m : Match) :
  uid ∈ user_id <$> members rq -> m ∈ page_matches rq md ->
  page_pred_map rq md !! (uid, match_id m)
  = last (filter (λ p, pred_group p = req_group rq ∧ pred_user_id p = uid
                       ∧ pred_match_id p = match_id m) (db_predictions rq)).
Proof.
  intros Hu Hm. unfold page_pred_map, page_preds. apply pred_dict_lookup.
  - intros p Hg Hpu Hpm. split; [done|]. split; [|by rewrite Hpu].
    rewrite Hpm. by apply list_elem_of_fmap_2.
  - by intros p (Hg & _ & _).
Qed.

End PageFacts.

(** X20. On the matchday page a cell shows points exactly when its match has
    started (kickoff at or before now): then it shows the score of the
    looked-up prediction, which is 0 while the match has no result; before
    the kickoff it shows none, whatever result or prediction exists.  A
    row's matchday total is the sum of the scores of the started matches,
    between 0 and 4 times the number of started matches with a result. *)
Theorem page_row_cells_and_total (rq : Request) (kickoff : Match -> Z) (md : Z)
    (u : User) :
  let r := page_row_of rq kickoff md u in
  length (page_cells r) = length (page_matches rq md) ∧
  (∀ (i : nat) m c, page_matches rq md !! i = Some m -> page_cells r !! i = Some c ->
     cell_reveal c = bool_decide (kickoff m ≤ req_now rq)
     ∧ (req_now rq < kickoff m -> cell_points c = None)
     ∧ (kickoff m ≤ req_now rq ->
        cell_points c = Some (points_for_prediction m (cell_pred c)))
     ∧ (kickoff m ≤ req_now rq -> has_result m = false -> cell_points c = Some 0)) ∧
  total_points r
    = sum_Z ((λ m, points_for_prediction m
                     (page_pred_map rq md !! (user_id u, match_id m)))
               <$> filter (λ m, kickoff m ≤ req_now rq) (page_matches rq md)) ∧
  0 ≤ total_points r
    ≤ 4 * Z.of_nat (length (filter (λ m, kickoff m ≤ req_now rq ∧ has_result m = true)
                                   (page_matches rq md))).
Proof.
  intros r. subst r. rewrite page_row_cells, page_row_total.
  split; [by rewrite length_fmap|]. split; [|split; [done|]].
  - intros i m c Hm. rewrite list_lookup_fmap, Hm. intros [= <-].
    unfold cell_of. cbn [cell_reveal cell_points cell_pred].
    destruct (Z.leb_spec (kickoff m) (req_now rq)).
    + rewrite bool_decide_eq_true_2 by done. split; [done|]. split; [lia|].
      split; [done|]. intros _ Hres. by rewrite points_without_result.
    + rewrite bool_decide_eq_false_2 by lia. split; [done|]. split; [done|].
      split; intros; lia.
  - induction (page_matches rq md) as [|m ms IH]; [done|].
    rewrite !filter_cons.
    pose proof (points_range m (page_pred_map rq md !! (user_id u, match_id m))) as Hr.
    rewrite !elem_of_cons, elem_of_nil in Hr.
    destruct (decide (kickoff m ≤ req_now rq)) as [Hs|Hs].
    + rewrite fmap_cons, sum_Z_cons. destruct (has_result m) eqn:Hres.
      * rewrite decide_True by done. simpl length. lia.
      * rewrite decide_False by (intros [_ ?]; done).
        rewrite (points_without_result m _ Hres). lia.
    + rewrite decide_False by tauto. done.
Qed.

Lemma page_row_cells_and_total_witness :
  page_matches sample_after 3 !! 1%nat = Some (mk_match 2 1 (Some 3) None None) ∧
  sample_kickoff (mk_match 2 1 (Some 3) None None) ≤ req_now sample_after ∧
  (cell_points <$> page_cells (page_row_of sample_after sample_kickoff 3 ana) !! 1%nat)
  = Some (Some 0).
Proof.
  split; [reflexivity|]. split; [vm_compute; discriminate|].
  destruct (page_row_cells_and_total sample_after sample_kickoff 3 ana) as (_ & H & _).
  destruct (page_cells (page_row_of sample_after sample_kickoff 3 ana) !! 1%nat)
    as [c|] eqn:Hc; [|vm_compute in Hc; discriminate Hc].
  destruct (H 1%nat _ c eq_refl Hc) as (_ & _ & _ & H0).
  simpl. f_equal. apply H0; [vm_compute; discriminate|reflexivity].
Defined.

Section SortByExt.

Context {A : Type}.
Variables key key' : A -> Z * string.

Lemma insert_by_ext x l :
  key x = key' x -> (∀ y, y ∈ l -> key y = key' y) ->
  insert_by key x l = insert_by key' x l.
Proof.
  intros Hx. induction l as [|y l IH]; intros Hl; [done|]. simpl.
  rewrite Hx, (Hl y) by by left. rewrite IH; [done|]. intros z Hz. apply Hl. by right.
Qed.

Lemma sort_by_ext l :
  (∀ y, y ∈ l -> key y = key' y) -> sort_by key l = sort_by key' l.
Proof.
  induction l as [|x l IH]; intros Hl; [done|]. simpl.
  rewrite <- IH by (intros y Hy; apply Hl; by right).
  apply insert_by_ext; [apply Hl; by left|].
  intros y Hy. apply Hl. right. by rewrite <- (sort_by_perm key l).
Qed.

End SortByExt.

Lemma bonus_points_map_lookup rq uid :
  uid ∈ user_id <$> members rq ->
  default 0 (bonus_points_map rq !! uid) = bonus_share rq uid.
Proof.
  intros Hu. unfold bonus_points_map, bonus_share. destruct (bonus_reveal rq).
  - rewrite <- (foldl_fmap
      (λ acc k, <[k := bonus_points_for_user (req_tournament rq)
                         (default [] (bonus_by_user rq !! k))]> acc) ∅ (members rq) user_id).
    rewrite (fill_lookup (λ k, bonus_points_for_user (req_tournament rq)
                                 (default [] (bonus_by_user rq !! k)))).
    by rewrite decide_True by done.
  - rewrite <- (foldl_fmap (λ acc k, <[k := 0]> acc) ∅ (members rq) user_id).
    rewrite (fill_lookup (λ _, 0) (user_id <$> members rq) ∅ uid).
    by rewrite decide_True by done.
Qed.

(** X21. On the matchday page a row's total with bonus is its matchday total
    plus the user's bonus share, the share the season table adds too: the
    bonus score once the bonus is revealed, and 0 before.  So the rows are
    always in the order of the total with bonus, highest first, then
    lower-cased username, and every user of the group has one row. *)
Theorem page_rows_bonus_and_order (rq : Request) (kickoff : Match -> Z) (md : Z) :
  (∀ u, u ∈ members rq ->
     bonus_points (page_row_of rq kickoff md u) = bonus_share rq (user_id u)
     ∧ total_with_bonus (page_row_of rq kickoff md u)
       = total_points (page_row_of rq kickoff md u) + bonus_share rq (user_id u)) ∧
  (bonus_reveal rq = false ->
     ∀ u, u ∈ members rq ->
       total_with_bonus (page_row_of rq kickoff md u)
       = total_points (page_row_of rq kickoff md u)) ∧
  page_rows rq kickoff md
    = sort_by (λ r, (- total_with_bonus r, lower (username (page_user r))))
              (page_row_of rq kickoff md <$> members rq) ∧
  page_user <$> page_rows rq kickoff md ≡ₚ members rq.
Proof.
  assert (Hrow : ∀ u, u ∈ members rq ->
     bonus_points (page_row_of rq kickoff md u) = bonus_share rq (user_id u)
     ∧ total_with_bonus (page_row_of rq kickoff md u)
       = total_points (page_row_of rq kickoff md u) + bonus_share rq (user_id u)).
  { intros u Hu. unfold page_row_of. destruct (row_loop rq kickoff md u) as [t cs].
    cbn [bonus_points total_with_bonus total_points].
    rewrite bonus_points_map_lookup by by apply list_elem_of_fmap_2. done. }
  assert (Hhidden : bonus_reveal rq = false -> ∀ u, u ∈ members rq ->
       total_with_bonus (page_row_of rq kickoff md u)
       = total_points (page_row_of rq kickoff md u)).
  { intros Hrev u Hu. destruct (Hrow u Hu) as [_ ->].
    unfold bonus_share. rewrite Hrev. lia. }
  assert (Horder : page_rows rq kickoff md
    = sort_by (λ r, (- total_with_bonus r, lower (username (page_user r))))
              (page_row_of rq kickoff md <$> members rq)).
  { unfold page_rows. destruct (bonus_reveal rq) eqn:Hrev; [done|].
    apply sort_by_ext. intros r (u & -> & Hu)%list_elem_of_fmap.
    by rewrite (Hhidden eq_refl u Hu). }
  split; [done|]. split; [done|]. split; [done|].
  rewrite Horder, sort_by_perm, <- list_fmap_compose.
  rewrite (list_fmap_ext _ id); [by rewrite list_fmap_id|].
  intros i u _. unfold page_row_of. simpl. by destruct (row_loop rq kickoff md u).
Qed.

Lemma page_rows_bonus_and_order_witness :
  ana ∈ members sample_after ∧
  total_with_bonus (page_row_of sample_after sample_kickoff 3 ana)
  = total_points (page_row_of sample_after sample_kickoff 3 ana)
    + bonus_share sample_after (user_id ana).
Proof.
  assert (H : ana ∈ members sample_after) by (by apply (list_elem_of_lookup_2 _ 0%nat)).
  split; [exact H|].
  exact (proj2 (proj1 (page_rows_bonus_and_order sample_after sample_kickoff 3) ana H)).
Defined.

Lemma md_points_default rq shown uid md :
  uid ∈ user_id <$> members rq -> md ∈ shown ->
  default 0 (get2 (md_points rq shown) uid md) = scored rq shown uid (matches_of_md rq md).
Proof.
  intros Hu Hmd. rewrite (md_points_value rq shown uid md Hu Hmd).
  destruct (existsb has_result (matches_of_md rq md)) eqn:Hres; [done|].
  simpl. symmetry. apply sum_Z_zero. intros m Hm. apply points_without_result.
  destruct (has_result m) eqn:Hr; [|done].
  assert (existsb has_result (matches_of_md rq md) = true); [|congruence].
  apply existsb_exists. exists m. split; [|done]. by apply list_elem_of_In.
Qed.

(** X22. The matchday page and the season table agree: for a matchday of the
    shown window on which every match that has a result has started, a
    user's matchday total on the page is the matchday aggregate of the
    table, none read as 0. *)
Theorem page_total_agrees_with_table (rq : Request) (kickoff : Match -> Z)
    (md : Z) (u : User) :
  md ∈ shown_matchdays rq ->
  u ∈ members rq ->
  (∀ m, m ∈ page_matches rq md -> has_result m = true -> kickoff m ≤ req_now rq) ->
  total_points (page_row_of rq kickoff md u)
  = default 0 (get2 (md_points rq (shown_matchdays rq)) (user_id u) md).
Proof.
  intros Hmd Hu Hstarted.
  assert (Huid : user_id u ∈ user_id <$> members rq) by by apply list_elem_of_fmap_2.
  rewrite (md_points_default rq _ _ md Huid Hmd), page_row_total.
  unfold scored. rewrite sum_Z_filter_indicator. apply sum_Z_ext. intros m Hm.
  rewrite (page_pred_map_last rq md _ m Huid Hm).
  rewrite (pred_map_last rq _ _ m Huid (matches_of_md_in_window rq md _ m Hmd Hm)).
  case_decide as Hs; [done|]. symmetry. apply points_without_result.
  destruct (has_result m) eqn:Hres; [|done]. by destruct (Hs (Hstarted m Hm Hres)).
Qed.

Lemma page_total_agrees_with_table_witness :
  3 ∈ shown_matchdays sample_after ∧
  ana ∈ members sample_after ∧
  total_points (page_row_of sample_after sample_kickoff 3 ana)
  = default 0 (get2 (md_points sample_after (shown_matchdays sample_after)) (user_id ana) 3).
Proof.
  assert (Hmd : 3 ∈ shown_matchdays sample_after) by by_evaluation.
  assert (Hu : ana ∈ members sample_after) by (by apply (list_elem_of_lookup_2 _ 0%nat)).
  split; [exact Hmd|]. split; [exact Hu|].
  apply (page_total_agrees_with_table sample_after sample_kickoff 3 ana Hmd Hu).
  intros m Hm Hres. apply list_elem_of_lookup in Hm as [i Hi].
  destruct i as [|[|i]]; vm_compute in Hi.
  - injection Hi as <-. vm_compute. discriminate.
  - injection Hi as <-. discriminate Hres.
  - discriminate Hi.
Defined.

(** The sample matchday page of matchday 3 at time 200. *)
Example sample_page :
  (λ r, (username (page_user r), cell_points <$> page_cells r, total_with_bonus r))
    <$> page_rows sample_after sample_kickoff 3
  = [("ana", [Some 4; Some 0], 9); ("Ben", [Some 3; Some 0], 8);
     ("cid", [Some 0; Some 0], 0)].
Proof. vm_compute. reflexivity. Qed.
(** * Saving predictions *)

Section TippenFacts.

Variable rq : Request.
Variable kickoff : Match -> Z.
Variables me md now : Z.
Variables post_home post_away : Z -> option Z.
Variable column_max : Z.

Local Abbreviation uoc := (upsert rq me).
Local Abbreviation step :=
  (post_step rq kickoff me now post_home post_away column_max).
Local Abbreviation new_key m := (me, req_group rq, match_id m).
Local Abbreviation rows_of k db := (filter (λ p, key3 p = k) db).

Lemma same_key_spec m p :
  same_key rq me m p = true ↔ key3 p = new_key m.
Proof.
  unfold same_key, key3.
  rewrite !andb_true_iff, !Z.eqb_eq. split.
  - by intros [[-> ->] ->].
  - intros [= -> -> ->]. done.
Qed.

Lemma same_key_false m p :
  same_key rq me m p = false ↔ key3 p ≠ new_key m.
Proof.
  rewrite <- same_key_spec. by destruct (same_key rq me m p).
Qed.

Lemma existsb_same_key m db :
  existsb (same_key rq me m) db = true ↔ new_key m ∈ key3 <$> db.
Proof.
  rewrite existsb_exists, list_elem_of_fmap. split.
  - intros (p & Hp & Hk). exists p. split.
    + symmetry. by apply same_key_spec.
    + by apply list_elem_of_In.
  - intros (p & Hk & Hp). exists p. split.
    + by apply list_elem_of_In.
    + by apply same_key_spec.
Qed.

Lemma uoc_keys db m ph pa :
  key3 <$> uoc db m ph pa =
  if existsb (same_key rq me m) db then key3 <$> db
  else (key3 <$> db) ++ [new_key m].
Proof.
  unfold upsert. destruct (existsb _ db).
  - rewrite <- list_fmap_compose. apply list_fmap_ext.
    intros i p _. cbn. by destruct (same_key rq me m p).
  - by rewrite fmap_app.
Qed.

Lemma uoc_other db m ph pa k :
  k ≠ new_key m → rows_of k (uoc db m ph pa) = rows_of k db.
Proof.
  intros Hk. unfold upsert. destruct (existsb _ db).
  - induction db as [|p db IH]; [done|].
    rewrite fmap_cons, !filter_cons, IH.
    destruct (same_key rq me m p) eqn:E.
    + apply same_key_spec in E.
      rewrite decide_False by (cbn; unfold key3 in *; cbn; congruence).
      by rewrite decide_False by congruence.
    + done.
  - rewrite filter_app, filter_cons, filter_nil.
    rewrite decide_False by (unfold key3; cbn; congruence).
    by rewrite app_nil_r.
Qed.

Lemma uoc_elem db m ph pa p :
  p ∈ uoc db m ph pa →
  p ∈ db ∨
  (key3 p = new_key m ∧ pred_home p = Some ph ∧ pred_away p = Some pa).
Proof.
  unfold upsert. destruct (existsb _ db).
  - intros (q & -> & Hq)%list_elem_of_fmap.
    destruct (same_key rq me m q) eqn:E; [|by left].
    right. apply same_key_spec in E. done.
  - intros [Hp| ->%list_elem_of_singleton]%elem_of_app; [by left|].
    by right.
Qed.

Lemma uoc_written db m ph pa :
  (∃ p, p ∈ uoc db m ph pa ∧ key3 p = new_key m) ∧
  ∀ p, p ∈ uoc db m ph pa → key3 p = new_key m →
       pred_home p = Some ph ∧ pred_away p = Some pa.
Proof.
  split.
  - unfold upsert. destruct (existsb _ db) eqn:E.
    + apply existsb_exists in E as (q & Hq%list_elem_of_In & Hk).
      eexists. split.
      * apply list_elem_of_fmap. exists q. by rewrite Hk.
      * apply same_key_spec in Hk. done.
    + eexists. split; [apply elem_of_app; right; by apply list_elem_of_singleton|done].
  - unfold upsert. destruct (existsb _ db) eqn:E.
    + intros p (q & -> & Hq)%list_elem_of_fmap.
      destruct (same_key rq me m q) eqn:E'; [done|].
      intros Hk. apply same_key_false in E'. done.
    + intros p [Hp| ->%list_elem_of_singleton]%elem_of_app Hk; [|done].
      assert (existsb (same_key rq me m) db = true); [|congruence].
      apply existsb_same_key. rewrite <- Hk. by apply list_elem_of_fmap_2.
Qed.

(** What one pass of the loop does to the state: it leaves the table and
    [saved] as they are, or it runs a successful [update_or_create]. *)
Lemma post_step_cases st m :
  (post_db (step st m) = post_db st ∧ saved (step st m) = saved st ∧
   (raised (step st m) = false →
    raised st = false ∧
    skipped_locked (step st m) =
      skipped_locked st + (if kickoff m <=? now then 1 else 0)))
  ∨
  (now < kickoff m ∧
   ∃ ph pa, post_home (match_id m) = Some ph ∧
            post_away (match_id m) = Some pa ∧ 0 ≤ ph ∧ 0 ≤ pa ∧
            ph ≤ column_max ∧ pa ≤ column_max ∧
            post_db (step st m) = uoc (post_db st) m ph pa ∧
            saved (step st m) = saved st + 1 ∧
            skipped_locked (step st m) = skipped_locked st ∧
            raised (step st m) = false ∧ raised st = false).
Proof.
  unfold post_step. destruct (raised st) eqn:Hr.
  { left. split_and!; [done..|]. intros H. congruence. }
  destruct (kickoff m <=? now) eqn:Hk.
  { left. cbn. done. }
  apply Z.leb_gt in Hk.
  destruct (post_home (match_id m)) as [ph|];
    [|left; split_and!; [done..|]; intros _; split; [done|lia]].
  destruct (post_away (match_id m)) as [pa|];
    [|left; split_and!; [done..|]; intros _; split; [done|lia]].
  destruct ((ph <? 0) || (pa <? 0)) eqn:Hneg;
    [left; split_and!; [done..|]; intros _; split; [done|lia]|].
  apply orb_false_iff in Hneg as [H1%Z.ltb_ge H2%Z.ltb_ge].
  unfold update_or_create.
  destruct ((ph <=? column_max) && (pa <=? column_max)) eqn:Hfit.
  - apply andb_true_iff in Hfit as [H3%Z.leb_le H4%Z.leb_le].
    right. split; [done|]. exists ph, pa. cbn. done.
  - left. cbn. split_and!; [done..|]. intros [=].
Qed.

Lemma fold_raised ms st :
  raised st = true → foldl step st ms = st.
Proof.
  intros Hr. induction ms as [|m ms IH]; [done|].
  cbn [foldl]. unfold post_step at 2. by rewrite Hr.
Qed.

Lemma fold_not_raised ms st m :
  raised (foldl step (step st m) ms) = false → raised (step st m) = false.
Proof.
  intros H. destruct (raised (step st m)) eqn:E; [|done].
  by rewrite (fold_raised ms _ E), E in H.
Qed.

Lemma fold_other ms st k :
  (∀ m, m ∈ ms → now < kickoff m → k ≠ new_key m) →
  rows_of k (post_db (foldl step st ms)) = rows_of k (post_db st).
Proof.
  revert st. induction ms as [|m ms IH]; intros st Hms; [done|].
  cbn [foldl]. rewrite IH by (intros; apply Hms; [by right|done]).
  destruct (post_step_cases st m)
    as [(-> & _)|(Hopen & ph & pa & _ & _ & _ & _ & _ & _ & -> & _)]; [done|].
  apply uoc_other, Hms; [by left|done].
Qed.

Lemma fold_keys ms st :
  NoDup (key3 <$> post_db st) →
  NoDup (key3 <$> post_db (foldl step st ms)).
Proof.
  revert st. induction ms as [|m ms IH]; intros st Hnd; [done|].
  cbn [foldl]. apply IH.
  destruct (post_step_cases st m)
    as [(-> & _)|(Hopen & ph & pa & _ & _ & _ & _ & _ & _ & -> & _)]; [done|].
  rewrite uoc_keys. destruct (existsb _ (post_db st)) eqn:E; [done|].
  apply NoDup_app. split_and!; [done| |apply NoDup_singleton].
  intros k Hk ->%list_elem_of_singleton.
  apply existsb_same_key in Hk. congruence.
Qed.

Lemma fold_origin ms st p :
  p ∈ post_db (foldl step st ms) →
  p ∈ post_db st ∨
  ∃ m ph pa, m ∈ ms ∧ now < kickoff m ∧
    post_home (match_id m) = Some ph ∧ post_away (match_id m) = Some pa ∧
    0 ≤ ph ∧ 0 ≤ pa ∧
    key3 p = new_key m ∧ pred_home p = Some ph ∧ pred_away p = Some pa.
Proof.
  revert st. induction ms as [|m ms IH]; intros st Hp; [by left|].
  cbn [foldl] in Hp. apply IH in Hp as [Hp|(m' & ph & pa & Hm' & Hrest)].
  - destruct (post_step_cases st m)
      as [(Hdb & _)|(Hopen & ph & pa & Hh & Ha & H0 & H1 & _ & _ & Hdb & _)].
    + left. by rewrite <- Hdb.
    + rewrite Hdb in Hp. apply uoc_elem in Hp as [Hp|(Hk & Hph & Hpa)]; [by left|].
      right. exists m, ph, pa. split; [by left|done].
  - right. exists m', ph, pa. split; [by right|done].
Qed.

(** A pass over an open match with a valid tip that does not raise has
    written the tip, and the tip fits the column. *)
Lemma post_step_valid st m ph pa :
  now < kickoff m →
  post_home (match_id m) = Some ph → post_away (match_id m) = Some pa →
  0 ≤ ph → 0 ≤ pa →
  raised (step st m) = false →
  ph ≤ column_max ∧ pa ≤ column_max ∧
  post_db (step st m) = uoc (post_db st) m ph pa.
Proof.
  intros Hopen Hh Ha Hph Hpa. unfold post_step.
  destruct (raised st) eqn:Hr; [by rewrite Hr|].
  rewrite (proj2 (Z.leb_gt _ _)) by lia. rewrite Hh, Ha.
  assert ((ph <? 0) || (pa <? 0) = false) as ->.
  { apply orb_false_iff. split; apply Z.ltb_ge; lia. }
  unfold update_or_create.
  destruct ((ph <=? column_max) && (pa <=? column_max)) eqn:Hfit; [|by intros [=]].
  apply andb_true_iff in Hfit as [H3%Z.leb_le H4%Z.leb_le]. done.
Qed.

Lemma fold_in_range ms st m ph pa :
  now < kickoff m →
  post_home (match_id m) = Some ph → post_away (match_id m) = Some pa →
  0 ≤ ph → 0 ≤ pa →
  m ∈ ms →
  raised (foldl step st ms) = false →
  ph ≤ column_max ∧ pa ≤ column_max.
Proof.
  intros Hopen Hh Ha Hph Hpa. revert st.
  induction ms as [|m' ms IH]; intros st Hin Hfin.
  { by apply elem_of_nil in Hin. }
  cbn [foldl] in Hfin.
  apply elem_of_cons in Hin as [->|Hin]; [|by apply (IH (step st m'))].
  apply fold_not_raised in Hfin.
  by destruct (post_step_valid st m' ph pa Hopen Hh Ha Hph Hpa Hfin) as (? & ? & _).
Qed.

Lemma fold_stored ms st m ph pa :
  now < kickoff m →
  post_home (match_id m) = Some ph → post_away (match_id m) = Some pa →
  0 ≤ ph → 0 ≤ pa →
  raised (foldl step st ms) = false →
  m ∈ ms ∨
    ((∃ p, p ∈ post_db st ∧ key3 p = new_key m) ∧
     ∀ p, p ∈ post_db st → key3 p = new_key m →
          pred_home p = Some ph ∧ pred_away p = Some pa) →
  (∃ p, p ∈ post_db (foldl step st ms) ∧ key3 p = new_key m) ∧
  ∀ p, p ∈ post_db (foldl step st ms) → key3 p = new_key m →
       pred_home p = Some ph ∧ pred_away p = Some pa.
Proof.
  intros Hopen Hh Ha Hph Hpa. revert st.
  induction ms as [|m' ms IH]; intros st Hfin Hst.
  { destruct Hst as [Hin|Hst]; [by apply elem_of_nil in Hin|done]. }
  cbn [foldl] in *. apply IH; [done|].
  pose proof (fold_not_raised _ _ _ Hfin) as Hnow.
  destruct Hst as [[->|Hin]%elem_of_cons|Hst]; [|by left|].
  - right.
    destruct (post_step_valid st m' ph pa Hopen Hh Ha Hph Hpa Hnow)
      as (_ & _ & ->).
    apply uoc_written.
  - right.
    destruct (post_step_cases st m')
      as [(-> & _)|(Hopen' & ph' & pa' & Hh' & Ha' & _ & _ & _ & _ & -> & _)];
      [done|].
    destruct (decide (match_id m' = match_id m)) as [Hid|Hid].
    + rewrite Hid in Hh', Ha'.
      assert (ph' = ph) as -> by congruence.
      assert (pa' = pa) as -> by congruence.
      rewrite <- Hid. apply uoc_written.
    + assert (Hk : new_key m ≠ new_key m') by congruence.
      pose proof (uoc_other (post_db st) m' ph' pa' (new_key m) Hk) as Hf.
      assert (Hiff : ∀ p, key3 p = new_key m →
                p ∈ uoc (post_db st) m' ph' pa' ↔ p ∈ post_db st).
      { intros p Hp.
        assert (p ∈ rows_of (new_key m) (uoc (post_db st) m' ph' pa') ↔
                p ∈ rows_of (new_key m) (post_db st)) as Hx by by rewrite Hf.
        rewrite !list_elem_of_filter in Hx. tauto. }
      destruct Hst as [(p & Hp & Hkp) Hall]. split.
      * exists p. split; [by apply Hiff|done].
      * intros q Hq Hkq. apply Hall; [by apply Hiff|done].
Qed.

(** No call raises when every tip posted for an open match fits the
    column. *)
Lemma fold_no_raise ms st :
  (∀ m, m ∈ ms → now < kickoff m →
     ∀ h a, post_home (match_id m) = Some h →
            post_away (match_id m) = Some a →
            h ≤ column_max ∧ a ≤ column_max) →
  raised st = false →
  raised (foldl step st ms) = false.
Proof.
  revert st. induction ms as [|m ms IH]; intros st Hfit Hr; [done|].
  cbn [foldl]. apply IH; [intros; eapply Hfit; [by right|done..]|].
  unfold post_step. rewrite Hr.
  destruct (kickoff m <=? now) eqn:Hk; [done|]. apply Z.leb_gt in Hk.
  destruct (post_home (match_id m)) as [h|] eqn:Hh; [|done].
  destruct (post_away (match_id m)) as [a|] eqn:Ha; [|done].
  destruct ((h <? 0) || (a <? 0)); [done|].
  destruct (Hfit m ltac:(by left) Hk h a Hh Ha) as [H1 H2].
  unfold update_or_create.
  rewrite (proj2 (Z.leb_le _ _) H1), (proj2 (Z.leb_le _ _) H2). done.
Qed.

Lemma fold_counters ms st :
  let st' := foldl step st ms in
  (raised st' = false →
   skipped_locked st' =
     skipped_locked st
     + Z.of_nat (length (filter (λ m, kickoff m ≤ now) ms))) ∧
  saved st ≤ saved st' ∧
  saved st' ≤ saved st + Z.of_nat (length (filter (λ m, now < kickoff m) ms)) ∧
  (saved st' = saved st → post_db st' = post_db st).
Proof.
  revert st. induction ms as [|m ms IH]; intros st; cbn zeta.
  { cbn. split_and!; [intros _; lia|lia..|done]. }
  cbn [foldl]. specialize (IH (step st m)). cbn zeta in IH.
  destruct IH as (IHs & IHlo & IHhi & IHdb).
  rewrite !filter_cons.
  destruct (post_step_cases st m)
    as [(Hdb & Hsv & Hsk)
       |(Hopen & ph & pa & _ & _ & _ & _ & _ & _ & Hdb & Hsv & Hsk & _)].
  - rewrite Hsv in *.
    assert (Hlen :
      saved (foldl step (step st m) ms)
      ≤ saved st
        + Z.of_nat (length (if decide (now < kickoff m)
                            then m :: filter (λ m, now < kickoff m) ms
                            else filter (λ m, now < kickoff m) ms))).
    { destruct (decide (now < kickoff m)); cbn [length]; lia. }
    split_and!; [|lia|done|].
    + intros Hfin. pose proof (fold_not_raised _ _ _ Hfin) as Hnow.
      destruct (Hsk Hnow) as [_ Hsk']. rewrite (IHs Hfin), Hsk'.
      destruct (kickoff m <=? now) eqn:E.
      * apply Z.leb_le in E. rewrite decide_True by done. cbn [length]. lia.
      * apply Z.leb_gt in E. rewrite decide_False by lia. lia.
    + intros H. rewrite IHdb by done. done.
  - rewrite Hsv in *.
    rewrite decide_False by lia. rewrite (decide_True (P:=now < kickoff m)) by lia.
    cbn [length]. split_and!; [|lia|lia|intros H; lia].
    intros Hfin. rewrite (IHs Hfin), Hsk. lia.
Qed.

End TippenFacts.

(** X23.  The POST branch of [tippen] touches no row but the posting user's
    rows in the active group for matches of the selected matchday that have
    not kicked off: for every other key (a started match, another user,
    another group, another matchday) the rows of the table are the same
    before and after, also when a call raises. *)
Theorem post_leaves_other_rows rq kickoff me md now post_home post_away
    column_max (k : Z * Z * Z) :
  (∀ m, m ∈ matches_of_md rq md → now < kickoff m →
        k ≠ (me, req_group rq, match_id m)) →
  filter (λ p, key3 p = k)
         (post_db (tippen_post rq kickoff me md now post_home post_away
                               column_max)) =
  filter (λ p, key3 p = k) (db_predictions rq).
Proof.
  intros Hk. unfold tippen_post. by rewrite fold_other.
Qed.

(** Ben posts at time 150 for matchday 3: match 1 kicked off at 100, so his
    tip 3:2 on it stays although the form carries 5:0. *)
Lemma post_leaves_other_rows_witness :
  filter (λ p, key3 p = (2, 1, 1))
         (post_db (tippen_post sample_after sample_kickoff 2 3 150
                               sample_post_home sample_post_away
                               sample_column_max)) =
  [mk_pred 2 1 1 (Some 3) (Some 2)].
Proof.
  rewrite (post_leaves_other_rows sample_after sample_kickoff 2 3 150
             sample_post_home sample_post_away sample_column_max (2, 1, 1)).
  - reflexivity.
  - apply (proj1 (Forall_forall
               (λ m, 150 < sample_kickoff m →
                     (2, 1, 1) ≠ (2, req_group sample_after, match_id m))
               (matches_of_md sample_after 3))).
    by_evaluation.
Defined.

(** X24.  The POST branch keeps the unique constraint of the prediction
    table: when no two rows share user, group and match before, none do
    after. *)
Theorem post_keeps_unique_key rq kickoff me md now post_home post_away
    column_max :
  NoDup (key3 <$> db_predictions rq) →
  NoDup (key3 <$>
         post_db (tippen_post rq kickoff me md now post_home post_away
                              column_max)).
Proof.
  intros Hnd. unfold tippen_post. by apply fold_keys.
Qed.

Lemma post_keeps_unique_key_witness :
  NoDup (key3 <$>
         post_db (tippen_post sample_after sample_kickoff 2 3 150
                              sample_post_home sample_post_away
                              sample_column_max)).
Proof.
  apply post_keeps_unique_key. by_evaluation.
Defined.

(** X25.  A valid tip on an open match is stored when the request goes
    through: for a match of the selected matchday that has not kicked off,
    with both fields posted as non-negative integers, a run in which no
    call raises leaves a row of the posting user in the active group for
    the match, every such row carries exactly the posted tip, and the tip
    fits the integer column (so a tip beyond the column width makes the
    request fail).  No call raises when every tip posted for an open match
    of the matchday fits the column. *)
Theorem post_stores_open_valid_tip rq kickoff me md now post_home post_away
    column_max (m : Match) (ph pa : Z) :
  m ∈ matches_of_md rq md →
  now < kickoff m →
  post_home (match_id m) = Some ph → post_away (match_id m) = Some pa →
  0 ≤ ph → 0 ≤ pa →
  let st := tippen_post rq kickoff me md now post_home post_away column_max in
  (raised st = false →
   ph ≤ column_max ∧ pa ≤ column_max ∧
   (∃ p, p ∈ post_db st ∧ key3 p = (me, req_group rq, match_id m)) ∧
   ∀ p, p ∈ post_db st → key3 p = (me, req_group rq, match_id m) →
        pred_home p = Some ph ∧ pred_away p = Some pa) ∧
  ((∀ m', m' ∈ matches_of_md rq md → now < kickoff m' →
      ∀ h a, post_home (match_id m') = Some h →
             post_away (match_id m') = Some a →
             h ≤ column_max ∧ a ≤ column_max) →
   raised st = false).
Proof.
  intros Hm Hopen Hh Ha Hph Hpa. cbn zeta. unfold tippen_post. split.
  - intros Hfin.
    destruct (fold_in_range _ _ _ _ _ _ _ _ _ m ph pa Hopen Hh Ha Hph Hpa Hm Hfin)
      as [H1 H2].
    split; [done|]. split; [done|].
    apply fold_stored; [done..|by left].
  - intros Hfit. by apply fold_no_raise.
Qed.

(** Match 2 kicks off at 200: Ben's 2:1 fits the column and is stored. *)
Lemma post_stores_open_valid_tip_witness :
  raised (tippen_post sample_after sample_kickoff 2 3 150
                      sample_post_home sample_post_away sample_column_max)
    = false ∧
  (∃ p, p ∈ post_db (tippen_post sample_after sample_kickoff 2 3 150
                                 sample_post_home sample_post_away
                                 sample_column_max) ∧
        key3 p = (2, 1, 2)) ∧
  ∀ p, p ∈ post_db (tippen_post sample_after sample_kickoff 2 3 150
                                sample_post_home sample_post_away
                                sample_column_max) →
       key3 p = (2, 1, 2) →
       pred_home p = Some 2 ∧ pred_away p = Some 1.
Proof.
  assert (Hfin : raised (tippen_post sample_after sample_kickoff 2 3 150
                           sample_post_home sample_post_away sample_column_max)
                 = false) by reflexivity.
  split; [exact Hfin|].
  apply (post_stores_open_valid_tip sample_after sample_kickoff 2 3 150
           sample_post_home sample_post_away sample_column_max
           (mk_match 2 1 (Some 3) None None) 2 1).
  - by apply (list_elem_of_lookup_2 _ 1%nat).
  - reflexivity.
  - reflexivity.
  - reflexivity.
  - lia.
  - lia.
  - exact Hfin.
Defined.

(** X26.  The counters of the POST branch: when no call raises,
    [skipped_locked] is the number of matches of the matchday that have
    kicked off; [saved] is at most the number of the others, and when
    [saved] is 0 (the message that nothing was saved) the prediction table
    is unchanged. *)
Theorem post_counters rq kickoff me md now post_home post_away column_max :
  let st := tippen_post rq kickoff me md now post_home post_away column_max in
  let ms := matches_of_md rq md in
  (raised st = false →
   skipped_locked st =
     Z.of_nat (length (filter (λ m, kickoff m ≤ now) ms))) ∧
  0 ≤ saved st ≤ Z.of_nat (length (filter (λ m, now < kickoff m) ms)) ∧
  (saved st = 0 → post_db st = db_predictions rq).
Proof.
  cbn zeta. unfold tippen_post.
  pose proof (fold_counters rq kickoff me now post_home post_away column_max
                (matches_of_md rq md)
                {| post_db := db_predictions rq; saved := 0;
                   skipped_locked := 0; raised := false |}) as H.
  cbn zeta in H. cbn [saved skipped_locked post_db] in H.
  destruct H as (Hs & Hlo & Hhi & Hdb). split_and!; [|lia..|].
  - intros Hfin. rewrite (Hs Hfin). lia.
  - intros H0. by apply Hdb.
Qed.

Lemma post_counters_witness :
  skipped_locked (tippen_post sample_after sample_kickoff 2 3 150
                    sample_post_home sample_post_away sample_column_max) =
  Z.of_nat (length (filter (λ m, sample_kickoff m ≤ 150)
                           (matches_of_md sample_after 3))).
Proof.
  apply (post_counters sample_after sample_kickoff 2 3 150
           sample_post_home sample_post_away sample_column_max).
  reflexivity.
Defined.

(** X27.  Every row of the table after the POST branch is a row of the
    table before, or carries the tip posted for an open match of the
    selected matchday: both tips are set and non-negative, and the row
    belongs to the posting user in the active group. *)
Theorem post_rows_origin rq kickoff me md now post_home post_away column_max
    (p : Prediction) :
  p ∈ post_db (tippen_post rq kickoff me md now post_home post_away
                           column_max) →
  p ∈ db_predictions rq ∨
  ∃ m ph pa, m ∈ matches_of_md rq md ∧ now < kickoff m ∧
    post_home (match_id m) = Some ph ∧ post_away (match_id m) = Some pa ∧
    0 ≤ ph ∧ 0 ≤ pa ∧
    key3 p = (me, req_group rq, match_id m) ∧
    pred_home p = Some ph ∧ pred_away p = Some pa.
Proof.
  unfold tippen_post. intros Hp. by apply fold_origin in Hp.
Qed.

Lemma post_rows_origin_witness :
  mk_pred 2 1 2 (Some 2) (Some 1) ∈ db_predictions sample_after ∨
  ∃ m ph pa, m ∈ matches_of_md sample_after 3 ∧ 150 < sample_kickoff m ∧
    sample_post_home (match_id m) = Some ph ∧
    sample_post_away (match_id m) = Some pa ∧
    0 ≤ ph ∧ 0 ≤ pa ∧
    key3 (mk_pred 2 1 2 (Some 2) (Some 1)) =
      (2, req_group sample_after, match_id m) ∧
    pred_home (mk_pred 2 1 2 (Some 2) (Some 1)) = Some ph ∧
    pred_away (mk_pred 2 1 2 (Some 2) (Some 1)) = Some pa.
Proof.
  apply (post_rows_origin sample_after sample_kickoff 2 3 150
           sample_post_home sample_post_away sample_column_max).
  by apply (list_elem_of_lookup_2 _ 9%nat).
Defined.

(** The sample POST: one tip saved, one match locked, and the table with
    the new row at its end. *)
Example sample_post :
  let st := tippen_post sample_after sample_kickoff 2 3 150
                        sample_post_home sample_post_away sample_column_max in
  raised st = false ∧ saved st = 1 ∧ skipped_locked st = 1 ∧
  post_db st = sample_predictions ++ [mk_pred 2 1 2 (Some 2) (Some 1)].
Proof. by vm_compute. Qed.

(** A tip beyond the column width: the call raises and nothing is stored. *)
Example sample_post_raises :
  let st := tippen_post sample_after sample_kickoff 2 3 150
                        sample_post_big sample_post_away sample_column_max in
  raised st = true ∧ saved st = 0 ∧ post_db st = sample_predictions.
Proof. by vm_compute. Qed.
(** * The active group *)

Lemma first_by_id_elem l m : first_by_id l = Some m → m ∈ l.
Proof.
  revert m. induction l as [|x l IH]; intros m; [done|]. cbn.
  destruct (first_by_id l) as [m'|].
  - destruct (membership_id x <=? membership_id m'); intros [= <-].
    + by left.
    + right. by apply IH.
  - intros [= <-]. by left.
Qed.

Lemma first_by_id_None l : first_by_id l = None ↔ l = [].
Proof.
  destruct l as [|x l]; [done|]. cbn.
  destruct (first_by_id l) as [m'|]; [|done].
  by destruct (membership_id x <=? membership_id m').
Qed.

Section MembershipFacts.

Variable db : list GroupMembership.
Variable user : Z.

Lemma fallback_sound m :
  first_by_id (memberships_of_user db user) = Some m →
  m ∈ db ∧ member_user m = user.
Proof.
  intros Hm%first_by_id_elem. by apply list_elem_of_filter in Hm as [? ?].
Qed.

Lemma fallback_None :
  first_by_id (memberships_of_user db user) = None →
  ∀ m, m ∈ db → member_user m ≠ user.
Proof.
  intros Hn%first_by_id_None m Hm Hu.
  assert (m ∈ memberships_of_user db user) as Hin
    by by apply list_elem_of_filter.
  rewrite Hn in Hin. by apply elem_of_nil in Hin.
Qed.

Lemma membership_in_sound g m :
  first_by_id (membership_in db user g) = Some m →
  m ∈ db ∧ member_user m = user ∧ member_group m = g.
Proof.
  intros Hm%first_by_id_elem.
  apply list_elem_of_filter in Hm as [[? ?] ?]. done.
Qed.

Lemma membership_in_found g m :
  m ∈ db → member_user m = user → member_group m = g →
  ∃ m', first_by_id (membership_in db user g) = Some m'.
Proof.
  intros Hm Hu Hg.
  destruct (first_by_id (membership_in db user g)) as [m'|] eqn:E; [by eexists|].
  apply first_by_id_None in E.
  assert (m ∈ membership_in db user g) as Hin
    by by apply list_elem_of_filter.
  rewrite E in Hin. by apply elem_of_nil in Hin.
Qed.

End MembershipFacts.

(** X28.  [_require_active_membership] returns only memberships of the
    requesting user, and leaves the session pointing at the returned
    membership's group; it returns nothing, with the session untouched,
    exactly when the user is not authenticated or is in no group. *)
Theorem active_membership_sound db authenticated user (session : option Z) :
  match _require_active_membership db authenticated user session with
  | (Some m, session') =>
      authenticated = true ∧ m ∈ db ∧ member_user m = user ∧
      session' = Some (member_group m)
  | (None, session') =>
      session' = session ∧
      (authenticated = false ∨ ∀ m, m ∈ db → member_user m ≠ user)
  end.
Proof.
  unfold _require_active_membership.
  destruct authenticated; cbn [negb]; [|by split; [|left]].
  assert (Hfb :
    match
      match first_by_id (memberships_of_user db user) with
      | Some m => (Some m, Some (member_group m))
      | None => (None, session)
      end
    with
    | (Some m, session') =>
        true = true ∧ m ∈ db ∧ member_user m = user ∧
        session' = Some (member_group m)
    | (None, session') =>
        session' = session ∧ (true = false ∨ ∀ m, m ∈ db → member_user m ≠ user)
    end).
  { destruct (first_by_id (memberships_of_user db user)) as [m|] eqn:E.
    - apply fallback_sound in E as [? ?]. done.
    - split; [done|]. right. by apply fallback_None. }
  destruct session as [g|]; [|exact Hfb].
  destruct (g =? 0); [exact Hfb|].
  destruct (first_by_id (membership_in db user g)) as [m|] eqn:E; [|exact Hfb].
  apply membership_in_sound in E as (? & ? & ->). done.
Qed.

(** X29.  Switching the active group: for a group id other than 0,
    [set_active_group] stores the id exactly when the user is a member of
    the group, and [_require_active_membership] then returns the user's
    membership of that group without changing the session; when the user is
    not a member the session stays as it was. *)
Theorem set_active_group_then_require db user (g : Z) (session : option Z) :
  g ≠ 0 →
  let session' := set_active_group db user (Some g) session in
  ((∃ m, m ∈ db ∧ member_user m = user ∧ member_group m = g) →
   session' = Some g ∧
   ∃ m, _require_active_membership db true user session' = (Some m, Some g) ∧
        m ∈ db ∧ member_user m = user ∧ member_group m = g) ∧
  ((∀ m, m ∈ db → member_user m = user → member_group m ≠ g) →
   session' = session).
Proof.
  intros Hg. cbn zeta. unfold set_active_group. split.
  - intros (m & Hm & Hu & Hgm).
    destruct (membership_in_found db user g m Hm Hu Hgm) as [m' E].
    rewrite E. pose proof (membership_in_sound _ _ _ _ E) as (Hm' & Hu' & Hg').
    rewrite Hg'. split; [done|]. exists m'.
    unfold _require_active_membership. cbn [negb].
    rewrite (proj2 (Z.eqb_neq _ _)) by done. rewrite E. done.
  - intros Hnone.
    destruct (first_by_id (membership_in db user g)) as [m'|] eqn:E; [|done].
    apply membership_in_sound in E as (Hm' & Hu' & Hg').
    by destruct (Hnone m' Hm' Hu').
Qed.

(** Ana switches to group 2, of which she is a member; Ben cannot. *)
Lemma set_active_group_then_require_witness :
  set_active_group sample_memberships 1 (Some 2) (Some 1) = Some 2 ∧
  set_active_group sample_memberships 2 (Some 2) (Some 1) = Some 1.
Proof.
  split.
  - apply (set_active_group_then_require sample_memberships 1 2 (Some 1));
      [lia|].
    eexists. split; [by apply (list_elem_of_lookup_2 _ 2%nat)|done].
  - apply (set_active_group_then_require sample_memberships 2 2 (Some 1));
      [lia|].
    apply (proj1 (Forall_forall
             (λ m, member_user m = 2 → member_group m ≠ 2)
             sample_memberships)).
    by_evaluation.
Defined.

(** A stale session is repaired to the user's first membership. *)
Example sample_stale_session :
  _require_active_membership sample_memberships true 1 (Some 7) =
  (Some {| membership_id := 1; member_user := 1; member_group := 1 |},
   Some 1).
Proof. reflexivity. Qed.
(** * Reading numbers from the CSV *)

Lemma digit_not_space c : is_digit c = true → is_space c = false.
Proof.
  unfold is_digit, is_space. cbn zeta.
  generalize (N_of_ascii c). intros n.
  rewrite !andb_true_iff, !N.leb_le. intros [H1 H2].
  apply orb_false_iff. split; apply andb_false_iff.
  - right. apply N.leb_gt. lia.
  - right. apply N.leb_gt. lia.
Qed.

Lemma space_not_digit c : is_space c = true → is_digit c = false.
Proof.
  intros Hs. destruct (is_digit c) eqn:E; [|done].
  apply digit_not_space in E. congruence.
Qed.

Lemma search_lstrip s : search_digits (lstrip s) = search_digits s.
Proof.
  induction s as [|c r IH]; [done|]. cbn [lstrip].
  destruct (is_space c) eqn:E; [|done].
  rewrite IH. cbn. by rewrite (space_not_digit c E).
Qed.

Lemma take_rstrip s : take_digits (rstrip s) = take_digits s.
Proof.
  induction s as [|c r IH]; [done|]. cbn [rstrip take_digits].
  destruct (is_digit c) eqn:E.
  - rewrite (digit_not_space c E).
    destruct (rstrip r) eqn:Er; cbn [take_digits]; rewrite E, <- IH; done.
  - destruct (rstrip r); [destruct (is_space c)|]; cbn; by rewrite ?E.
Qed.

Lemma search_rstrip s : search_digits (rstrip s) = search_digits s.
Proof.
  induction s as [|c r IH]; [done|]. cbn [search_digits].
  destruct (is_digit c) eqn:E.
  - rewrite <- (take_rstrip (String c r)). cbn [rstrip].
    rewrite (digit_not_space c E).
    destruct (rstrip r); cbn [search_digits]; by rewrite E.
  - cbn [rstrip]. rewrite <- IH.
    destruct (rstrip r); [destruct (is_space c)|]; cbn; by rewrite ?E.
Qed.

Lemma search_strip s : search_digits (strip s) = search_digits s.
Proof. unfold strip. by rewrite search_rstrip, search_lstrip. Qed.

Lemma to_int_search s :
  _to_int (Some s) = int_of_digits <$> search_digits s.
Proof.
  unfold _to_int. cbn zeta. rewrite <- (search_strip s).
  destruct (strip s); [done|]. by destruct (search_digits _).
Qed.

Lemma take_digits_split s :
  ∃ suf, s = (take_digits s ++ suf)%string ∧
    Forall (λ c, is_digit c = true) (list_ascii_of_string (take_digits s)) ∧
    match suf with String c _ => is_digit c = false | EmptyString => True end.
Proof.
  induction s as [|c r (suf & Hs & Hd & Hsuf)].
  { exists EmptyString. cbn. split_and!; [done|constructor|done]. }
  cbn [take_digits]. destruct (is_digit c) eqn:E.
  - exists suf. cbn [append list_ascii_of_string].
    split_and!; [|by constructor|done].
    change (String c r = String c (take_digits r ++ suf)%string).
    by f_equal.
  - exists (String c r). cbn [append list_ascii_of_string].
    split_and!; [done|constructor|done].
Qed.

Lemma search_digits_None s :
  search_digits s = None →
  Forall (λ c, is_digit c = false) (list_ascii_of_string s).
Proof.
  induction s as [|c r IH]; cbn; [constructor|].
  destruct (is_digit c) eqn:E; [done|]. intros H. constructor; auto.
Qed.

Lemma search_digits_Some s d :
  search_digits s = Some d →
  ∃ pre suf, s = (pre ++ d ++ suf)%string ∧
    Forall (λ c, is_digit c = false) (list_ascii_of_string pre) ∧
    d ≠ EmptyString ∧
    Forall (λ c, is_digit c = true) (list_ascii_of_string d) ∧
    match suf with String c _ => is_digit c = false | EmptyString => True end.
Proof.
  induction s as [|c r IH]; [done|]. cbn [search_digits].
  destruct (is_digit c) eqn:E.
  - intros [= <-].
    destruct (take_digits_split (String c r)) as (suf & Hs & Hd & Hsuf).
    exists EmptyString, suf. cbn [append list_ascii_of_string].
    split_and!; [done|constructor| |done|done].
    cbn. by rewrite E.
  - intros (pre & suf & -> & Hpre & Hne & Hd & Hsuf)%IH.
    exists (String c pre), suf. cbn [append list_ascii_of_string].
    split_and!; [done|by constructor|done..].
Qed.

Lemma int_acc_nonneg d acc :
  Forall (λ c, is_digit c = true) (list_ascii_of_string d) →
  0 ≤ acc → 0 ≤ int_acc acc d.
Proof.
  revert acc. induction d as [|c r IH]; intros acc Hd Hacc; [done|].
  cbn [list_ascii_of_string] in Hd. apply Forall_cons in Hd as [Hc Hr].
  cbn [int_acc]. apply IH; [done|].
  unfold is_digit in Hc. cbn zeta in Hc. unfold digit_value.
  apply andb_true_iff in Hc as [H1%N.leb_le H2]. lia.
Qed.

(** X30.  On ASCII text of at most 4300 characters [_to_int] reads the first
    run of the digits 0-9 and nothing else: the result is [None] exactly
    when the text has no digit, and otherwise it is the value of the
    leftmost maximal run of digits, whatever stands before or after it, so
    the result is never negative (a sign before the digits is skipped like
    any other text). *)
Theorem to_int_reads_first_digits (s : string) :
  isascii s →
  (String.length s ≤ 4300)%nat →
  match _to_int (Some s) with
  | None => Forall (λ c, is_digit c = false) (list_ascii_of_string s)
  | Some n =>
    0 ≤ n ∧
    ∃ pre d suf, s = (pre ++ d ++ suf)%string ∧
      Forall (λ c, is_digit c = false) (list_ascii_of_string pre) ∧
      d ≠ EmptyString ∧
      Forall (λ c, is_digit c = true) (list_ascii_of_string d) ∧
      match suf with String c _ => is_digit c = false | EmptyString => True end ∧
      n = int_of_digits d
  end.
Proof.
  intros _ _. rewrite to_int_search.
  destruct (search_digits s) as [d|] eqn:E; cbn.
  - apply search_digits_Some in E as (pre & suf & Hs & Hpre & Hne & Hd & Hsuf).
    split; [by apply int_acc_nonneg|].
    exists pre, d, suf. done.
  - by apply search_digits_None.
Qed.

(** A score written with a sign is read without it. *)
Lemma to_int_reads_first_digits_witness :
  isascii "-3" ∧ (String.length "-3" ≤ 4300)%nat ∧
  ∃ n, _to_int (Some "-3") = Some n ∧ 0 ≤ n.
Proof.
  assert (H : isascii "-3") by by_evaluation.
  assert (Hl : (String.length "-3" ≤ 4300)%nat) by (cbn; lia).
  split; [exact H|]. split; [exact Hl|].
  exists 3. split; [reflexivity|].
  exact (proj1 (to_int_reads_first_digits "-3" H Hl)).
Defined.

(** A matchday label, a negative number and a text without a number. *)
Example sample_to_int :
  _to_int (Some " Fecha 12 ") = Some 12 ∧ _to_int (Some "-3") = Some 3 ∧
  _to_int (Some "2.5") = Some 2 ∧ _to_int (Some "n/a") = None ∧
  _to_int None = None.
Proof. by vm_compute. Qed.
